(** * SOFTHUB portfolio page: the animation set-up of [src/app/page.tsx]

    The page component [Portfolio] runs one effect at mount.  Inside a
    [gsap.context] it creates tweens, scroll triggers and DOM event
    listeners, and its clean-up calls [ctx.revert()].  This development
    embeds that effect over a small model of the DOM and of the part of
    the animation library's interface the effect calls. *)

From Stdlib Require Import List String Ascii Bool Arith PeanoNat ZArith QArith Qabs Qminmax Qround Lia Lqa.
Import ListNotations.

#[local] Set Warnings "-register-all".
#[local] Open Scope string_scope.
#[local] Open Scope list_scope.

(* ================================================================== *)
(** ** Results of JavaScript operations that can throw *)

Inductive JsError : Type :=
| TypeError (msg : string)
| SyntaxError (msg : string).

Inductive Result (A : Type) : Type :=
| Ok (a : A)
| Throw (e : JsError).
Arguments Ok {A} a.
Arguments Throw {A} e.

(* ================================================================== *)
(** ** The document tree *)

Module Dom.

(** An element: a unique handle, its tag, its class list, its own text
    and its element children, in document order. *)
Inductive Node : Type :=
| Element (uid : nat) (tagName : string) (classList : list string)
          (text : string) (childNodes : list Node).

Definition Elem := nat.

Definition uid (n : Node) : Elem :=
  match n with Element u _ _ _ _ => u end.
Definition tagName (n : Node) : string :=
  match n with Element _ t _ _ _ => t end.
Definition classList (n : Node) : list string :=
  match n with Element _ _ c _ _ => c end.
Definition children (n : Node) : list Node :=
  match n with Element _ _ _ _ k => k end.

(** [el.textContent]: the text of the element and of its descendants. *)
Fixpoint textContent (n : Node) : string :=
  match n with
  | Element _ _ _ t k => (t ++ String.concat "" (map textContent k))%string
  end.

(** The selectors the page uses: [".name"] and ["div:first-child"]. *)
Inductive Selector : Type :=
| ByClass (name : string)
| DivFirstChild.

Definition parseSelector (s : string) : option Selector :=
  if String.eqb s "div:first-child" then Some DivFirstChild
  else match s with
       | String "." rest => if String.eqb rest "" then None else Some (ByClass rest)
       | _ => None
       end.

Definition hasClass (c : string) (n : Node) : bool :=
  existsb (String.eqb c) (classList n).

(** [isFirst] tells whether the node is the first element child of its
    parent. *)
Definition selects (sel : Selector) (isFirst : bool) (n : Node) : bool :=
  match sel with
  | ByClass c => hasClass c n
  | DivFirstChild => isFirst && String.eqb (tagName n) "div"
  end.

(** The descendants matched by the selector, in document order. *)
Fixpoint matchesIn (sel : Selector) (n : Node) : list Node :=
  match n with
  | Element _ _ _ _ k =>
      (fix walk (isFirst : bool) (l : list Node) : list Node :=
         match l with
         | [] => []
         | c :: l' =>
             (if selects sel isFirst c then [c] else [])
               ++ matchesIn sel c ++ walk false l'
         end) true k
  end.


Definition querySelectorAll (root : Node) (s : string) : Result (list Node) :=
  match parseSelector s with
  | Some sel => Ok (matchesIn sel root)
  | None => Throw (SyntaxError s)
  end.

Definition querySelector (root : Node) (s : string) : Result (option Node) :=
  match parseSelector s with
  | Some sel => Ok (hd_error (matchesIn sel root))
  | None => Throw (SyntaxError s)
  end.

End Dom.

(* ================================================================== *)
(** ** The animation library, as far as the page calls it

    [gsap] and [ScrollTrigger] are dependencies of the page, not part of
    its source.  This module fixes the reading of their interface that
    the embedding of the page relies on: what a tween's vars mean, how a
    stagger value is turned into start offsets, what a context records
    and what [revert] undoes.  Floating point numbers are read as
    rationals; [Math.random], [Math.sin], [Math.cos], [Math.sqrt] and the
    sine ease are inputs of the model. *)

Module Gsap.
Import Dom.

#[local] Open Scope Q_scope.

Record JsMath : Type := {
  random : nat -> Q;          (* the n-th call of Math.random() *)
  sin : Q -> Q;
  cos : Q -> Q;
  sqrt : Q -> Q;
  shuffle : list Q -> list Q; (* gsap.utils.shuffle, driven by Math.random *)
  sine : Q -> Q               (* the curve of the ease "sine.inOut" *)
}.

(** The properties the page animates. *)
Inductive Property : Type :=
| p_opacity | p_x | p_y | p_z | p_scale
| p_rotation | p_rotationX | p_rotationY
| p_transformPerspective | p_transformStyle
| p_boxShadow | p_textContent.

Definition Property_eqb (a b : Property) : bool :=
  match a, b with
  | p_opacity, p_opacity | p_x, p_x | p_y, p_y | p_z, p_z
  | p_scale, p_scale | p_rotation, p_rotation
  | p_rotationX, p_rotationX | p_rotationY, p_rotationY
  | p_transformPerspective, p_transformPerspective
  | p_transformStyle, p_transformStyle
  | p_boxShadow, p_boxShadow | p_textContent, p_textContent => true
  | _, _ => false
  end.

Inductive Value : Type :=
| VNum (q : Q)
| VStr (s : string).

Definition Vars := list (Property * Value).

Inductive Ease : Type :=
| power1_out            (* the library default *)
| power2_out
| power3_out
| back_out (overshoot : Q)
| sine_inOut.

(** The eases as functions of the progress [p] in [0, 1]. *)
Definition easeRatio (m : JsMath) (e : Ease) (p : Q) : Q :=
  match e with
  | power1_out => 1 - (1 - p)
  | power2_out => 1 - (1 - p) * (1 - p)
  | power3_out => 1 - (1 - p) * (1 - p) * (1 - p)
  | back_out s =>
      if Qeq_bool p 0 then 0
      else (p - 1) * (p - 1) * ((s + 1) * (p - 1) + s) + 1
  | sine_inOut => sine m p
  end.

Inductive StaggerFrom : Type := from_start | from_center | from_random.

(** [stagger: 0.2] is a number, [stagger: {amount, from, grid, ease}] an
    object. *)
Inductive Stagger : Type :=
| stagger_each (each : Q)
| stagger_amount (amount : Q) (from : StaggerFrom)
                 (grid : option (nat * nat)) (ease : option Ease).

Inductive Repeat : Type :=
| times (n : nat)
| forever.               (* repeat: -1 *)

(** The vars object of a tween, without its [scrollTrigger] entry. *)
Record TweenVars : Type := {
  props : Vars;
  duration : Q;
  delay : Q;
  ease : Ease;
  stagger : option Stagger;
  repeat : Repeat;
  yoyo : bool;
  snap : option (Property * Q)
}.

(** A call [gsap.to(targets, vars)] made later, from a callback. *)
Record ToCall : Type := {
  call_targets : list Elem;
  call_vars : TweenVars
}.

Record ScrollTriggerVars : Type := {
  trigger : list Elem;             (* [] for a null trigger *)
  start : string;
  end_ : option string;
  toggleActions : option string;
  onEnter : option (list ToCall)
}.


(** *** Stagger: [gsap.utils.distribute]

    The library turns a stagger value into one start offset per target:
    it lays the [l] targets out on a line (or on a grid), measures each
    one's distance from the origin chosen by [from], and scales the
    distances, relative to the least and greatest, by a total [v].  A
    number [each] is read as the object [{each}], for which [v] is
    [each * (l - 1)] as long as the targets fit in one row; with
    [amount], [v] is the amount itself. *)

Definition bigNum : Z := 100000000.

Definition norm (m : JsMath) (x y : Q) : Q :=
  if Qeq_bool y 0 then Qabs x else sqrt m (x * x + y * y).

Definition ratioOf (from : StaggerFrom) : Q :=
  match from with from_center => 0.5 | _ => 0 end.

(** The distance of target [j] among [l]; [from = None] is the numeric
    origin 0 of a plain number. *)
Definition wrapOf (grid : option (nat * nat)) : Z :=
  match grid with Some (_, c) => Z.of_nat c | None => bigNum end.

Definition distance (m : JsMath) (from : option StaggerFrom)
  (grid : option (nat * nat)) (l j : Z) : Q :=
  let wrapAt := wrapOf grid in
  let originX := match from with
                 | Some f => inject_Z (Z.min wrapAt l) * ratioOf f - 0.5
                 | None => inject_Z (0 mod wrapAt)
                 end in
  let originY := if Z.eqb wrapAt bigNum then 0
                 else match from with
                      | Some f => inject_Z l * ratioOf f / inject_Z wrapAt - 0.5
                      | None => inject_Z (0 / wrapAt)
                      end in
  let x := inject_Z (j mod wrapAt) - originX in
  let y := originY - inject_Z (j / wrapAt) in
  norm m x y.

Definition indices (l : nat) : list Z := map Z.of_nat (seq 0 l).

Definition Qmaxl (ds : list Q) : Q :=
  fold_left (fun mx d => if Qlt_le_dec mx d then d else mx) ds 0.

Definition Qminl (ds : list Q) : Q :=
  fold_left (fun mn d => if Qlt_le_dec d mn then d else mn) ds (inject_Z bigNum).

(** The offsets of [l] targets, in target order. *)
Definition distribute (m : JsMath) (s : Stagger) (l : nat) : list Q :=
  let from := match s with
              | stagger_each _ => None
              | stagger_amount _ f _ _ => Some f
              end in
  let grid := match s with
              | stagger_each _ => None
              | stagger_amount _ _ g _ => g
              end in
  let ds := map (distance m from grid (Z.of_nat l)) (indices l) in
  let mx := Qmaxl ds in
  let mn := Qminl ds in
  let ds' := match from with Some from_random => shuffle m ds | _ => ds end in
  let v := match s with
           | stagger_each each =>
               each * (if (Z.of_nat l <? wrapOf grid)%Z then inject_Z (Z.of_nat l - 1)
                       else Qmax (inject_Z (wrapOf grid))
                                 (inject_Z (Z.of_nat l) / inject_Z (wrapOf grid)))
           | stagger_amount amount _ _ _ => amount
           end in
  let curve := match s with
               | stagger_amount _ _ _ (Some e) => easeRatio m e
               | _ => fun r => r
               end in
  map (fun d => curve ((d - mn) / (mx - mn)) * v) ds'.

(** A tween without a stagger starts all its targets together. *)
Definition startOffsets (m : JsMath) (s : option Stagger) (l : nat) : list Q :=
  match s with
  | Some s => distribute m s l
  | None => List.repeat 0 l
  end.

(** First-to-last spread of the start times of a staggered set. *)
Definition spread (offsets : list Q) : Q :=
  fold_left (fun mx d => if Qlt_le_dec mx d then d else mx) offsets 0.

(** *** Tweens, scroll triggers, listeners *)

Record Tween : Type := {
  tw_id : nat;
  tw_ctx : option nat;          (* the context that recorded it, if any *)
  tw_targets : list Elem;
  tw_from : option Vars;        (* the from-vars of a fromTo *)
  tw_vars : TweenVars;
  tw_offsets : list Q;          (* start offset of each target *)
  tw_position : Q;              (* start time on the hero timeline; 0 at the root *)
  tw_time : Q;                  (* playhead *)
  tw_paused : bool;
  tw_reversed : bool;
  tw_starts : list (Elem * Property * Q)  (* start values read by a to() *)
}.

Record ScrollTrigger : Type := {
  st_id : nat;
  st_ctx : option nat;
  st_vars : ScrollTriggerVars;
  st_animation : option nat     (* the tween it controls *)
}.

(** [el.addEventListener(type, handler)]; every handler of the page is a
    sequence of [gsap.to] calls with constant arguments. *)
Record Listener : Type := {
  l_target : Elem;
  l_type : string;
  l_handler : list ToCall
}.

(** The state the effect works on: the library's animations and scroll
    triggers, the listeners held by the DOM, and the values written to
    the elements. *)
Record State : Type := {
  animations : list Tween;
  observers : list ScrollTrigger;
  listeners : list Listener;
  styles : list (Elem * Property * Value);
  context : option nat;         (* the context whose function is running *)
  nextId : nat;
  nextCtx : nat;
  randomCalls : nat
}.

Definition emptyState : State :=
  {| animations := []; observers := []; listeners := []; styles := [];
     context := None; nextId := 0; nextCtx := 0; randomCalls := 0 |}.
(** *** The effect monad: state, and JavaScript exceptions *)

Definition M (A : Type) : Type := State -> Result (A * State).

Definition ret {A : Type} (a : A) : M A := fun s => Ok (a, s).

Definition bind {A B : Type} (c : M A) (k : A -> M B) : M B :=
  fun s => match c s with
           | Ok (a, s') => k a s'
           | Throw e => Throw e
           end.

Definition lift {A : Type} (r : Result A) : M A :=
  fun s => match r with Ok a => Ok (a, s) | Throw e => Throw e end.

Definition modify (f : State -> State) : M unit := fun s => Ok (tt, f s).

Declare Scope js_scope.
Delimit Scope js_scope with js.
Notation "x <- c ;; k" := (bind c (fun x => k))
  (at level 61, c at next level, right associativity) : js_scope.
Notation "c ;; k" := (bind c (fun _ => k))
  (at level 61, right associativity) : js_scope.

(** [list.forEach((item, index) => ...)]. *)
Fixpoint forEach {A : Type} (l : list A) (f : A -> nat -> M unit) (index : nat) : M unit :=
  match l with
  | [] => ret tt
  | a :: l' => bind (f a index) (fun _ => forEach l' f (S index))
  end.

(** [x.current.y] throws when [x.current] is null. *)
Definition deref {A : Type} (o : option A) (what : string) : M A :=
  match o with
  | Some a => ret a
  | None => fun _ => Throw (TypeError what)
  end.

(** A target argument: an element, a collection, or null (which the
    library reports as a missing target and treats as no target). *)
Definition element (n : Node) : list Elem := [uid n].
Definition collection (l : list Node) : list Elem := map uid l.
Definition nullable (o : option Node) : list Elem :=
  match o with Some n => [uid n] | None => [] end.

(** *** Values written to the elements *)

Definition sameKey (e : Elem) (p : Property) (k : Elem * Property * Value) : bool :=
  Nat.eqb e (fst (fst k)) && Property_eqb p (snd (fst k)).

Definition getStyle (st : list (Elem * Property * Value)) (e : Elem) (p : Property)
  : option Value :=
  option_map snd (find (sameKey e p) st).

Definition setStyle (st : list (Elem * Property * Value)) (e : Elem) (p : Property)
  (v : Value) : list (Elem * Property * Value) :=
  (e, p, v) :: filter (fun k => negb (sameKey e p k)) st.

(** The value of a property nothing has written: the identity transform,
    full opacity. *)
Definition restValue (p : Property) : Q :=
  match p with p_scale | p_opacity => 1 | _ => 0 end.

Definition numericStyle (st : list (Elem * Property * Value)) (e : Elem) (p : Property) : Q :=
  match getStyle st e p with
  | Some (VNum q) => q
  | _ => restValue p
  end.

Definition writeVars (targets : list Elem) (vs : Vars)
  (st : list (Elem * Property * Value)) : list (Elem * Property * Value) :=
  fold_left (fun acc e => fold_left (fun acc' pv => setStyle acc' e (fst pv) (snd pv)) vs acc)
            targets st.

Definition lookupVar (vs : Vars) (p : Property) : option Value :=
  option_map snd (find (fun pv => Property_eqb p (fst pv)) vs).

(** *** Creating tweens and triggers *)

Definition Math_random (m : JsMath) : M Q :=
  fun s => Ok (random m (randomCalls s),
               {| animations := animations s; observers := observers s;
                  listeners := listeners s; styles := styles s;
                  context := context s; nextId := nextId s;
                  nextCtx := nextCtx s; randomCalls := S (randomCalls s) |}).

Definition withAnimations (s : State) (a : list Tween) (st : list (Elem * Property * Value)) : State :=
  {| animations := a; observers := observers s; listeners := listeners s;
     styles := st; context := context s; nextId := S (nextId s);
     nextCtx := nextCtx s; randomCalls := randomCalls s |}.

Definition withObservers (s : State) (o : list ScrollTrigger) : State :=
  {| animations := animations s; observers := o; listeners := listeners s;
     styles := styles s; context := context s; nextId := S (nextId s);
     nextCtx := nextCtx s; randomCalls := randomCalls s |}.

Definition withListeners (s : State) (l : list Listener) : State :=
  {| animations := animations s; observers := observers s; listeners := l;
     styles := styles s; context := context s; nextId := nextId s;
     nextCtx := nextCtx s; randomCalls := randomCalls s |}.

Definition freshTween (m : JsMath) (id : nat) (ctx : option nat) (targets : list Elem)
  (from : option Vars) (vars : TweenVars) (position : Q) (controlled : bool) : Tween :=
  {| tw_id := id; tw_ctx := ctx; tw_targets := targets;
     tw_from := from; tw_vars := vars;
     tw_offsets := startOffsets m (stagger vars) (List.length targets);
     tw_position := position; tw_time := 0;
     tw_paused := controlled; tw_reversed := false;
     tw_starts := [] |}.

(** A new tween.  The from-vars of a fromTo are rendered at once
    (immediateRender); a tween handed to a scroll trigger waits, paused,
    for the trigger. *)
Definition newTween (m : JsMath) (targets : list Elem) (from : option Vars)
  (vars : TweenVars) (position : Q) (controlled : bool) : M nat :=
  fun s =>
    let tw := freshTween m (nextId s) (context s) targets from vars position controlled in
    let st := match from with
              | Some f => writeVars targets f (styles s)
              | None => styles s
              end in
    Ok (nextId s, withAnimations s (animations s ++ [tw]) st).

Definition freshTrigger (id : nat) (ctx : option nat) (vars : ScrollTriggerVars)
  (animation : option nat) : ScrollTrigger :=
  {| st_id := id; st_ctx := ctx; st_vars := vars; st_animation := animation |}.

(** [ScrollTrigger.create(vars)], also made for a tween's [scrollTrigger]
    entry. *)
Definition newScrollTrigger (vars : ScrollTriggerVars) (animation : option nat) : M nat :=
  fun s =>
    Ok (nextId s,
        withObservers s (observers s ++ [freshTrigger (nextId s) (context s) vars animation])).

Definition ScrollTrigger_create (vars : ScrollTriggerVars) : M unit :=
  bind (newScrollTrigger vars None) (fun _ => ret tt).

Definition to (m : JsMath) (targets : list Elem) (vars : TweenVars) : M unit :=
  bind (newTween m targets None vars 0 false) (fun _ => ret tt).

Definition fromTo (m : JsMath) (targets : list Elem) (from : Vars) (vars : TweenVars)
  (scrollTrigger : option ScrollTriggerVars) : M unit :=
  match scrollTrigger with
  | None => bind (newTween m targets (Some from) vars 0 false) (fun _ => ret tt)
  | Some st =>
      bind (newTween m targets (Some from) vars 0 true) (fun id =>
      bind (newScrollTrigger st (Some id)) (fun _ => ret tt))
  end.

(** [gsap.set(targets, vars)]: a tween of no duration, rendered at once. *)
Definition set (m : JsMath) (targets : list Elem) (vs : Vars) : M unit :=
  bind (newTween m targets (Some vs)
          {| props := vs; duration := 0; delay := 0; ease := power1_out;
             stagger := None; repeat := times 0; yoyo := false; snap := None |}
          0 false) (fun _ => ret tt).

Definition addEventListener (n : Node) (type : string) (handler : list ToCall) : M unit :=
  modify (fun s => withListeners s
            (listeners s ++ [{| l_target := uid n; l_type := type; l_handler := handler |}])).

(** The hero timeline: [tl.fromTo(targets, from, to, position)] places
    the tween at the end of the timeline, or [d] seconds before it for
    the position ["-=d"].  The timeline is carried as its end time. *)
Inductive Position : Type :=
| at_end
| before_end (d : Q).

Definition totalLocal (v : TweenVars) : option Q :=
  match repeat v with
  | times n => Some (duration v * inject_Z (Z.of_nat (S n)))
  | forever => None
  end.

Definition tweenEnd (tw : Tween) : option Q :=
  match totalLocal (tw_vars tw) with
  | Some T => Some (tw_position tw + delay (tw_vars tw) + spread (tw_offsets tw) + T)
  | None => None
  end.

Definition timeline_fromTo (m : JsMath) (tlEnd : Q) (targets : list Elem) (from : Vars)
  (vars : TweenVars) (position : Position) : M Q :=
  let start := match position with
               | at_end => tlEnd
               | before_end d => Qmax 0 (tlEnd - d)
               end in
  bind (newTween m targets (Some from) vars start false) (fun _ =>
  let len := delay vars + spread (startOffsets m (stagger vars) (List.length targets))
             + match totalLocal vars with Some T => T | None => 0 end in
  ret (Qmax tlEnd (start + len))).

(** *** [gsap.context] and [revert] *)

Definition setContext (c : option nat) (bump : bool) (s : State) : State :=
  {| animations := animations s; observers := observers s; listeners := listeners s;
     styles := styles s; context := c; nextId := nextId s;
     nextCtx := if bump then S (nextCtx s) else nextCtx s;
     randomCalls := randomCalls s |}.

(** [gsap.context(fn)]: everything the library creates while [fn] runs is
    recorded under the new context. *)
Definition gsap_context (fn : M unit) : M nat :=
  fun s =>
    let c := nextCtx s in
    match fn (setContext (Some c) true s) with
    | Ok (_, s') => Ok (c, setContext (context s) false s')
    | Throw e => Throw e
    end.

Definition recordedBy (c : nat) (o : option nat) : bool :=
  match o with Some c' => Nat.eqb c c' | None => false end.

Definition touches (tw : Tween) (k : Elem * Property * Value) : bool :=
  existsb (Nat.eqb (fst (fst k))) (tw_targets tw)
  && existsb (fun pv => Property_eqb (snd (fst k)) (fst pv))
       (props (tw_vars tw) ++ match tw_from tw with Some f => f | None => [] end).

(** [ctx.revert()]: the recorded tweens and scroll triggers are killed and
    what they wrote to their targets is cleared.  Listeners were added
    through the DOM, not through the library, and stay. *)
Definition revert (c : nat) (s : State) : State :=
  let gone := filter (fun tw => recordedBy c (tw_ctx tw)) (animations s) in
  {| animations := filter (fun tw => negb (recordedBy c (tw_ctx tw))) (animations s);
     observers := filter (fun t => negb (recordedBy c (st_ctx t))) (observers s);
     listeners := listeners s;
     styles := filter (fun k => negb (existsb (fun tw => touches tw k) gone)) (styles s);
     context := context s; nextId := nextId s; nextCtx := nextCtx s;
     randomCalls := randomCalls s |}.

(** *** Playing *)

Definition localTime (tw : Tween) (offset t : Q) : Q :=
  t - tw_position tw - delay (tw_vars tw) - offset.

(** Progress in [0, 1] of one target at local time [local >= 0], through
    repeats and yoyo. *)
Definition progressAt (v : TweenVars) (local : Q) : Q :=
  if Qeq_bool (duration v) 0 then 1
  else
    let capped := match totalLocal v with Some T => Qmin local T | None => local end in
    let c := capped / duration v in
    let k := Qfloor c in
    let frac := c - inject_Z k in
    let atEnd := Qeq_bool frac 0 && (0 <? k)%Z in
    let iter := if atEnd then (k - 1)%Z else k in
    let p := if atEnd then 1 else frac in
    if yoyo v && Z.odd iter then 1 - p else p.

(** The value written at local time [local] on the way from [s] to
    [target]. *)
Definition interpolate (m : JsMath) (v : TweenVars) (s target local : Q) : Q :=
  s + (target - s) * easeRatio m (ease v) (progressAt v local).

Definition captured (starts : list (Elem * Property * Q)) (e : Elem) (p : Property)
  : option Q :=
  option_map snd
    (find (fun k => Nat.eqb e (fst (fst k)) && Property_eqb p (snd (fst k))) starts).

(** One property of one target: a to() reads its start value from the
    element the first time it renders; number-valued properties are
    interpolated, string-valued ones are left to the library. *)
Definition renderProp (m : JsMath) (tw : Tween) (local : Q) (e : Elem)
  (acc : list (Elem * Property * Q) * list (Elem * Property * Value))
  (pv : Property * Value) : list (Elem * Property * Q) * list (Elem * Property * Value) :=
  match snd pv with
  | VStr _ => acc
  | VNum target =>
      let p := fst pv in
      let known :=
        match match tw_from tw with Some f => lookupVar f p | None => None end with
        | Some (VNum q) => Some q
        | _ => captured (fst acc) e p
        end in
      let s := match known with Some q => q | None => numericStyle (snd acc) e p end in
      let starts := match known with Some _ => fst acc | None => (e, p, s) :: fst acc end in
      (starts,
       setStyle (snd acc) e p
         (VNum (interpolate m (tw_vars tw) s target local)))
  end.

Definition Qpos (q : Q) : bool := negb (Qle_bool q 0).

(** Whether a target renders when the playhead goes from [t0] to [t1]:
    not while it stays before its start, nor while it stays at its end. *)
Definition renders (tw : Tween) (offset t0 t1 : Q) : bool :=
  let l0 := localTime tw offset t0 in
  let l1 := localTime tw offset t1 in
  (Qpos l0 || Qpos l1)
  && negb match totalLocal (tw_vars tw) with
          | Some T => Qle_bool T l0 && Qle_bool T l1
          | None => false
          end.

Definition renderTarget (m : JsMath) (tw : Tween) (t0 t1 : Q)
  (acc : list (Elem * Property * Q) * list (Elem * Property * Value))
  (eo : Elem * Q) : list (Elem * Property * Q) * list (Elem * Property * Value) :=
  if renders tw (snd eo) t0 t1
  then fold_left (renderProp m tw (Qmax 0 (localTime tw (snd eo) t1)) (fst eo))
                 (props (tw_vars tw)) acc
  else acc.

Definition advance (dt : Q) (tw : Tween) : Q :=
  if tw_paused tw then tw_time tw
  else if tw_reversed tw then Qmax 0 (tw_time tw - dt)
  else match tweenEnd tw with
       | Some E => Qmin E (tw_time tw + dt)
       | None => tw_time tw + dt
       end.

Definition withPlayhead (tw : Tween) (t : Q) (starts : list (Elem * Property * Q)) : Tween :=
  {| tw_id := tw_id tw; tw_ctx := tw_ctx tw; tw_targets := tw_targets tw;
     tw_from := tw_from tw; tw_vars := tw_vars tw; tw_offsets := tw_offsets tw;
     tw_position := tw_position tw; tw_time := t; tw_paused := tw_paused tw;
     tw_reversed := tw_reversed tw; tw_starts := starts |}.

Definition stepTween (m : JsMath) (dt : Q)
  (acc : list Tween * list (Elem * Property * Value)) (tw : Tween)
  : list Tween * list (Elem * Property * Value) :=
  if tw_paused tw then (fst acc ++ [tw], snd acc)
  else
    let t1 := advance dt tw in
    let r := fold_left (renderTarget m tw (tw_time tw) t1)
                       (combine (tw_targets tw) (tw_offsets tw))
                       (tw_starts tw, snd acc) in
    (fst acc ++ [withPlayhead tw t1 (fst r)], snd r).

Definition finished (tw : Tween) : bool :=
  negb (tw_reversed tw)
  && match tweenEnd tw with
     | Some E => Qle_bool E (tw_time tw)
     | None => false
     end.

Definition held (tw : Tween) : bool :=
  match tw_ctx tw with Some _ => true | None => false end.

(** One frame, [dt] seconds later: the tweens that are not paused render
    in the order they were created, each writing its own values; a
    finished tween that no context holds leaves the root timeline. *)
Definition tick (m : JsMath) (dt : Q) (s : State) : State :=
  let r := fold_left (stepTween m dt) (animations s) ([], styles s) in
  {| animations := filter (fun tw => held tw || negb (finished tw)) (fst r);
     observers := observers s; listeners := listeners s; styles := snd r;
     context := context s; nextId := nextId s; nextCtx := nextCtx s;
     randomCalls := randomCalls s |}.

(** *** Events *)

(** The listeners of [type] on the element run in the order they were
    added; each handler makes its [gsap.to] calls. *)
Definition runCalls (m : JsMath) (calls : list ToCall) : M unit :=
  forEach calls (fun c _ => to m (call_targets c) (call_vars c)) 0.

Definition dispatchEvent (m : JsMath) (e : Elem) (type : string) : M unit :=
  fun s =>
    forEach (filter (fun l => Nat.eqb e (l_target l) && String.eqb type (l_type l))
                    (listeners s))
            (fun l _ => runCalls m (l_handler l)) 0 s.

(** A scroll trigger reports four crossings of its range. *)
Inductive ScrollEvent : Type := Enter | Leave | EnterBack | LeaveBack.

Inductive Action : Type :=
| a_play | a_pause | a_resume | a_reset | a_restart | a_complete | a_reverse | a_none.

Definition parseAction (s : string) : Action :=
  if String.eqb s "play" then a_play
  else if String.eqb s "pause" then a_pause
  else if String.eqb s "resume" then a_resume
  else if String.eqb s "reset" then a_reset
  else if String.eqb s "restart" then a_restart
  else if String.eqb s "complete" then a_complete
  else if String.eqb s "reverse" then a_reverse
  else a_none.

(** Split at spaces. *)
Fixpoint words (s : string) (cur : string) : list string :=
  match s with
  | EmptyString => [cur]
  | String c rest =>
      if Ascii.eqb c " "%char then cur :: words rest ""
      else words rest (cur ++ String c "")%string
  end.

(** [toggleActions] names the action for onEnter, onLeave, onEnterBack
    and onLeaveBack, in that order; the default is "play none none none". *)
Definition actionFor (v : ScrollTriggerVars) (ev : ScrollEvent) : Action :=
  let ws := words (match toggleActions v with
                   | Some s => s
                   | None => "play none none none"
                   end) "" in
  parseAction (nth (match ev with Enter => 0 | Leave => 1 | EnterBack => 2 | LeaveBack => 3 end)
                   ws "none").

Definition withControl (tw : Tween) (t : Q) (paused reversed : bool) : Tween :=
  {| tw_id := tw_id tw; tw_ctx := tw_ctx tw; tw_targets := tw_targets tw;
     tw_from := tw_from tw; tw_vars := tw_vars tw; tw_offsets := tw_offsets tw;
     tw_position := tw_position tw; tw_time := t; tw_paused := paused;
     tw_reversed := reversed; tw_starts := tw_starts tw |}.

Definition applyAction (a : Action) (tw : Tween) : Tween :=
  match a with
  | a_play => withControl tw (tw_time tw) false false
  | a_pause => withControl tw (tw_time tw) true (tw_reversed tw)
  | a_resume => withControl tw (tw_time tw) false (tw_reversed tw)
  | a_reset => withControl tw 0 true false
  | a_restart => withControl tw 0 false false
  | a_complete =>
      withControl tw (match tweenEnd tw with Some E => E | None => tw_time tw end)
                  false false
  | a_reverse => withControl tw (tw_time tw) false true
  | a_none => tw
  end.

Definition controlAnimation (a : Action) (animation : option nat) (s : State) : State :=
  {| animations := map (fun tw => if recordedBy (tw_id tw) animation
                                  then applyAction a tw else tw) (animations s);
     observers := observers s; listeners := listeners s; styles := styles s;
     context := context s; nextId := nextId s; nextCtx := nextCtx s;
     randomCalls := randomCalls s |}.

(** The trigger [id] reports [ev]: its toggle action is applied to the
    tween it controls, and on Enter its [onEnter] callback runs, inside
    the context that recorded the trigger.  A trigger that is gone
    reports nothing. *)
Definition scrollEvent (m : JsMath) (id : nat) (ev : ScrollEvent) : M unit :=
  fun s =>
    match find (fun t => Nat.eqb id (st_id t)) (observers s) with
    | None => Ok (tt, s)
    | Some t =>
        let s1 := match st_animation t with
                  | Some _ => controlAnimation (actionFor (st_vars t) ev) (st_animation t) s
                  | None => s
                  end in
        match ev, onEnter (st_vars t) with
        | Enter, Some calls =>
            match runCalls m calls (setContext (st_ctx t) false s1) with
            | Ok (_, s2) => Ok (tt, setContext (context s1) false s2)
            | Throw e => Throw e
            end
        | _, _ => Ok (tt, s1)
        end
    end.

(** *** Writing vars objects *)

Definition num (p : Property) (q : Q) : Property * Value := (p, VNum q).
Definition str (p : Property) (s : string) : Property * Value := (p, VStr s).

Definition vars (ps : Vars) (d : Q) (e : Ease) : TweenVars :=
  {| props := ps; duration := d; delay := 0; ease := e; stagger := None;
     repeat := times 0; yoyo := false; snap := None |}.

Definition withDelay (d : Q) (v : TweenVars) : TweenVars :=
  {| props := props v; duration := duration v; delay := d; ease := ease v;
     stagger := stagger v; repeat := repeat v; yoyo := yoyo v; snap := snap v |}.

Definition withStagger (s : Stagger) (v : TweenVars) : TweenVars :=
  {| props := props v; duration := duration v; delay := delay v; ease := ease v;
     stagger := Some s; repeat := repeat v; yoyo := yoyo v; snap := snap v |}.

Definition withRepeat (r : Repeat) (y : bool) (v : TweenVars) : TweenVars :=
  {| props := props v; duration := duration v; delay := delay v; ease := ease v;
     stagger := stagger v; repeat := r; yoyo := y; snap := snap v |}.

Definition withSnap (p : Property) (step : Q) (v : TweenVars) : TweenVars :=
  {| props := props v; duration := duration v; delay := delay v; ease := ease v;
     stagger := stagger v; repeat := repeat v; yoyo := yoyo v; snap := Some (p, step) |}.

Definition scrollTriggerVars (t : list Elem) (start : string) (end_ : option string)
  (toggleActions : string) : ScrollTriggerVars :=
  {| trigger := t; start := start; end_ := end_;
     toggleActions := Some toggleActions; onEnter := None |}.


End Gsap.

(* ================================================================== *)
(** ** The page: the effect of [Portfolio] *)

Module Page.
Import Dom Gsap.

#[local] Open Scope Q_scope.
#[local] Open Scope js_scope.

(** What the refs point to once the component has rendered, and the
    document. *)
Record Refs : Type := {
  heroRef : option Node;
  titleRef : option Node;
  subtitleRef : option Node;
  buttonsRef : option Node;
  servicesRef : option Node;
  projectsRef : option Node;
  techRef : option Node;
  aboutRef : option Node;
  contactRef : option Node;
  document : Node
}.

Definition isSome {A : Type} (o : option A) : bool :=
  match o with Some _ => true | None => false end.

Definition ofIndex (index : nat) : Q := inject_Z (Z.of_nat index).

(** **** Hero section *)

Definition heroTitle (m : JsMath) (r : Refs) : M Q :=
  if isSome (titleRef r) then
    (title <- deref (titleRef r) "titleRef.current" ;;
     set m (element title) [num p_opacity 1] ;;
     timeline_fromTo m 0 (element title)
       [num p_opacity 0; num p_y 100; num p_scale 0.8]
       (vars [num p_opacity 1; num p_y 0; num p_scale 1] 1.2 power3_out)
       at_end)
  else ret 0.

Definition heroSubtitle (m : JsMath) (r : Refs) (tl : Q) : M Q :=
  if isSome (subtitleRef r) then
    (subtitle <- deref (subtitleRef r) "subtitleRef.current" ;;
     timeline_fromTo m tl (element subtitle)
       [num p_opacity 0; num p_y 50]
       (vars [num p_opacity 1; num p_y 0] 0.8 power2_out)
       (before_end 0.6))
  else ret tl.

Definition heroButtonsVars : TweenVars :=
  withStagger (stagger_each 0.2)
    (vars [num p_opacity 1; num p_y 0; num p_scale 1] 0.6 (back_out 1.7)).

Definition heroButtons (m : JsMath) (r : Refs) (tl : Q) : M Q :=
  if isSome (buttonsRef r) then
    (buttons <- deref (buttonsRef r) "buttonsRef.current" ;;
     timeline_fromTo m tl (collection (children buttons))
       [num p_opacity 0; num p_y 30; num p_scale 0.9]
       heroButtonsVars
       (before_end 0.4))
  else ret tl.

(** **** Services section *)

Definition serviceCardsVars : TweenVars :=
  withStagger (stagger_each 0.2)
    (vars [num p_opacity 1; num p_y 0; num p_rotationX 0] 1 power3_out).

Definition servicesSection (m : JsMath) (r : Refs) : M unit :=
  if isSome (servicesRef r) then
    (services <- deref (servicesRef r) "servicesRef.current" ;;
     serviceCards <- lift (querySelectorAll services ".service-card") ;;
     fromTo m (collection serviceCards)
       [num p_opacity 0; num p_y 80; num p_rotationX 45; num p_transformPerspective 1000]
       serviceCardsVars
       (Some (scrollTriggerVars (element services) "top 80%" (Some "bottom 20%")
                "play none none reverse")))
  else ret tt.

(** **** Projects section *)

Definition projectCardFrom (index : nat) : Vars :=
  [num p_opacity 0;
   num p_x (if Nat.eqb (index mod 2) 0 then -100 else 100);
   num p_rotation (if Nat.eqb (index mod 2) 0 then -5 else 5)].

Definition projectCardTo : TweenVars :=
  vars [num p_opacity 1; num p_x 0; num p_rotation 0] 1 power3_out.

Definition projectsSection (m : JsMath) (r : Refs) : M unit :=
  if isSome (projectsRef r) then
    (projects <- deref (projectsRef r) "projectsRef.current" ;;
     projectCards <- lift (querySelectorAll projects ".project-card") ;;
     forEach projectCards (fun card index =>
       fromTo m (element card) (projectCardFrom index) projectCardTo
         (Some (scrollTriggerVars (element card) "top 85%" None
                  "play none none reverse"))) 0)
  else ret tt.
(** **** Technologies section *)

Definition badgeEntrance : TweenVars :=
  withStagger (stagger_amount 1.2 from_random None (Some power2_out))
    (vars [num p_opacity 1; num p_y 0; num p_scale 1] 0.6 (back_out 1.7)).

Definition badgeBreathing (index : nat) (rnd : Q) : TweenVars :=
  withDelay (ofIndex index * 0.1)
    (withRepeat forever true (vars [num p_scale 1.02] (2 + rnd * 1) sine_inOut)).

Definition badgeEnter (badge : Node) : list ToCall :=
  [{| call_targets := element badge;
      call_vars := vars [num p_scale 1.1; num p_y (-8);
                         str p_boxShadow "0 10px 25px rgba(0, 255, 255, 0.3)"]
                        0.3 power2_out |}].

Definition badgeLeave (badge : Node) : list ToCall :=
  [{| call_targets := element badge;
      call_vars := vars [num p_scale 1; num p_y 0;
                         str p_boxShadow "0 0 0 rgba(0, 255, 255, 0)"]
                        0.3 power2_out |}].

Definition badgeWaveVars : TweenVars :=
  withRepeat (times 1) true
    (withStagger (stagger_amount 0.8 from_start None None)
       (vars [num p_y (-5)] 0.4 power2_out)).

Definition badgeWave (techBadges : list Node) : list ToCall :=
  [{| call_targets := collection techBadges; call_vars := badgeWaveVars |}].

Definition counter (finalValue : string) (d dl : Q) : TweenVars :=
  withSnap p_textContent 1
    (withDelay dl (vars [str p_textContent finalValue] d power2_out)).

Definition techSection (m : JsMath) (r : Refs) : M unit :=
  if isSome (techRef r) then
    (tech <- deref (techRef r) "techRef.current" ;;
     techBadges <- lift (querySelectorAll tech ".tech-badge") ;;
     fromTo m (collection techBadges)
       [num p_opacity 0; num p_y 30; num p_scale 0.8]
       badgeEntrance
       (Some (scrollTriggerVars (element tech) "top 75%" None "play none none reverse")) ;;
     forEach techBadges (fun badge index =>
       rnd <- Math_random m ;;
       to m (element badge) (badgeBreathing index rnd) ;;
       addEventListener badge "mouseenter" (badgeEnter badge) ;;
       addEventListener badge "mouseleave" (badgeLeave badge)) 0 ;;
     ScrollTrigger_create
       {| trigger := element tech; start := "top 60%"; end_ := None;
          toggleActions := None; onEnter := Some (badgeWave techBadges) |} ;;
     techStats <- lift (querySelectorAll tech ".tech-stat") ;;
     forEach techStats (fun stat index =>
       number <- lift (querySelector stat "div:first-child") ;;
       fromTo m (element stat)
         [num p_opacity 0; num p_y 20]
         (withDelay (ofIndex index * 0.2 + 0.5)
            (vars [num p_opacity 1; num p_y 0] 0.6 power2_out))
         (Some (scrollTriggerVars (element stat) "top 85%" None "play none none reverse")) ;;
       if isSome number then
         (number' <- deref number "number" ;;
          let finalValue := textContent number' in
          fromTo m (element number')
            [str p_textContent "0"]
            (counter finalValue 1.5 (ofIndex index * 0.2 + 0.8))
            (Some (scrollTriggerVars (element stat) "top 85%" None
                     "play none none reverse")))
       else ret tt) 0)
  else ret tt.

(** **** About section *)

Definition iconEnter (icon : Node) : list ToCall :=
  [{| call_targets := element icon;
      call_vars := vars [num p_scale 1.1; num p_y (-5)] 0.3 power2_out |}].

Definition iconLeave (icon : Node) : list ToCall :=
  [{| call_targets := element icon;
      call_vars := vars [num p_scale 1; num p_y 0] 0.3 power2_out |}].

Definition iconEntrance : TweenVars :=
  withStagger (stagger_amount 1 from_center (Some (3%nat, 2%nat)) None)
    (vars [num p_opacity 1; num p_scale 1; num p_y 0] 0.8 (back_out 1.7)).

Definition aboutSection (m : JsMath) (r : Refs) : M unit :=
  if isSome (aboutRef r) then
    (about <- deref (aboutRef r) "aboutRef.current" ;;
     iconGrid <- lift (querySelector about ".icon-grid") ;;
     icons <- lift (querySelectorAll about ".tech-icon") ;;
     stats <- lift (querySelectorAll about ".stat-item") ;;
     fromTo m (collection icons)
       [num p_opacity 0; num p_scale 0.5; num p_y 30]
       iconEntrance
       (Some (scrollTriggerVars (element about) "top 70%" None "play none none reverse")) ;;
     forEach icons (fun icon index =>
       addEventListener icon "mouseenter" (iconEnter icon) ;;
       addEventListener icon "mouseleave" (iconLeave icon)) 0 ;;
     forEach stats (fun stat index =>
       number <- lift (querySelector stat ".stat-number") ;;
       label <- lift (querySelector stat ".stat-label") ;;
       fromTo m (element stat)
         [num p_opacity 0; num p_y 30]
         (withDelay (ofIndex index * 0.2)
            (vars [num p_opacity 1; num p_y 0] 0.8 power2_out))
         (Some (scrollTriggerVars (element stat) "top 85%" None "play none none reverse")) ;;
       if isSome number then
         (number' <- deref number "number" ;;
          let finalValue := textContent number' in
          fromTo m (element number')
            [str p_textContent "0"]
            (counter finalValue 2 (ofIndex index * 0.2 + 0.5))
            (Some (scrollTriggerVars (element stat) "top 85%" None
                     "play none none reverse")))
       else ret tt) 0)
  else ret tt.

(** **** Contact section *)

Definition socialRotation (m : JsMath) (index : nat) (rnd : Q) : TweenVars :=
  withDelay (ofIndex index * 0.2)
    (withRepeat forever true
       (vars [num p_rotationY (sin m (ofIndex index) * 5);
              num p_rotationX (cos m (ofIndex index) * 3)]
             (3 + rnd) sine_inOut)).

Definition socialEnter (btn : Node) : list ToCall :=
  [{| call_targets := element btn;
      call_vars := vars [num p_scale 1.2; num p_rotationY 180; num p_rotationX 10;
                         num p_z 20] 0.6 (back_out 1.7) |}].

Definition socialLeave (btn : Node) : list ToCall :=
  [{| call_targets := element btn;
      call_vars := vars [num p_scale 1; num p_rotationY 0; num p_rotationX 0;
                         num p_z 0] 0.4 power2_out |}].

Definition inputFocus (input : Node) : list ToCall :=
  [{| call_targets := element input;
      call_vars := vars [num p_scale 1.02; num p_rotationX (-2); num p_z 5]
                        0.3 power2_out |}].

Definition inputBlur (input : Node) : list ToCall :=
  [{| call_targets := element input;
      call_vars := vars [num p_scale 1; num p_rotationX 0; num p_z 0]
                        0.3 power2_out |}].

Definition contactItemsVars : TweenVars :=
  withStagger (stagger_each 0.2)
    (vars [num p_opacity 1; num p_rotationX 0; num p_y 0] 0.8 (back_out 1.7)).

Definition formInputsVars : TweenVars :=
  withStagger (stagger_each 0.1)
    (vars [num p_opacity 1; num p_rotationX 0; num p_y 0] 0.6 power2_out).

Definition contactSection (m : JsMath) (r : Refs) : M unit :=
  if isSome (contactRef r) then
    (contact <- deref (contactRef r) "contactRef.current" ;;
     contactInfo <- lift (querySelector contact ".contact-info") ;;
     contactForm <- lift (querySelector contact ".contact-form") ;;
     contactItems <- lift (querySelectorAll contact ".contact-item") ;;
     formInputs <- lift (querySelectorAll contact ".form-input") ;;
     socialButtons <- lift (querySelectorAll contact ".social-btn") ;;
     fromTo m (nullable contactInfo)
       [num p_opacity 0; num p_rotationY (-90); num p_x (-100);
        num p_transformPerspective 1000]
       (vars [num p_opacity 1; num p_rotationY 0; num p_x 0] 1.2 power3_out)
       (Some (scrollTriggerVars (element contact) "top 75%" None "play none none reverse")) ;;
     fromTo m (nullable contactForm)
       [num p_opacity 0; num p_rotationY 90; num p_x 100;
        num p_transformPerspective 1000]
       (vars [num p_opacity 1; num p_rotationY 0; num p_x 0] 1.2 power3_out)
       (Some (scrollTriggerVars (element contact) "top 75%" None "play none none reverse")) ;;
     fromTo m (collection contactItems)
       [num p_opacity 0; num p_rotationX 45; num p_y 30;
        num p_transformPerspective 1000]
       contactItemsVars
       (Some (scrollTriggerVars (nullable contactInfo) "top 80%" None
                "play none none reverse")) ;;
     fromTo m (collection formInputs)
       [num p_opacity 0; num p_rotationX 90; num p_y 20;
        num p_transformPerspective 1000]
       formInputsVars
       (Some (scrollTriggerVars (nullable contactForm) "top 80%" None
                "play none none reverse")) ;;
     forEach socialButtons (fun btn index =>
       set m (element btn)
         [num p_transformPerspective 1000; str p_transformStyle "preserve-3d"] ;;
       rnd <- Math_random m ;;
       to m (element btn) (socialRotation m index rnd) ;;
       addEventListener btn "mouseenter" (socialEnter btn) ;;
       addEventListener btn "mouseleave" (socialLeave btn)) 0 ;;
     forEach formInputs (fun input _ =>
       addEventListener input "focus" (inputFocus input) ;;
       addEventListener input "blur" (inputBlur input)) 0)
  else ret tt.

(** **** Hover animations of the service cards *)

Definition cardEnter (card : Node) (icon : option Node) : list ToCall :=
  [{| call_targets := element card;
      call_vars := vars [num p_scale 1.05; num p_y (-10); num p_rotationY 5]
                        0.3 power2_out |};
   {| call_targets := nullable icon;
      call_vars := vars [num p_rotation 360; num p_scale 1.2] 0.6 (back_out 1.7) |}].

Definition cardLeave (card : Node) (icon : option Node) : list ToCall :=
  [{| call_targets := element card;
      call_vars := vars [num p_scale 1; num p_y 0; num p_rotationY 0]
                        0.3 power2_out |};
   {| call_targets := nullable icon;
      call_vars := vars [num p_rotation 0; num p_scale 1] 0.4 power2_out |}].

Definition serviceHover (r : Refs) : M unit :=
  serviceCards <- lift (querySelectorAll (document r) ".service-card") ;;
  forEach serviceCards (fun card _ =>
    icon <- lift (querySelector card ".service-icon") ;;
    addEventListener card "mouseenter" (cardEnter card icon) ;;
    addEventListener card "mouseleave" (cardLeave card icon)) 0.

(** **** The effect *)

(** The function passed to [gsap.context]. *)
Definition initialize (m : JsMath) (r : Refs) : M unit :=
  tl <- heroTitle m r ;;
  tl <- heroSubtitle m r tl ;;
  tl <- heroButtons m r tl ;;
  servicesSection m r ;;
  projectsSection m r ;;
  techSection m r ;;
  aboutSection m r ;;
  contactSection m r ;;
  serviceHover r.

(** [const ctx = gsap.context(() => {...}, heroRef)]: the effect body;
    the effect has no dependencies, so it runs once at mount. *)
Definition mount (m : JsMath) (r : Refs) : M nat :=
  gsap_context (initialize m r).

(** [return () => ctx.revert()]: the clean-up of the effect. *)
Definition unmount (ctx : nat) : M unit :=
  modify (revert ctx).


(** **** What happens to the mounted page

    After the effect has run, frames pass, the pointer and the focus
    move, and the page scrolls across the ranges of the triggers. *)

Inductive Step : Type :=
| Tick (dt : Q)
| Event (e : Elem) (type : string)
| Scroll (trigger : nat) (ev : ScrollEvent).

Definition step (m : JsMath) (st : Step) (s : State) : Result State :=
  match st with
  | Tick dt => Ok (tick m dt s)
  | Event e type =>
      match dispatchEvent m e type s with
      | Ok (_, s') => Ok s'
      | Throw e => Throw e
      end
  | Scroll id ev =>
      match scrollEvent m id ev s with
      | Ok (_, s') => Ok s'
      | Throw e => Throw e
      end
  end.

Fixpoint run (m : JsMath) (steps : list Step) (s : State) : Result State :=
  match steps with
  | [] => Ok s
  | st :: rest =>
      match step m st s with
      | Ok s' => run m rest s'
      | Throw e => Throw e
      end
  end.

End Page.

(* ================================================================== *)
(** ** The markup the component renders

    The tree of [Portfolio], with the class lists cut down to the names
    the effect selects on.  Handles are numbered in document order. *)

Module Markup.
Import Dom Page.

Definition titleNode : Node :=
  Element 5 "h1" [] "Secure. Build. "
    [Element 6 "span" [] "Innovate." []].

Definition subtitleNode : Node :=
  Element 7 "p" [] "" [].

Definition buttonsNode : Node :=
  Element 8 "div" [] ""
    [Element 9 "button" [] "Get Started" [];
     Element 10 "button" [] "View Portfolio" []].

Definition servicesNode : Node :=
  Element 11 "section" [] ""
    [Element 12 "div" [] ""
       [Element 13 "div" [] ""
          [Element 14 "h2" [] "" [];
           Element 15 "p" [] "" []];
        Element 16 "div" [] ""
          [Element 17 "div" ["service-card"] ""
             [Element 18 "div" [] ""
                [Element 19 "div" ["service-icon"] "" [];
                 Element 20 "h3" [] "Cybersecurity" [];
                 Element 21 "p" [] "" []];
              Element 22 "div" [] ""
                [Element 23 "ul" [] "" []]];
           Element 24 "div" ["service-card"] ""
             [Element 25 "div" [] ""
                [Element 26 "div" ["service-icon"] "" [];
                 Element 27 "h3" [] "Web Development" [];
                 Element 28 "p" [] "" []];
              Element 29 "div" [] ""
                [Element 30 "ul" [] "" []]];
           Element 31 "div" ["service-card"] ""
             [Element 32 "div" [] ""
                [Element 33 "div" ["service-icon"] "" [];
                 Element 34 "h3" [] "Mobile Development" [];
                 Element 35 "p" [] "" []];
              Element 36 "div" [] ""
                [Element 37 "ul" [] "" []]]]]].

Definition projectsNode : Node :=
  Element 38 "section" [] ""
    [Element 39 "div" [] ""
       [Element 40 "div" [] ""
          [Element 41 "h2" [] "" [];
           Element 42 "p" [] "" []];
        Element 43 "div" [] ""
          [Element 44 "div" ["project-card"] ""
             [Element 45 "div" [] ""
                [Element 46 "img" [] "" [];
                 Element 47 "div" [] "" []];
              Element 48 "div" [] ""
                [Element 49 "h3" [] "Log Analysis System" [];
                 Element 50 "p" [] "" []];
              Element 51 "div" [] ""
                [Element 52 "div" [] "" []]];
           Element 53 "div" ["project-card"] ""
             [Element 54 "div" [] ""
                [Element 55 "img" [] "" [];
                 Element 56 "div" [] "" []];
              Element 57 "div" [] ""
                [Element 58 "h3" [] "EcoCommerce Platform" [];
                 Element 59 "p" [] "" []];
              Element 60 "div" [] ""
                [Element 61 "div" [] "" []]];
           Element 62 "div" ["project-card"] ""
             [Element 63 "div" [] ""
                [Element 64 "img" [] "" [];
                 Element 65 "div" [] "" []];
              Element 66 "div" [] ""
                [Element 67 "h3" [] "PFE PFA Book" [];
                 Element 68 "p" [] "" []];
              Element 69 "div" [] ""
                [Element 70 "div" [] "" []]]]]].

Definition techNode : Node :=
  Element 71 "section" [] ""
    [Element 72 "div" [] ""
       [Element 73 "div" [] ""
          [Element 74 "h2" [] "" [];
           Element 75 "p" [] "" []];
        Element 76 "div" [] ""
          [Element 77 "div" [] ""
             [Element 78 "div" ["tech-badge"] ""
                [Element 79 "div" [] "" [];
                 Element 80 "div" [] ""
                   [Element 81 "div" [] "" []];
                 Element 82 "div" [] "Angular" [];
                 Element 83 "div" [] "" []];
              Element 84 "div" ["tech-badge"] ""
                [Element 85 "div" [] "" [];
                 Element 86 "div" [] ""
                   [Element 87 "div" [] "" []];
                 Element 88 "div" [] "Next.js" [];
                 Element 89 "div" [] "" []];
              Element 90 "div" ["tech-badge"] ""
                [Element 91 "div" [] "" [];
                 Element 92 "div" [] ""
                   [Element 93 "div" [] "" []];
                 Element 94 "div" [] "FastAPI" [];
                 Element 95 "div" [] "" []];
              Element 96 "div" ["tech-badge"] ""
                [Element 97 "div" [] "" [];
                 Element 98 "div" [] ""
                   [Element 99 "div" [] "" []];
                 Element 100 "div" [] "Spring Boot" [];
                 Element 101 "div" [] "" []];
              Element 102 "div" ["tech-badge"] ""
                [Element 103 "div" [] "" [];
                 Element 104 "div" [] ""
                   [Element 105 "div" [] "" []];
                 Element 106 "div" [] "Node.js" [];
                 Element 107 "div" [] "" []];
              Element 108 "div" ["tech-badge"] ""
                [Element 109 "div" [] "" [];
                 Element 110 "div" [] ""
                   [Element 111 "div" [] "" []];
                 Element 112 "div" [] "TypeScript" [];
                 Element 113 "div" [] "" []];
              Element 114 "div" ["tech-badge"] ""
                [Element 115 "div" [] "" [];
                 Element 116 "div" [] ""
                   [Element 117 "div" [] "" []];
                 Element 118 "div" [] "Python" [];
                 Element 119 "div" [] "" []];
              Element 120 "div" ["tech-badge"] ""
                [Element 121 "div" [] "" [];
                 Element 122 "div" [] ""
                   [Element 123 "div" [] "" []];
                 Element 124 "div" [] "PostgreSQL" [];
                 Element 125 "div" [] "" []];
              Element 126 "div" ["tech-badge"] ""
                [Element 127 "div" [] "" [];
                 Element 128 "div" [] ""
                   [Element 129 "div" [] "" []];
                 Element 130 "div" [] "Kotlin" [];
                 Element 131 "div" [] "" []];
              Element 132 "div" ["tech-badge"] ""
                [Element 133 "div" [] "" [];
                 Element 134 "div" [] ""
                   [Element 135 "div" [] "" []];
                 Element 136 "div" [] "Flutter" [];
                 Element 137 "div" [] "" []];
              Element 138 "div" ["tech-badge"] ""
                [Element 139 "div" [] "" [];
                 Element 140 "div" [] ""
                   [Element 141 "div" [] "" []];
                 Element 142 "div" [] "Docker" [];
                 Element 143 "div" [] "" []];
              Element 144 "div" ["tech-badge"] ""
                [Element 145 "div" [] "" [];
                 Element 146 "div" [] ""
                   [Element 147 "div" [] "" []];
                 Element 148 "div" [] "CI/CD" [];
                 Element 149 "div" [] "" []]];
           Element 150 "div" [] ""
             [Element 151 "div" ["tech-stat"] ""
                [Element 152 "div" [] "12+" [];
                 Element 153 "div" [] "Technologies" []];
              Element 154 "div" ["tech-stat"] ""
                [Element 155 "div" [] "5+" [];
                 Element 156 "div" [] "Years Experience" []];
              Element 157 "div" ["tech-stat"] ""
                [Element 158 "div" [] "100%" [];
                 Element 159 "div" [] "Up to Date" []]]]]].

Definition aboutNode : Node :=
  Element 160 "section" [] ""
    [Element 161 "div" [] ""
       [Element 162 "div" [] ""
          [Element 163 "div" [] ""
             [Element 164 "h2" [] "" [];
              Element 165 "p" [] "" [];
              Element 166 "p" [] "" [];
              Element 167 "div" [] ""
                [Element 168 "div" ["stat-item"] ""
                   [Element 169 "div" ["stat-number"] "50+" [];
                    Element 170 "div" ["stat-label"] "Projects Completed" []];
                 Element 171 "div" ["stat-item"] ""
                   [Element 172 "div" ["stat-number"] "5+" [];
                    Element 173 "div" ["stat-label"] "Years Experience" []];
                 Element 174 "div" ["stat-item"] ""
                   [Element 175 "div" ["stat-number"] "100%" [];
                    Element 176 "div" ["stat-label"] "Client Satisfaction" []]]];
           Element 177 "div" [] ""
             [Element 178 "div" ["icon-grid"] ""
                [Element 179 "div" [] ""
                   [Element 180 "div" ["tech-icon"] "" [];
                    Element 181 "div" ["tech-icon"] "" [];
                    Element 182 "div" ["tech-icon"] "" [];
                    Element 183 "div" ["tech-icon"] "" [];
                    Element 184 "div" ["tech-icon"] "" [];
                    Element 185 "div" ["tech-icon"] "" []]]]]]].

Definition contactNode : Node :=
  Element 186 "section" [] ""
    [Element 187 "div" [] ""
       [Element 188 "div" [] ""
          [Element 189 "h2" [] "" [];
           Element 190 "p" [] "" []];
        Element 191 "div" [] ""
          [Element 192 "div" ["contact-info"] ""
             [Element 193 "h3" [] "" [];
              Element 194 "div" [] ""
                [Element 195 "div" ["contact-item"] ""
                   [Element 196 "div" [] "" [];
                    Element 197 "div" [] ""
                      [Element 198 "div" [] "Email" [];
                       Element 199 "div" [] "hello@softhub.com" []]];
                 Element 200 "div" ["contact-item"] ""
                   [Element 201 "div" [] "" [];
                    Element 202 "div" [] ""
                      [Element 203 "div" [] "Phone" [];
                       Element 204 "div" [] "+216 27 553 981" []]];
                 Element 205 "div" ["contact-item"] ""
                   [Element 206 "div" [] "" [];
                    Element 207 "div" [] ""
                      [Element 208 "div" [] "Location" [];
                       Element 209 "div" [] "Monastir, Tunisia" []]]];
              Element 210 "div" [] ""
                [Element 211%nat "button" ["social-btn"] "" [];
                 Element 212 "button" ["social-btn"] "" [];
                 Element 213 "button" ["social-btn"] "" []]];
           Element 214 "div" ["contact-form"] ""
             [Element 215 "div" [] ""
                [Element 216 "h3" [] "" []];
              Element 217 "div" [] ""
                [Element 218 "div" [] ""
                   [Element 219 "div" [] ""
                      [Element 220 "label" [] "" [];
                       Element 221 "input" ["form-input"] "" []];
                    Element 222 "div" [] ""
                      [Element 223 "label" [] "" [];
                       Element 224 "input" ["form-input"] "" []]];
                 Element 225 "div" [] ""
                   [Element 226 "label" [] "" [];
                    Element 227 "input" ["form-input"] "" []];
                 Element 228 "div" [] ""
                   [Element 229 "label" [] "" [];
                    Element 230 "textarea" ["form-input"] "" []];
                 Element 231 "button" [] "Send Message" []]]]]].

Definition pageDocument : Node :=
  Element 0 "div" [] ""
    [Element 1 "nav" [] "" [];
     Element 2 "section" [] ""
       [Element 3 "div" [] ""
          [Element 4 "div" [] ""
             [titleNode;
              subtitleNode;
              buttonsNode]]];
     servicesNode;
     projectsNode;
     techNode;
     aboutNode;
     contactNode;
     Element 232 "footer" [] "" []].

Definition pageRefs : Refs :=
  {| heroRef := Some pageDocument;
     titleRef := Some titleNode;
     subtitleRef := Some subtitleNode;
     buttonsRef := Some buttonsNode;
     servicesRef := Some servicesNode;
     projectsRef := Some projectsNode;
     techRef := Some techNode;
     aboutRef := Some aboutNode;
     contactRef := Some contactNode;
     document := pageDocument |}.

End Markup.

(* ================================================================== *)
(** ** The components of the page and what [Portfolio] returns

    The presentational components [CustomButton], [CustomCard], ...,
    [CustomBadge] build a class attribute and return one host element;
    [Portfolio] returns the tree of the page, mapping over its three
    content arrays.  A React element is kept as its tag, the ref it is
    handed, its class attribute, its own text and its element children;
    the other attributes ([href], [id], [src], [placeholder], keys) play
    no part in what follows and are left out.  An icon of [lucide-react]
    is a dependency: it is kept as one [svg] element carrying the class
    it is given. *)

Module View.
Import Dom Page.

Inductive Ref : Type :=
| ref_hero | ref_title | ref_subtitle | ref_buttons | ref_services
| ref_projects | ref_tech | ref_about | ref_contact.

Definition Ref_eqb (a b : Ref) : bool :=
  match a, b with
  | ref_hero, ref_hero | ref_title, ref_title | ref_subtitle, ref_subtitle
  | ref_buttons, ref_buttons | ref_services, ref_services
  | ref_projects, ref_projects | ref_tech, ref_tech | ref_about, ref_about
  | ref_contact, ref_contact => true
  | _, _ => false
  end.

Inductive ReactElement : Type :=
| Host (tag : string) (ref : option Ref) (className : string) (text : string)
       (children : list ReactElement).

Definition el (tag className : string) (children : list ReactElement) : ReactElement :=
  Host tag None className "" children.

Definition txt (tag className text : string) : ReactElement :=
  Host tag None className text [].

(** A prop that was not passed takes the default of the parameter list. *)
Definition orDefault {A : Type} (prop : option A) (default : A) : A :=
  match prop with Some a => a | None => default end.

(** *** The components *)

Inductive ButtonVariant : Type := variant_default | variant_outline.
Inductive ButtonSize : Type := size_default | size_lg | size_icon.
Inductive BadgeVariant : Type := badge_default | badge_secondary.

Definition CustomButton (variant : option ButtonVariant) (size : option ButtonSize)
  (className : option string) (text : string) (children : list ReactElement)
  : ReactElement :=
  let variant := orDefault variant variant_default in
  let size := orDefault size size_default in
  let className := orDefault className "" in
  let buttonClass :=
    "rounded-md font-medium focus:outline-none focus:ring-2 focus:ring-offset-2 disabled:opacity-50 disabled:pointer-events-none transition-colors" in
  let buttonClass :=
    (buttonClass ++ match size with
                    | size_lg => " px-4 py-2.5 text-base"
                    | size_icon => " h-9 w-9"
                    | size_default => " px-3 py-2 text-sm"
                    end)%string in
  let buttonClass :=
    (buttonClass ++ match variant with
                    | variant_outline =>
                        " border border-gray-300 bg-transparent hover:bg-gray-100 text-gray-700"
                    | variant_default =>
                        " bg-blue-600 text-white shadow hover:bg-blue-700"
                    end)%string in
  let buttonClass := (buttonClass ++ " " ++ className)%string in
  Host "button" None buttonClass text children.

Definition CustomCard (className : option string) (children : list ReactElement)
  : ReactElement :=
  let className := orDefault className "" in
  el "div"
     ("rounded-md border border-gray-200 bg-white text-gray-900 shadow-sm " ++ className)%string
     children.

Definition CustomCardHeader (className : option string) (children : list ReactElement)
  : ReactElement :=
  let className := orDefault className "" in
  el "div" ("flex flex-col space-y-1.5 p-6 " ++ className)%string children.

Definition CustomCardContent (className : option string) (children : list ReactElement)
  : ReactElement :=
  let className := orDefault className "" in
  el "div" ("p-6 pt-0 " ++ className)%string children.

Definition CustomCardTitle (className : option string) (text : string) : ReactElement :=
  let className := orDefault className "" in
  txt "h3" ("text-lg font-semibold leading-none tracking-tight " ++ className)%string text.

Definition CustomCardDescription (className : option string) (text : string)
  : ReactElement :=
  let className := orDefault className "" in
  txt "p" ("text-sm text-gray-600 " ++ className)%string text.

Definition CustomBadge (variant : option BadgeVariant) (className : option string)
  (text : string) : ReactElement :=
  let variant := orDefault variant badge_default in
  let className := orDefault className "" in
  let badgeClass :=
    "inline-flex items-center rounded-full border px-2.5 py-0.5 text-xs font-semibold transition-colors focus:outline-none focus:ring-2 focus:ring-gray-400 focus:ring-offset-2" in
  let badgeClass :=
    (badgeClass ++ match variant with
                   | badge_secondary =>
                       " border-transparent bg-gray-100 text-gray-800 hover:bg-gray-200"
                   | badge_default => " border-gray-300 bg-gray-50 text-gray-700"
                   end)%string in
  let badgeClass := (badgeClass ++ " " ++ className)%string in
  txt "div" badgeClass text.

(** An icon component of [lucide-react], by the name it is imported
    under. *)
Definition Icon (name className : string) : ReactElement :=
  el "svg" className [].

(** *** The content arrays *)

Record Service : Type := {
  sv_icon : string;
  sv_title : string;
  sv_description : string;
  sv_features : list string
}.

Record Project : Type := {
  pj_title : string;
  pj_category : string;
  pj_description : string;
  pj_tech : list string;
  pj_image : string
}.

Definition services : list Service :=
  [{| sv_icon := "Shield";
      sv_title := "Cybersecurity";
      sv_description := "Comprehensive security solutions to protect your digital assets";
      sv_features := ["Penetration Testing"; "Security Audits"; "Threat Assessment";
                      "Incident Response"] |};
   {| sv_icon := "Globe";
      sv_title := "Web Development";
      sv_description := "Modern, responsive websites and web applications";
      sv_features := ["Angular/Next.js"; "Full-Stack Development"; "E-commerce";
                      "API Integration"] |};
   {| sv_icon := "Smartphone";
      sv_title := "Mobile Development";
      sv_description := "Native and cross-platform mobile applications";
      sv_features := ["iOS & Android"; "Flutter"; "Kotlin"; "Play Store Deployment"] |}].

Definition projects : list Project :=
  [{| pj_title := "Log Analysis System";
      pj_category := "Cybersecurity";
      pj_description := "Advanced institutions detection system for OSs and Servers";
      pj_tech := ["Python"; "FastApi"; "Angular"; "PostgreSQL"; "Stripe"; "SQLAlchemy";
                  "ng2-charts"];
      pj_image := "/placeholder.svg?height=200&width=300&text=SecureBank+Dashboard" |};
   {| pj_title := "EcoCommerce Platform";
      pj_category := "Web Development";
      pj_description := "Sustainable e-commerce platform with carbon tracking";
      pj_tech := ["Python"; "FastApi"; "Angular"; "PostgreSQL"; "Bootstrap"; "Gsap";
                  "Github Actions"; "Docker"];
      pj_image := "/placeholder.svg?height=200&width=300&text=EcoCommerce+Platform" |};
   {| pj_title := "PFE PFA Book";
      pj_category := "Mobile Development";
      pj_description := "Cross-platform health monitoring application";
      pj_tech := ["Dart"; "Flutter"; "Firebase"; "Github"; "PlayStore Deployment";
                  "Google Analytics"];
      pj_image := "/placeholder.svg?height=200&width=300&text=HealthTracker+Mobile" |}].

Definition technologies : list string :=
  ["Angular"; "Next.js"; "FastAPI"; "Spring Boot"; "Node.js"; "TypeScript"; "Python";
   "PostgreSQL"; "Kotlin"; "Flutter"; "Docker"; "CI/CD"].

(** *** The tree [Portfolio] returns, section by section *)

Definition logo (textSize : string) : list ReactElement :=
  [el "div"
      "w-8 h-8 bg-gradient-to-r from-cyan-400 to-purple-500 rounded-lg flex items-center justify-center"
      [Icon "Code" "w-5 h-5 text-white"];
   txt "span" (textSize ++ " font-bold text-white")%string "SoftHub"].

Definition navLink (label : string) : ReactElement :=
  txt "a" "text-white/80 hover:text-white transition-colors" label.

Definition navigationView : ReactElement :=
  el "nav" "fixed top-0 w-full bg-black/20 backdrop-blur-md z-50 border-b border-white/10"
    [el "div" "container mx-auto px-6 py-4"
       [el "div" "flex items-center justify-between"
          [el "div" "flex items-center space-x-2" (logo "text-2xl");
           el "div" "hidden md:flex space-x-8"
             [navLink "Services"; navLink "Portfolio"; navLink "About";
              navLink "Contact"]]]].

Definition heroTitleView : ReactElement :=
  Host "h1" (Some ref_title)
    "text-5xl md:text-7xl font-bold text-white mb-6 opacity-0"
    "Secure. Build. "
    [txt "span"
       "text-transparent bg-clip-text bg-gradient-to-r from-cyan-400 to-purple-500"
       "Innovate."].

Definition heroSubtitleView : ReactElement :=
  Host "p" (Some ref_subtitle) "text-xl text-white/80 mb-8 max-w-3xl mx-auto"
    "SoftHub delivers cutting-edge cybersecurity solutions, modern web applications, and innovative mobile experiences that drive your business forward."
    [].

Definition heroButtonsView : ReactElement :=
  Host "div" (Some ref_buttons) "flex flex-col sm:flex-row gap-4 justify-center" ""
    [CustomButton None (Some size_lg)
       (Some "bg-gradient-to-r from-cyan-500 to-purple-600 hover:from-cyan-600 hover:to-purple-700 text-white border-0")
       "Get Started "
       [Icon "ArrowRight" "ml-2 w-4 h-4"];
     CustomButton (Some variant_outline) (Some size_lg)
       (Some "border-white/20 text-white hover:bg-white/10 bg-transparent")
       "View Portfolio"
       []].

Definition heroView : ReactElement :=
  el "section" "pt-32 pb-20 px-6"
    [el "div" "container mx-auto text-center"
       [el "div" "" [heroTitleView; heroSubtitleView; heroButtonsView]]].

Definition sectionHeading (heading lead : string) : ReactElement :=
  el "div" "text-center mb-16"
    [txt "h2" "text-4xl font-bold text-white mb-4" heading;
     txt "p" "text-white/70 text-lg max-w-2xl mx-auto" lead].

Definition featureItem (feature : string) : ReactElement :=
  Host "li" None "flex items-center text-white/80" feature
    [Icon "CheckCircle" "w-4 h-4 text-green-400 mr-2"].

Definition serviceIcon (service : Service) : ReactElement :=
  el "div"
    "service-icon w-12 h-12 bg-gradient-to-r from-cyan-400 to-purple-500 rounded-lg flex items-center justify-center mb-4"
    [Icon (sv_icon service) "w-6 h-6 text-white"].

Definition serviceCard (service : Service) : ReactElement :=
  CustomCard
    (Some "service-card bg-white/5 border-white/10 backdrop-blur-sm hover:bg-white/10 transition-all duration-300 cursor-pointer")
    [CustomCardHeader None
       [serviceIcon service;
        CustomCardTitle (Some "text-white text-xl") (sv_title service);
        CustomCardDescription (Some "text-white/70") (sv_description service)];
     CustomCardContent None
       [el "ul" "space-y-2" (map featureItem (sv_features service))]].

Definition servicesView (services : list Service) : ReactElement :=
  Host "section" (Some ref_services) "py-20 px-6" ""
    [el "div" "container mx-auto"
       [sectionHeading "Our Expertise"
          "We specialize in three core areas that form the foundation of modern digital solutions";
        el "div" "grid md:grid-cols-3 gap-8" (map serviceCard services)]].

Definition techLabel (tech : string) : ReactElement :=
  CustomBadge (Some badge_secondary) (Some "bg-white/10 text-white/80 border-white/20") tech.

Definition projectCard (project : Project) : ReactElement :=
  CustomCard
    (Some "project-card bg-white/5 border-white/10 backdrop-blur-sm overflow-hidden hover:scale-105 transition-transform duration-300")
    [el "div" "aspect-video bg-gradient-to-br from-slate-800 to-slate-900 relative overflow-hidden"
       [el "img" "w-full h-full object-cover" [];
        el "div" "absolute top-4 left-4"
          [CustomBadge None
             (Some "bg-gradient-to-r from-cyan-500 to-purple-600 text-white border-0")
             (pj_category project)]];
     CustomCardHeader None
       [CustomCardTitle (Some "text-white") (pj_title project);
        CustomCardDescription (Some "text-white/70") (pj_description project)];
     CustomCardContent None
       [el "div" "flex flex-wrap gap-2" (map techLabel (pj_tech project))]].

Definition projectsView (projects : list Project) : ReactElement :=
  Host "section" (Some ref_projects) "py-20 px-6 bg-black/20" ""
    [el "div" "container mx-auto"
       [sectionHeading "Featured Projects"
          "Showcasing our latest work across cybersecurity, web, and mobile development";
        el "div" "grid md:grid-cols-3 gap-8" (map projectCard projects)]].

Definition techBadge (tech : string) : ReactElement :=
  el "div"
    "tech-badge group relative overflow-hidden bg-gradient-to-br from-white/10 to-white/5 backdrop-blur-sm border border-white/20 rounded-xl p-4 text-center cursor-pointer transition-all duration-300 hover:border-cyan-400/50"
    [el "div"
       "absolute inset-0 bg-gradient-to-br from-cyan-500/10 to-purple-600/10 opacity-0 group-hover:opacity-100 transition-opacity duration-300 rounded-xl"
       [];
     el "div" "relative z-10 mb-2"
       [el "div"
          "w-8 h-8 mx-auto bg-gradient-to-r from-cyan-400 to-purple-500 rounded-lg flex items-center justify-center"
          [Icon "Code" "w-4 h-4 text-white"]];
     txt "div"
       "relative z-10 text-white font-medium text-sm group-hover:text-cyan-300 transition-colors duration-300"
       tech;
     el "div"
       "absolute inset-0 rounded-xl border-2 border-transparent group-hover:border-gradient-to-r group-hover:from-cyan-400 group-hover:to-purple-500 transition-all duration-300"
       []].

Definition techStat (color number label : string) : ReactElement :=
  el "div" "tech-stat"
    [txt "div" ("text-3xl font-bold " ++ color ++ " mb-2")%string number;
     txt "div" "text-white/70" label].

Definition techView (technologies : list string) : ReactElement :=
  Host "section" (Some ref_tech) "py-20 px-6" ""
    [el "div" "container mx-auto"
       [sectionHeading "Technologies We Master"
          "Cutting-edge tools and frameworks that power our solutions";
        el "div" "max-w-4xl mx-auto"
          [el "div" "grid grid-cols-2 md:grid-cols-3 lg:grid-cols-4 gap-4"
             (map techBadge technologies);
           el "div" "mt-16 grid grid-cols-1 md:grid-cols-3 gap-8 text-center"
             [techStat "text-cyan-400" "12+" "Technologies";
              techStat "text-purple-400" "5+" "Years Experience";
              techStat "text-green-400" "100%" "Up to Date"]]]].

Definition statItem (color number label : string) : ReactElement :=
  el "div" "stat-item text-center"
    [txt "div" ("stat-number text-3xl font-bold " ++ color ++ " mb-2")%string number;
     txt "div" "stat-label text-white/70" label].

Definition techIcon (color name : string) : ReactElement :=
  el "div"
    ("tech-icon w-16 h-16 bg-gradient-to-r from-" ++ color ++ "-400 to-" ++ color
       ++ "-600 rounded-lg flex items-center justify-center cursor-pointer")%string
    [Icon name "w-8 h-8 text-white"].

Definition aboutView : ReactElement :=
  Host "section" (Some ref_about) "py-20 px-6 bg-black/20" ""
    [el "div" "container mx-auto"
       [el "div" "grid md:grid-cols-2 gap-12 items-center"
          [el "div" ""
             [txt "h2" "text-4xl font-bold text-white mb-6" "About SoftHub";
              txt "p" "text-white/80 text-lg mb-6"
                "We are a team of passionate developers and cybersecurity experts dedicated to creating secure, innovative digital solutions. With years of experience in the industry, we understand the critical importance of both functionality and security in today's digital landscape.";
              txt "p" "text-white/80 text-lg mb-8"
                "Our mission is to help businesses thrive in the digital age by providing robust, scalable, and secure technology solutions that drive growth and protect valuable assets.";
              el "div" "grid grid-cols-3 gap-6"
                [statItem "text-cyan-400" "50+" "Projects Completed";
                 statItem "text-purple-400" "5+" "Years Experience";
                 statItem "text-green-400" "100%" "Client Satisfaction"]];
           el "div" "relative"
             [el "div"
                "icon-grid w-full h-96 bg-gradient-to-br from-cyan-500/20 to-purple-600/20 rounded-2xl flex items-center justify-center"
                [el "div" "grid grid-cols-3 gap-4"
                   [techIcon "cyan" "Shield";
                    techIcon "purple" "Code";
                    techIcon "green" "Smartphone";
                    techIcon "blue" "Database";
                    techIcon "red" "Server";
                    techIcon "yellow" "Zap"]]]]]].

Definition contactItem (icon label value : string) : ReactElement :=
  el "div" "contact-item flex items-center space-x-4"
    [el "div"
       "w-12 h-12 bg-gradient-to-r from-cyan-400 to-purple-500 rounded-lg flex items-center justify-center"
       [Icon icon "w-6 h-6 text-white"];
     el "div" ""
       [txt "div" "text-white font-medium" label;
        txt "div" "text-white/70" value]].

Definition socialButton (icon : string) : ReactElement :=
  CustomButton (Some variant_outline) (Some size_icon)
    (Some "social-btn border-white/20 text-white hover:bg-white/10 bg-transparent")
    ""
    [Icon icon "w-5 h-5"].

Definition formField (tag label : string) : ReactElement :=
  el "div" ""
    [txt "label" "text-white/80 text-sm" label;
     el tag
       "form-input w-full mt-1 px-3 py-2 bg-white/10 border border-white/20 rounded-md text-white placeholder-white/50"
       []].

Definition contactView : ReactElement :=
  Host "section" (Some ref_contact) "py-20 px-6" ""
    [el "div" "container mx-auto"
       [sectionHeading "Let's Work Together"
          "Ready to secure and scale your digital presence? Get in touch with us today.";
        el "div" "grid md:grid-cols-2 gap-12"
          [el "div" "contact-info"
             [txt "h3" "text-2xl font-bold text-white mb-6" "Get In Touch";
              el "div" "space-y-4"
                [contactItem "Mail" "Email" "hello@softhub.com";
                 contactItem "Phone" "Phone" "+216 27 553 981";
                 contactItem "MapPin" "Location" "Monastir, Tunisia"];
              el "div" "flex space-x-4 mt-8"
                [socialButton "Github"; socialButton "Linkedin"; socialButton "Twitter"]];
           CustomCard (Some "contact-form bg-white/5 border-white/10 backdrop-blur-sm")
             [CustomCardHeader None
                [CustomCardTitle (Some "text-white") "Send us a message"];
              CustomCardContent (Some "space-y-4")
                [el "div" "grid grid-cols-2 gap-4"
                   [formField "input" "First Name"; formField "input" "Last Name"];
                 formField "input" "Email";
                 formField "textarea" "Message";
                 CustomButton None None
                   (Some "w-full bg-gradient-to-r from-cyan-500 to-purple-600 hover:from-cyan-600 hover:to-purple-700 text-white border-0")
                   "Send Message"
                   []]]]]].

(** The copyright line of the footer begins with the four bytes the
    source file holds in front of the year. *)
Definition copyright : string :=
  String "195" (String "130" (String "194" (String "169"
    " 2025 SoftHub. All rights reserved."))).

Definition footerView : ReactElement :=
  el "footer" "py-8 px-6 border-t border-white/10"
    [el "div" "container mx-auto"
       [el "div" "flex flex-col md:flex-row justify-between items-center"
          [el "div" "flex items-center space-x-2 mb-4 md:mb-0" (logo "text-xl");
           txt "div" "text-white/60 text-sm" copyright]]].

(** What [Portfolio] returns, for the content arrays it maps over. *)
Definition markup (services : list Service) (projects : list Project)
  (technologies : list string) : ReactElement :=
  Host "div" (Some ref_hero)
    "min-h-screen bg-gradient-to-br from-slate-900 via-purple-900 to-slate-900" ""
    [navigationView;
     heroView;
     servicesView services;
     projectsView projects;
     techView technologies;
     aboutView;
     contactView;
     footerView].

Definition Portfolio : ReactElement := markup services projects technologies.

(** *** From the element tree to the document *)

(** ASCII white space: space, tab, line feed, form feed, carriage
    return. *)
Definition isSpace (c : ascii) : bool :=
  existsb (Ascii.eqb c) [" "; "009"; "010"; "012"; "013"]%char.

(** The tokens of a class attribute: the maximal runs without white
    space.  [word] is the run read so far.  A token written twice is kept
    twice; only membership is looked at. *)
Fixpoint splitClass (s : string) (word : string) : list string :=
  match s with
  | EmptyString => if String.eqb word "" then [] else [word]
  | String c rest =>
      if isSpace c then
        (if String.eqb word "" then [] else [word]) ++ splitClass rest ""
      else splitClass rest (word ++ String c "")%string
  end.

Definition classNames (className : string) : list string := splitClass className "".

(** The DOM nodes of an element tree; handles are given out in document
    order, from [next] on. *)
Fixpoint createNode (next : nat) (e : ReactElement) : Node * nat :=
  match e with
  | Host tag _ className text kids =>
      let '(nodes, next') :=
        (fix appendAll (next : nat) (l : list ReactElement) : list Node * nat :=
           match l with
           | [] => ([], next)
           | k :: l' =>
               let '(node, next1) := createNode next k in
               let '(nodes, next2) := appendAll next1 l' in
               (node :: nodes, next2)
           end) (S next) kids in
      (Element next tag (classNames className) text nodes, next')
  end.

(** The node a ref is attached to: the node of the first element, in
    document order, that is handed the ref. *)
Fixpoint attached (r : Ref) (e : ReactElement) (n : Node) : option Node :=
  match e, n with
  | Host _ r' _ _ kids, Element _ _ _ _ nodes =>
      if match r' with Some x => Ref_eqb r x | None => false end then Some n
      else
        (fix among (l : list ReactElement) (ns : list Node) : option Node :=
           match l, ns with
           | k :: l', node :: ns' =>
               match attached r k node with
               | Some found => Some found
               | None => among l' ns'
               end
           | _, _ => None
           end) kids nodes
  end.

(** The refs and the document once the tree is mounted.  The root
    element of the page stands for the document: what the layout puts
    around the page is not part of this file. *)
Definition mounted (e : ReactElement) : Refs :=
  let root := fst (createNode 0 e) in
  {| heroRef := attached ref_hero e root;
     titleRef := attached ref_title e root;
     subtitleRef := attached ref_subtitle e root;
     buttonsRef := attached ref_buttons e root;
     servicesRef := attached ref_services e root;
     projectsRef := attached ref_projects e root;
     techRef := attached ref_tech e root;
     aboutRef := attached ref_about e root;
     contactRef := attached ref_contact e root;
     document := root |}.

End View.

(** A sample environment for running the page: every call of
    [Math.random] gives one half, and the transcendental functions are
    replaced by rational stand-ins that agree with them at 0. *)
Definition sampleMath : Gsap.JsMath :=
  {| Gsap.random := fun _ => 0.5%Q;
     Gsap.sin := fun q => q;
     Gsap.cos := fun q => (1 - q * q / 2)%Q;
     Gsap.sqrt := fun q => ((1 + q) / 2)%Q;
     Gsap.shuffle := @rev Q;
     Gsap.sine := fun p => (p * p * (3 - 2 * p))%Q |}.

(* ================================================================== *)
(** ** Reasoning about the effect *)

Import Dom Gsap Page Markup.

#[local] Open Scope Q_scope.

(** [extends s s']: the library's lists and the listeners of [s'] are
    those of [s] with more at the end, under the same context. *)
Definition extends (s s' : State) : Prop :=
  (exists la, animations s' = animations s ++ la)
  /\ (exists lo, observers s' = observers s ++ lo)
  /\ (exists ll, listeners s' = listeners s ++ ll)
  /\ context s' = context s.

Lemma extends_refl (s : State) : extends s s.
Proof.
  repeat split; try (exists []; now rewrite app_nil_r).
Qed.

Lemma extends_trans (s1 s2 s3 : State) :
  extends s1 s2 -> extends s2 s3 -> extends s1 s3.
Proof.
  intros (Ha & Ho & Hl & Hc) (Ha' & Ho' & Hl' & Hc').
  destruct Ha as [a Ha], Ho as [o Ho], Hl as [l Hl].
  destruct Ha' as [a' Ha'], Ho' as [o' Ho'], Hl' as [l' Hl'].
  repeat split.
  - exists (a ++ a'). now rewrite Ha', Ha, app_assoc.
  - exists (o ++ o'). now rewrite Ho', Ho, app_assoc.
  - exists (l ++ l'). now rewrite Hl', Hl, app_assoc.
  - congruence.
Qed.

Lemma extends_animation (s s' : State) (tw : Tween) :
  extends s s' -> In tw (animations s) -> In tw (animations s').
Proof.
  intros ([la Ha] & _) Hin. rewrite Ha. apply in_or_app. now left.
Qed.

(** Well-formed states: identifiers and contexts handed out so far are
    below the counters, and a tween controlled by a scroll trigger was
    made by a fromTo. *)
Definition ctxBelow (o : option nat) (n : nat) : Prop :=
  match o with Some c => (c < n)%nat | None => True end.

Definition controls (s : State) (t : ScrollTrigger) : Prop :=
  forall aid, st_animation t = Some aid ->
    (aid < nextId s)%nat
    /\ Forall (fun tw => tw_id tw = aid -> tw_from tw <> None) (animations s).

Definition wf (s : State) : Prop :=
  Forall (fun tw => (tw_id tw < nextId s)%nat /\ ctxBelow (tw_ctx tw) (nextCtx s))
         (animations s)
  /\ Forall (fun t => (st_id t < nextId s)%nat /\ ctxBelow (st_ctx t) (nextCtx s)
                      /\ controls s t)
            (observers s)
  /\ ctxBelow (context s) (nextCtx s).

Lemma wf_empty : wf emptyState.
Proof. repeat split; constructor. Qed.

Lemma ctxBelow_le (o : option nat) (n n' : nat) :
  ctxBelow o n -> (n <= n')%nat -> ctxBelow o n'.
Proof. destruct o; simpl; [lia | auto]. Qed.

Lemma wf_add_tween (s : State) (tw : Tween) st :
  wf s -> tw_id tw = nextId s -> tw_ctx tw = context s ->
  wf (withAnimations s (animations s ++ [tw]) st).
Proof.
  intros (Wa & Wo & Wc) Hid Hctx. unfold wf. cbn.
  rewrite Forall_forall in Wa, Wo.
  repeat split.
  - apply Forall_app. split.
    + apply Forall_forall. intros x Hx. destruct (Wa x Hx). split; [lia | assumption].
    + constructor; [|constructor]. rewrite Hid, Hctx. split; [lia | exact Wc].
  - apply Forall_forall. intros t Ht. destruct (Wo t Ht) as (H1 & H2 & H3).
    split; [lia|]. split; [exact H2|].
    intros aid Haid. destruct (H3 aid Haid) as [Hlt Hall]. cbn.
    split; [lia|]. apply Forall_app. split; [exact Hall|].
    constructor; [|constructor]. intros E. rewrite Hid in E. lia.
  - exact Wc.
Qed.

Lemma wf_add_trigger (s : State) (t : ScrollTrigger) :
  wf s -> st_id t = nextId s -> st_ctx t = context s ->
  (forall aid, st_animation t = Some aid ->
     (aid < nextId s)%nat
     /\ Forall (fun tw => tw_id tw = aid -> tw_from tw <> None) (animations s)) ->
  wf (withObservers s (observers s ++ [t])).
Proof.
  intros (Wa & Wo & Wc) Hid Hctx Hlink. unfold wf. cbn.
  rewrite Forall_forall in Wa, Wo.
  repeat split.
  - apply Forall_forall. intros x Hx. destruct (Wa x Hx). split; [lia | assumption].
  - apply Forall_app. split.
    + apply Forall_forall. intros x Hx. destruct (Wo x Hx) as (H1 & H2 & H3).
      split; [lia|]. split; [exact H2|].
      intros aid Haid. destruct (H3 aid Haid) as [Hlt Hall]. cbn. split; [lia | exact Hall].
    + constructor; [|constructor]. rewrite Hid, Hctx.
      split; [lia|]. split; [exact Wc|].
      intros aid Haid. destruct (Hlink aid Haid) as [Hlt Hall]. cbn. split; [lia | exact Hall].
  - exact Wc.
Qed.

Lemma wf_withListeners (s : State) (l : list Listener) :
  wf s -> wf (withListeners s l).
Proof. intros W. exact W. Qed.

(** [adds QT QO QL c a na no ll]: from every state [c] returns [a]
    without throwing, having appended [na] tweens, [no] scroll triggers
    and the listeners [ll]; the new tweens satisfy [QT], the new triggers
    [QO], the new listeners [QL]. *)
Definition adds (QT : Tween -> Prop) (QO : ScrollTrigger -> Prop) (QL : Listener -> Prop)
  {A : Type} (c : M A) (a : A) (na no : nat) (ll : list Listener) : Prop :=
  Forall QL ll
  /\ forall s, exists s' la lo,
      c s = Ok (a, s')
      /\ animations s' = animations s ++ la /\ List.length la = na /\ Forall QT la
      /\ observers s' = observers s ++ lo /\ List.length lo = no /\ Forall QO lo
      /\ listeners s' = listeners s ++ ll
      /\ context s' = context s /\ nextCtx s' = nextCtx s
      /\ Forall (fun tw => tw_ctx tw = context s) la
      /\ Forall (fun t => st_ctx t = context s) lo
      /\ (wf s -> wf s').

Definition runs (QT : Tween -> Prop) (QO : ScrollTrigger -> Prop) (QL : Listener -> Prop)
  {A : Type} (c : M A) : Prop :=
  exists a na no ll, adds QT QO QL c a na no ll.

Section Rules.

Variable QT : Tween -> Prop.
Variable QO : ScrollTrigger -> Prop.
Variable QL : Listener -> Prop.

Lemma adds_ret {A : Type} (a : A) : adds QT QO QL (ret a) a 0 0 [].
Proof.
  split; [constructor|].
  intros s. exists s, [], []. rewrite !app_nil_r.
  repeat apply conj; auto.
Qed.

Lemma adds_bind {A B : Type} (c : M A) (k : A -> M B) a b n1 o1 l1 n2 o2 l2 :
  adds QT QO QL c a n1 o1 l1 ->
  adds QT QO QL (k a) b n2 o2 l2 ->
  adds QT QO QL (bind c k) b (n1 + n2) (o1 + o2) (l1 ++ l2).
Proof.
  intros [Fl Hc] [Fl' Hk]. split; [apply Forall_app; auto|]. intros s.
  destruct (Hc s)
    as (s1 & la & lo & E & Ea & Na & Fa & Eo & No & Fo & El & Ec & En & Ca & Co & W).
  destruct (Hk s1)
    as (s2 & la' & lo' & E' & Ea' & Na' & Fa' & Eo' & No' & Fo' & El' & Ec' & En' & Ca' & Co' & W').
  exists s2, (la ++ la'), (lo ++ lo'). unfold bind. rewrite E, E'.
  rewrite Ea', Ea, Eo', Eo, El', El, !app_assoc, !length_app, Na, Na', No, No'.
  rewrite Ec in Ca', Co'.
  repeat apply conj; auto; try congruence; apply Forall_app; auto.
Qed.

Lemma adds_random {B : Type} (m : JsMath) (k : Q -> M B) b n o l :
  (forall rnd, adds QT QO QL (k rnd) b n o l) ->
  adds QT QO QL (bind (Math_random m) k) b n o l.
Proof.
  intros Hk. split; [apply (Hk 0)|]. intros s. unfold bind, Math_random.
  destruct (Hk (random m (randomCalls s))) as [_ Hk'].
  destruct (Hk' {| animations := animations s; observers := observers s;
                   listeners := listeners s; styles := styles s;
                   context := context s; nextId := nextId s;
                   nextCtx := nextCtx s; randomCalls := S (randomCalls s) |})
    as (s2 & la & lo & E & H).
  exists s2, la, lo. rewrite E. split; [reflexivity | exact H].
Qed.

Lemma runs_of_adds {A : Type} (c : M A) a n o l :
  adds QT QO QL c a n o l -> runs QT QO QL c.
Proof. intros H. now exists a, n, o, l. Qed.

Lemma runs_ret {A : Type} (a : A) : runs QT QO QL (ret a).
Proof. eapply runs_of_adds, adds_ret. Qed.

Lemma runs_bind {A B : Type} (c : M A) (k : A -> M B) :
  runs QT QO QL c -> (forall a, runs QT QO QL (k a)) -> runs QT QO QL (bind c k).
Proof.
  intros (a & n & o & l & Hc) Hk.
  destruct (Hk a) as (b & n' & o' & l' & Hk').
  eapply runs_of_adds, adds_bind; eauto.
Qed.

(** Binding a value that is known keeps it. *)
Lemma runs_bind_value {A B : Type} (a : A) (k : A -> M B) :
  runs QT QO QL (k a) -> runs QT QO QL (bind (lift (Ok a)) k).
Proof.
  intros (b & n & o & l & Fl & H). exists b, n, o, l. split; [exact Fl|].
  intros s. exact (H s).
Qed.

Lemma runs_bind_querySelectorAll {B : Type} (n : Node) (sel : string) (x : Selector)
  (k : list Node -> M B) :
  parseSelector sel = Some x ->
  runs QT QO QL (k (matchesIn x n)) ->
  runs QT QO QL (bind (lift (querySelectorAll n sel)) k).
Proof.
  intros E H. unfold querySelectorAll. rewrite E. apply runs_bind_value, H.
Qed.

Lemma runs_bind_querySelector {B : Type} (n : Node) (sel : string) (x : Selector)
  (k : option Node -> M B) :
  parseSelector sel = Some x ->
  runs QT QO QL (k (hd_error (matchesIn x n))) ->
  runs QT QO QL (bind (lift (querySelector n sel)) k).
Proof.
  intros E H. unfold querySelector. rewrite E. apply runs_bind_value, H.
Qed.

Lemma runs_bind_deref {A B : Type} (a : A) (what : string) (k : A -> M B) :
  runs QT QO QL (k a) -> runs QT QO QL (bind (deref (Some a) what) k).
Proof.
  intros (b & n & o & l & Fl & H). exists b, n, o, l. split; [exact Fl|].
  intros s. exact (H s).
Qed.

Lemma runs_forEach {A : Type} (l : list A) (f : A -> nat -> M unit) :
  (forall a i, In a l -> runs QT QO QL (f a i)) ->
  forall i, runs QT QO QL (forEach l f i).
Proof.
  induction l as [|a l IH]; intros Hf i; simpl.
  - apply runs_ret.
  - apply runs_bind.
    + apply Hf. now left.
    + intros _. apply IH. intros b j Hb. apply Hf. now right.
Qed.

(** What a single new tween leaves to show. *)
Lemma one_tween (m : JsMath) (targets : list Elem) (from : option Vars)
  (v : TweenVars) (p : Q) (b : bool) (s : State) st :
  QT (freshTween m (nextId s) (context s) targets from v p b) ->
  let tw := freshTween m (nextId s) (context s) targets from v p b in
  let s' := withAnimations s (animations s ++ [tw]) st in
  animations s' = animations s ++ [tw] /\ List.length [tw] = 1%nat /\ Forall QT [tw]
  /\ observers s' = observers s ++ [] /\ List.length (@nil ScrollTrigger) = 0%nat
  /\ Forall QO []
  /\ listeners s' = listeners s ++ []
  /\ context s' = context s /\ nextCtx s' = nextCtx s
  /\ Forall (fun tw => tw_ctx tw = context s) [tw]
  /\ Forall (fun t => st_ctx t = context s) []
  /\ (wf s -> wf s').
Proof.
  intros H tw s'. unfold s'. cbn. rewrite !app_nil_r.
  repeat apply conj; auto.
  intros W. apply wf_add_tween; auto.
Qed.

Lemma adds_to (m : JsMath) (targets : list Elem) (v : TweenVars) :
  (forall id ctx, QT (freshTween m id ctx targets None v 0 false)) ->
  adds QT QO QL (to m targets v) tt 1 0 [].
Proof.
  intros H. split; [constructor|].
  intros s. eexists _, [_], []. split; [reflexivity|].
  apply one_tween, H.
Qed.

Lemma adds_set (m : JsMath) (targets : list Elem) (vs : Vars) :
  (forall id ctx, QT (freshTween m id ctx targets (Some vs)
                        {| props := vs; duration := 0; delay := 0; ease := power1_out;
                           stagger := None; repeat := times 0; yoyo := false;
                           snap := None |} 0 false)) ->
  adds QT QO QL (set m targets vs) tt 1 0 [].
Proof.
  intros H. split; [constructor|].
  intros s. eexists _, [_], []. split; [reflexivity|].
  apply one_tween, H.
Qed.

Lemma adds_fromTo (m : JsMath) (targets : list Elem) (from : Vars) (v : TweenVars) :
  (forall id ctx, QT (freshTween m id ctx targets (Some from) v 0 false)) ->
  adds QT QO QL (fromTo m targets from v None) tt 1 0 [].
Proof.
  intros H. split; [constructor|].
  intros s. eexists _, [_], []. split; [reflexivity|].
  apply one_tween, H.
Qed.

Lemma adds_fromTo_trigger (m : JsMath) (targets : list Elem) (from : Vars)
  (v : TweenVars) (st : ScrollTriggerVars) :
  (forall id ctx, QT (freshTween m id ctx targets (Some from) v 0 true)) ->
  (forall id ctx aid, QO (freshTrigger id ctx st (Some aid))) ->
  adds QT QO QL (fromTo m targets from v (Some st)) tt 1 1 [].
Proof.
  intros H H'. split; [constructor|].
  intros s. eexists _, [_], [_]. split; [reflexivity|].
  cbn. rewrite !app_nil_r. repeat apply conj; auto.
  intros W.
  pose proof (wf_add_tween s
                (freshTween m (nextId s) (context s) targets (Some from) v 0 true)
                (writeVars targets from (styles s)) W eq_refl eq_refl) as W1.
  apply (wf_add_trigger _ (freshTrigger (S (nextId s)) (context s) st (Some (nextId s))) W1);
    [reflexivity | reflexivity |].
  intros aid [= <-]. cbn. split; [lia|].
  apply Forall_app. split.
  - destruct W as (Wa & _). eapply Forall_impl; [|exact Wa].
    intros tw [Hlt _] E. lia.
  - constructor; [|constructor]. intros _. discriminate.
Qed.

Lemma runs_timeline_fromTo (m : JsMath) (tl : Q) (targets : list Elem) (from : Vars)
  (v : TweenVars) (pos : Position) :
  (forall id ctx p, QT (freshTween m id ctx targets (Some from) v p false)) ->
  runs QT QO QL (timeline_fromTo m tl targets from v pos).
Proof.
  intros H. eexists _, 1%nat, 0%nat, []. split; [constructor|].
  intros s. eexists _, [_], [].
  split; [unfold timeline_fromTo, bind, newTween, ret; reflexivity|].
  apply one_tween, H.
Qed.

Lemma adds_ScrollTrigger_create (v : ScrollTriggerVars) :
  (forall id ctx, QO (freshTrigger id ctx v None)) ->
  adds QT QO QL (ScrollTrigger_create v) tt 0 1 [].
Proof.
  intros H. split; [constructor|].
  intros s. eexists _, [], [_]. split; [reflexivity|].
  cbn. rewrite !app_nil_r. repeat apply conj; auto.
  intros W.
  apply (wf_add_trigger s (freshTrigger (nextId s) (context s) v None) W);
    [reflexivity | reflexivity |].
  intros aid. discriminate.
Qed.

Lemma adds_addEventListener (n : Node) (type : string) (h : list ToCall) :
  QL {| l_target := uid n; l_type := type; l_handler := h |} ->
  adds QT QO QL (addEventListener n type h) tt 0 0
    [{| l_target := uid n; l_type := type; l_handler := h |}].
Proof.
  intros H. split; [constructor; [exact H | constructor]|].
  intros s. eexists _, [], []. split; [reflexivity|].
  cbn. rewrite !app_nil_r. repeat apply conj; auto.
Qed.

End Rules.

(** One step through the effect: sequencing, guards, loops, then the
    library calls, whose side conditions are left to [finish]. *)
Ltac run_step finish :=
  lazymatch goal with
  | |- runs _ _ _ (if isSome ?o then _ else _) =>
      let E := fresh "Href" in
      destruct o eqn:E;
      lazymatch goal with
      | |- runs ?QT ?QO ?QL (if isSome (Some _) then ?A else _) =>
          change (runs QT QO QL A)
      | |- runs ?QT ?QO ?QL (if isSome None then _ else ?B) =>
          change (runs QT QO QL B)
      end
  | |- runs _ _ _ (bind (Math_random _) _) =>
      eapply runs_of_adds, adds_random; intros
  | |- runs _ _ _ (bind (lift (querySelectorAll _ _)) _) =>
      eapply runs_bind_querySelectorAll; [reflexivity | cbv beta]
  | |- runs _ _ _ (bind (lift (querySelector _ _)) _) =>
      eapply runs_bind_querySelector; [reflexivity | cbv beta]
  | |- runs _ _ _ (bind (deref (Some _) _) _) =>
      eapply runs_bind_deref; cbv beta
  | |- runs _ _ _ (bind _ _) => apply runs_bind; [ | intros ]
  | |- runs _ _ _ (forEach _ _ _) => apply runs_forEach; intros
  | |- runs _ _ _ (ret _) => apply runs_ret
  | |- runs _ _ _ (timeline_fromTo _ _ _ _ _ _) =>
      apply runs_timeline_fromTo; intros; finish
  | |- runs _ _ _ (to _ _ _) => eapply runs_of_adds
  | |- runs _ _ _ (set _ _ _) => eapply runs_of_adds
  | |- runs _ _ _ (fromTo _ _ _ _ _) => eapply runs_of_adds
  | |- runs _ _ _ (ScrollTrigger_create _) => eapply runs_of_adds
  | |- runs _ _ _ (addEventListener _ _ _) => eapply runs_of_adds
  | |- adds _ _ _ (bind _ _) _ _ _ _ => eapply adds_bind
  | |- adds _ _ _ (to _ _ _) _ _ _ _ => eapply adds_to; intros; finish
  | |- adds _ _ _ (set _ _ _) _ _ _ _ => eapply adds_set; intros; finish
  | |- adds _ _ _ (fromTo _ _ _ _ None) _ _ _ _ => eapply adds_fromTo; intros; finish
  | |- adds _ _ _ (fromTo _ _ _ _ (Some _)) _ _ _ _ =>
      eapply adds_fromTo_trigger; intros; finish
  | |- adds _ _ _ (ScrollTrigger_create _) _ _ _ _ =>
      eapply adds_ScrollTrigger_create; intros; finish
  | |- adds _ _ _ (addEventListener _ _ _) _ _ _ _ =>
      eapply adds_addEventListener; finish
  | |- adds _ _ _ (ret _) _ _ _ _ => eapply adds_ret
  end.

Ltac run_with finish := repeat run_step finish.

Lemma adds_extends (QT : Tween -> Prop) (QO : ScrollTrigger -> Prop)
  (QL : Listener -> Prop) {A : Type} (c : M A) a n o l (s : State) :
  adds QT QO QL c a n o l ->
  exists s', c s = Ok (a, s') /\ extends s s'
             /\ context s' = context s /\ nextCtx s' = nextCtx s.
Proof.
  intros [_ H].
  destruct (H s) as (s' & la & lo & E & Ea & _ & _ & Eo & _ & _ & El & Ec & En & _).
  exists s'. repeat split; eauto.
Qed.

Lemma adds_wf (QT : Tween -> Prop) (QO : ScrollTrigger -> Prop)
  (QL : Listener -> Prop) {A : Type} (c : M A) a n o l (s : State) :
  adds QT QO QL c a n o l ->
  exists s', c s = Ok (a, s') /\ extends s s' /\ (wf s -> wf s').
Proof.
  intros [_ H].
  destruct (H s) as (s' & la & lo & E & Ea & _ & _ & Eo & _ & _ & El & Ec & En & _ & _ & W).
  exists s'. split; [exact E|]. split; [repeat split; eauto | exact W].
Qed.

Lemma runs_extends (QT : Tween -> Prop) (QO : ScrollTrigger -> Prop)
  (QL : Listener -> Prop) {A : Type} (c : M A) :
  runs QT QO QL c ->
  exists a, forall s, exists s', c s = Ok (a, s') /\ extends s s'
                                 /\ context s' = context s /\ nextCtx s' = nextCtx s.
Proof.
  intros (a & n & o & l & H). exists a. intros s. eapply adds_extends, H.
Qed.

Definition anyTween : Tween -> Prop := fun _ => True.
Definition anyTrigger : ScrollTrigger -> Prop := fun _ => True.
Definition anyListener : Listener -> Prop := fun _ => True.

Ltac run_any := run_with ltac:(exact I).

Lemma runs_heroTitle m r : runs anyTween anyTrigger anyListener (heroTitle m r).
Proof. unfold heroTitle. run_any. Qed.

Lemma runs_heroSubtitle m r tl : runs anyTween anyTrigger anyListener (heroSubtitle m r tl).
Proof. unfold heroSubtitle. run_any. Qed.

Lemma runs_heroButtons m r tl : runs anyTween anyTrigger anyListener (heroButtons m r tl).
Proof. unfold heroButtons. run_any. Qed.

Lemma runs_servicesSection m r : runs anyTween anyTrigger anyListener (servicesSection m r).
Proof. unfold servicesSection. run_any. Qed.

Lemma runs_projectsSection m r : runs anyTween anyTrigger anyListener (projectsSection m r).
Proof. unfold projectsSection. run_any. Qed.

Lemma runs_techSection m r : runs anyTween anyTrigger anyListener (techSection m r).
Proof. unfold techSection. run_any. Qed.

Lemma runs_aboutSection m r : runs anyTween anyTrigger anyListener (aboutSection m r).
Proof. unfold aboutSection. run_any. Qed.

Lemma runs_contactSection m r : runs anyTween anyTrigger anyListener (contactSection m r).
Proof. unfold contactSection. run_any. Qed.

Lemma runs_serviceHover r : runs anyTween anyTrigger anyListener (serviceHover r).
Proof. unfold serviceHover. run_any. Qed.

(** What one iteration of a loop establishes for its item holds for every
    item once the loop is over. *)
Lemma forEach_each {A : Type} (f : A -> nat -> M unit) (R : A -> nat -> State -> Prop) :
  (forall a i s, exists s', f a i s = Ok (tt, s') /\ extends s s' /\ R a i s') ->
  (forall a i s s', R a i s -> extends s s' -> R a i s') ->
  forall l i0 s, exists s',
    forEach l f i0 s = Ok (tt, s') /\ extends s s'
    /\ forall j a, nth_error l j = Some a -> R a (i0 + j)%nat s'.
Proof.
  intros Hf Hmono. induction l as [|x l IH]; intros i0 s; simpl.
  - exists s. split; [reflexivity|]. split; [apply extends_refl|].
    intros [|j] a Hj; discriminate.
  - destruct (Hf x i0 s) as (s1 & E1 & X1 & R1).
    destruct (IH (S i0) s1) as (s2 & E2 & X2 & R2).
    exists s2. unfold bind. rewrite E1. split; [exact E2|].
    split; [eapply extends_trans; eauto|].
    intros [|j] a Hj; simpl in Hj.
    + injection Hj as <-. rewrite Nat.add_0_r. eapply Hmono; eauto.
    + rewrite <- Nat.add_succ_comm. apply R2, Hj.
Qed.

Lemma bind_ok {A B : Type} (c : M A) (k : A -> M B) (s s1 : State) (a : A) :
  c s = Ok (a, s1) -> bind c k s = k a s1.
Proof. intros E. unfold bind. now rewrite E. Qed.

(** The entrance tween of one project card, as the effect creates it. *)
Definition projectEntrance (card : Node) (index : nat) (s : State) : Prop :=
  exists tw,
    In tw (animations s)
    /\ tw_targets tw = [uid card]
    /\ tw_from tw = Some (projectCardFrom index)
    /\ tw_vars tw = projectCardTo.

Lemma projectEntrance_extends card index s s' :
  projectEntrance card index s -> extends s s' -> projectEntrance card index s'.
Proof.
  intros (tw & Hin & H) X. exists tw. split; [eapply extends_animation; eauto | exact H].
Qed.

Lemma projectsSection_creates m r root s :
  projectsRef r = Some root ->
  exists s', projectsSection m r s = Ok (tt, s') /\ extends s s'
    /\ forall i card,
         nth_error (matchesIn (ByClass "project-card") root) i = Some card ->
         projectEntrance card i s'.
Proof.
  intros Href. unfold projectsSection. rewrite Href. cbn [isSome deref].
  change (bind (ret root) ?k) with (fun s => k root s).
  cbv beta.
  destruct (forEach_each
              (fun card index =>
                 fromTo m (element card) (projectCardFrom index) projectCardTo
                   (Some (scrollTriggerVars (element card) "top 85%" None
                            "play none none reverse")))
              projectEntrance) with (l := matchesIn (ByClass "project-card") root)
                                    (i0 := 0%nat) (s := s)
    as (s' & E & X & R).
  - intros card i s0. eexists. split; [reflexivity|]. split.
    + repeat split; cbn; try eexists; try reflexivity.
      rewrite app_nil_r. reflexivity.
    + eexists. split; [cbn; apply in_or_app; right; left; reflexivity|].
      repeat split.
  - apply projectEntrance_extends.
  - exists s'. split; [exact E|]. split; [exact X|]. exact R.
Qed.

(** The effect as a whole returns, whatever the refs hold. *)
Lemma initialize_runs m r : runs anyTween anyTrigger anyListener (initialize m r).
Proof.
  unfold initialize.
  apply runs_bind; [apply runs_heroTitle | intros tl1].
  apply runs_bind; [apply runs_heroSubtitle | intros tl2].
  apply runs_bind; [apply runs_heroButtons | intros tl3].
  apply runs_bind; [apply runs_servicesSection | intros _].
  apply runs_bind; [apply runs_projectsSection | intros _].
  apply runs_bind; [apply runs_techSection | intros _].
  apply runs_bind; [apply runs_aboutSection | intros _].
  apply runs_bind; [apply runs_contactSection | intros _].
  apply runs_serviceHover.
Qed.

Lemma mount_initialize m r s s' :
  initialize m r (setContext (Some (nextCtx s)) true s) = Ok (tt, s') ->
  mount m r s = Ok (nextCtx s, setContext (context s) false s').
Proof.
  intros E. unfold mount, gsap_context. now rewrite E.
Qed.

(** C10. For every project card at index [i] of the projects list, the
    effect creates an entrance tween for that card alone which starts
    at opacity 0 with x = -100 and rotation = -5 when [i] is even, and
    with x = 100 and rotation = 5 when [i] is odd, and which ends at
    opacity 1, x = 0 and rotation = 0. *)
Theorem project_cards_alternate (m : JsMath) (r : Refs) (s : State)
  (root card : Node) (i : nat) :
  projectsRef r = Some root ->
  nth_error (matchesIn (ByClass "project-card") root) i = Some card ->
  exists ctx s' tw,
    mount m r s = Ok (ctx, s')
    /\ In tw (animations s')
    /\ tw_targets tw = [uid card]
    /\ (Nat.even i = true ->
        tw_from tw = Some [num p_opacity 0; num p_x (-100); num p_rotation (-5)])
    /\ (Nat.odd i = true ->
        tw_from tw = Some [num p_opacity 0; num p_x 100; num p_rotation 5])
    /\ props (tw_vars tw) = [num p_opacity 1; num p_x 0; num p_rotation 0].
Proof.
  intros Href Hcard.
  set (s0 := setContext (Some (nextCtx s)) true s).
  destruct (runs_extends _ _ _ _ (runs_heroTitle m r)) as [tl1 H1].
  destruct (H1 s0) as (s1 & E1 & _).
  destruct (runs_extends _ _ _ _ (runs_heroSubtitle m r tl1)) as [tl2 H2].
  destruct (H2 s1) as (s2 & E2 & _).
  destruct (runs_extends _ _ _ _ (runs_heroButtons m r tl2)) as [tl3 H3].
  destruct (H3 s2) as (s3 & E3 & _).
  destruct (runs_extends _ _ _ _ (runs_servicesSection m r)) as [[] H4].
  destruct (H4 s3) as (s4 & E4 & _).
  destruct (projectsSection_creates m r root s4 Href) as (s5 & E5 & _ & R5).
  assert (Hrest : runs anyTween anyTrigger anyListener
                    (bind (techSection m r) (fun _ =>
                     bind (aboutSection m r) (fun _ =>
                     bind (contactSection m r) (fun _ => serviceHover r))))).
  { apply runs_bind; [apply runs_techSection | intros _].
    apply runs_bind; [apply runs_aboutSection | intros _].
    apply runs_bind; [apply runs_contactSection | intros _].
    apply runs_serviceHover. }
  destruct (runs_extends _ _ _ _ Hrest) as [[] H6].
  destruct (H6 s5) as (s6 & E6 & X6 & _).
  destruct (R5 i card Hcard) as (tw & Hin & Ht & Hf & Hv).
  exists (nextCtx s), (setContext (context s) false s6), tw.
  split.
  { apply mount_initialize. fold s0. unfold initialize.
    rewrite (bind_ok _ _ _ _ _ E1), (bind_ok _ _ _ _ _ E2), (bind_ok _ _ _ _ _ E3),
      (bind_ok _ _ _ _ _ E4), (bind_ok _ _ _ _ _ E5).
    exact E6. }
  split; [apply (extends_animation s5 s6 tw X6 Hin)|].
  split; [exact Ht|].
  unfold projectCardFrom in Hf.
  repeat split.
  - intros Hev. rewrite Hf.
    apply Nat.even_spec in Hev. destruct Hev as [k ->].
    replace ((2 * k) mod 2)%nat with 0%nat; [reflexivity|].
    symmetry. rewrite Nat.mul_comm. apply Nat.Div0.mod_mul.
  - intros Hod. rewrite Hf.
    apply Nat.odd_spec in Hod. destruct Hod as [k ->].
    replace ((2 * k + 1) mod 2)%nat with 1%nat; [reflexivity|].
    symmetry. rewrite Nat.add_comm, Nat.mul_comm, Nat.Div0.mod_add. reflexivity.
  - rewrite Hv. reflexivity.
Qed.

(** The second card of the page slides in from the right. *)
Lemma project_cards_alternate_witness :
  exists ctx s' tw,
    mount sampleMath pageRefs emptyState = Ok (ctx, s')
    /\ In tw (animations s')
    /\ tw_targets tw = [53%nat]
    /\ (Nat.even 1 = true ->
        tw_from tw = Some [num p_opacity 0; num p_x (-100); num p_rotation (-5)])
    /\ (Nat.odd 1 = true ->
        tw_from tw = Some [num p_opacity 0; num p_x 100; num p_rotation 5])
    /\ props (tw_vars tw) = [num p_opacity 1; num p_x 0; num p_rotation 0].
Proof.
  apply (project_cards_alternate sampleMath pageRefs emptyState projectsNode
           (Element 53 "div" ["project-card"] ""
              [Element 54 "div" [] "" [Element 55 "img" [] "" []; Element 56 "div" [] "" []];
               Element 57 "div" [] ""
                 [Element 58 "h3" [] "EcoCommerce Platform" []; Element 59 "p" [] "" []];
               Element 60 "div" [] "" [Element 61 "div" [] "" []]]) 1%nat);
    reflexivity.
Defined.

(* ------------------------------------------------------------------ *)
(** *** Stagger offsets *)

Lemma fold_max_ge (l : list Q) (a : Q) :
  a <= fold_left (fun mx d => if Qlt_le_dec mx d then d else mx) l a
  /\ forall x, In x l ->
       x <= fold_left (fun mx d => if Qlt_le_dec mx d then d else mx) l a.
Proof.
  revert a. induction l as [|d l IH]; intros a; simpl.
  - split; [apply Qle_refl | intros x []].
  - destruct (Qlt_le_dec a d) as [Hlt|Hle].
    + destruct (IH d) as [H1 H2]. split.
      * apply Qle_trans with d; [apply Qlt_le_weak, Hlt | exact H1].
      * intros x [<-|Hx]; auto.
    + destruct (IH a) as [H1 H2]. split; [exact H1|].
      intros x [<-|Hx]; auto.
      apply Qle_trans with a; auto.
Qed.

Lemma fold_max_is (l : list Q) (a : Q) :
  fold_left (fun mx d => if Qlt_le_dec mx d then d else mx) l a = a
  \/ In (fold_left (fun mx d => if Qlt_le_dec mx d then d else mx) l a) l.
Proof.
  revert a. induction l as [|d l IH]; intros a; simpl.
  - now left.
  - destruct (Qlt_le_dec a d) as [Hlt|Hle].
    + destruct (IH d) as [->|H]; [right; now left | right; now right].
    + destruct (IH a) as [->|H]; [now left | right; now right].
Qed.

Lemma fold_min_le (l : list Q) (a : Q) :
  fold_left (fun mn d => if Qlt_le_dec d mn then d else mn) l a <= a
  /\ forall x, In x l ->
       fold_left (fun mn d => if Qlt_le_dec d mn then d else mn) l a <= x.
Proof.
  revert a. induction l as [|d l IH]; intros a; simpl.
  - split; [apply Qle_refl | intros x []].
  - destruct (Qlt_le_dec d a) as [Hlt|Hle].
    + destruct (IH d) as [H1 H2]. split.
      * apply Qle_trans with d; [exact H1 | apply Qlt_le_weak, Hlt].
      * intros x [<-|Hx]; auto.
    + destruct (IH a) as [H1 H2]. split; [exact H1|].
      intros x [<-|Hx]; auto.
      apply Qle_trans with a; auto.
Qed.

Lemma fold_min_is (l : list Q) (a : Q) :
  fold_left (fun mn d => if Qlt_le_dec d mn then d else mn) l a = a
  \/ In (fold_left (fun mn d => if Qlt_le_dec d mn then d else mn) l a) l.
Proof.
  revert a. induction l as [|d l IH]; intros a; simpl.
  - now left.
  - destruct (Qlt_le_dec d a) as [Hlt|Hle].
    + destruct (IH d) as [->|H]; [right; now left | right; now right].
    + destruct (IH a) as [->|H]; [now left | right; now right].
Qed.

(** A distance relative to the least and greatest is a ratio in [0, 1]. *)
Lemma ratio_bounds (d mn mx : Q) :
  mn <= d -> d <= mx -> 0 <= (d - mn) / (mx - mn) <= 1.
Proof.
  intros H1 H2.
  destruct (Qeq_dec (mx - mn) 0) as [E|NE].
  - assert (E' : (d - mn) / (mx - mn) == 0).
    { unfold Qdiv. rewrite E. unfold Qinv. simpl. ring. }
    rewrite E'. split; [apply Qle_refl | discriminate].
  - assert (Hpos : 0 < mx - mn).
    { apply Qle_lt_or_eq in H1. apply Qle_lt_or_eq in H2.
      destruct (Qlt_le_dec 0 (mx - mn)) as [H|H]; [exact H|].
      exfalso. apply NE.
      apply Qle_antisym; [exact H|].
      setoid_replace 0 with (mn - mn) by ring.
      apply Qplus_le_compat; [|apply Qle_refl].
      destruct H1 as [H1|H1], H2 as [H2|H2].
      - apply Qlt_le_weak. apply Qlt_trans with d; auto.
      - rewrite <- H2. apply Qlt_le_weak; auto.
      - rewrite H1. apply Qlt_le_weak; auto.
      - rewrite H1, H2. apply Qle_refl. }
    split.
    + apply Qle_shift_div_l; [exact Hpos|]. rewrite Qmult_0_l.
      setoid_replace 0 with (mn - mn) by ring.
      apply Qplus_le_compat; [exact H1 | apply Qle_refl].
    + apply Qle_shift_div_r; [exact Hpos|]. rewrite Qmult_1_l.
      apply Qplus_le_compat; [exact H2 | apply Qle_refl].
Qed.

Definition boundedEase (e : option Ease) : bool :=
  match e with
  | None | Some power1_out | Some power2_out | Some power3_out => true
  | _ => false
  end.

Definition staggerCurve (m : JsMath) (e : option Ease) : Q -> Q :=
  match e with Some e => easeRatio m e | None => fun r => r end.

Lemma boundedEase_bounds (m : JsMath) (e : option Ease) (r : Q) :
  boundedEase e = true -> 0 <= r <= 1 -> 0 <= staggerCurve m e r <= 1.
Proof.
  intros He [H0 H1].
  destruct e as [[| | |s|]|]; try discriminate; simpl.
  - split; lra.
  - split; nra.
  - assert (H2 : 0 <= (1 - r) * (1 - r) <= 1) by (split; nra).
    split; nra.
  - split; assumption.
Qed.

(** With an amount, every start offset lies between 0 and the amount. *)
Lemma amount_offsets_within (m : JsMath) (amount : Q) (from : StaggerFrom)
  (grid : option (nat * nat)) (e : option Ease) (N : nat) :
  0 <= amount ->
  boundedEase e = true ->
  (forall l x, In x (shuffle m l) -> In x l) ->
  Forall (fun o => 0 <= o <= amount)
         (distribute m (stagger_amount amount from grid e) N).
Proof.
  intros Ha He Hsh. unfold distribute.
  set (ds := map (distance m (Some from) grid (Z.of_nat N)) (indices N)).
  set (ds' := match from with from_random => shuffle m ds | _ => ds end).
  assert (Hin : forall x, In x ds' -> In x ds).
  { intros x. unfold ds'. destruct from; auto. }
  apply Forall_forall. intros o Ho.
  apply in_map_iff in Ho. destruct Ho as (d & <- & Hd).
  apply Hin in Hd.
  destruct (fold_max_ge ds 0) as [_ Hmx].
  destruct (fold_min_le ds (inject_Z bigNum)) as [_ Hmn].
  pose proof (ratio_bounds d (Qminl ds) (Qmaxl ds) (Hmn d Hd) (Hmx d Hd)) as Hr.
  assert (Hc : 0 <= staggerCurve m e ((d - Qminl ds) / (Qmaxl ds - Qminl ds)) <= 1)
    by (apply boundedEase_bounds; assumption).
  assert (Hcurve :
            (match e with Some e0 => easeRatio m e0 | None => fun r => r end)
              ((d - Qminl ds) / (Qmaxl ds - Qminl ds))
            = staggerCurve m e ((d - Qminl ds) / (Qmaxl ds - Qminl ds)))
    by (destruct e; reflexivity).
  rewrite Hcurve.
  destruct Hc as [Hc0 Hc1].
  split.
  - apply Qmult_le_0_compat; assumption.
  - setoid_replace amount with (1 * amount) at 2 by ring.
    apply Qmult_le_compat_r; assumption.
Qed.

Lemma spread_le (l : list Q) (b : Q) :
  0 <= b -> Forall (fun o => o <= b) l -> spread l <= b.
Proof.
  intros Hb Hl. unfold spread.
  destruct (fold_max_is l 0) as [->|Hin]; [exact Hb|].
  rewrite Forall_forall in Hl. auto.
Qed.

Lemma distance_each (m : JsMath) (l j : Z) :
  (0 <= j < bigNum)%Z -> distance m None None l j == inject_Z j.
Proof.
  intros Hj. unfold distance, wrapOf.
  change (Z.eqb bigNum bigNum) with true. cbv iota.
  change (0 mod bigNum)%Z with 0%Z.
  rewrite Z.mod_small, Z.div_small by exact Hj.
  unfold norm.
  change (Qeq_bool (0 - inject_Z 0) 0) with true. cbv iota.
  rewrite Qabs_pos.
  - unfold Qminus. change (- inject_Z 0) with 0. apply Qplus_0_r.
  - unfold Qminus. change (- inject_Z 0) with 0. rewrite Qplus_0_r.
    change 0 with (inject_Z 0). rewrite <- Zle_Qle. apply Hj.
Qed.

Lemma nth_error_lt {A : Type} (l : list A) (j : nat) (x : A) :
  nth_error l j = Some x -> (j < List.length l)%nat.
Proof. intros E. apply nth_error_Some. congruence. Qed.

Lemma indices_nth (N j : nat) :
  (j < N)%nat -> nth_error (indices N) j = Some (Z.of_nat j).
Proof.
  intros H. unfold indices. rewrite nth_error_map, nth_error_seq.
  destruct (Nat.ltb_spec j N); [reflexivity | lia].
Qed.

Lemma indices_in (N : nat) (z : Z) :
  In z (indices N) -> exists j, z = Z.of_nat j /\ (j < N)%nat.
Proof.
  unfold indices. intros H. apply in_map_iff in H. destruct H as (j & <- & Hj).
  apply in_seq in Hj. exists j. split; [reflexivity | lia].
Qed.

Section EachStagger.

Variable m : JsMath.
Variable N : nat.
Hypothesis N_small : (Z.of_nat N < bigNum)%Z.

Let ds := map (distance m None None (Z.of_nat N)) (indices N).

Lemma each_distances_in (d : Q) :
  In d ds -> exists j, (j < N)%nat /\ d == inject_Z (Z.of_nat j).
Proof.
  intros H. apply in_map_iff in H. destruct H as (z & <- & Hz).
  apply indices_in in Hz. destruct Hz as (j & -> & Hj).
  exists j. split; [exact Hj|]. apply distance_each. lia.
Qed.

Lemma each_distances_nth (j : nat) :
  (j < N)%nat -> exists d, nth_error ds j = Some d /\ In d ds /\ d == inject_Z (Z.of_nat j).
Proof.
  intros Hj. exists (distance m None None (Z.of_nat N) (Z.of_nat j)).
  assert (E : nth_error ds j = Some (distance m None None (Z.of_nat N) (Z.of_nat j))).
  { unfold ds. rewrite nth_error_map, indices_nth by exact Hj. reflexivity. }
  split; [exact E|]. split; [eapply nth_error_In, E|]. apply distance_each. lia.
Qed.

Lemma each_min : Qminl ds == 0 \/ N = 0%nat.
Proof.
  destruct (Nat.eq_dec N 0) as [EN|NE]; [now right | left].
  destruct (each_distances_nth 0) as (d0 & _ & Hin0 & Hd0); [lia|].
  destruct (fold_min_le ds (inject_Z bigNum)) as [_ Hle].
  apply Qle_antisym.
  - rewrite <- Hd0. apply Hle, Hin0.
  - destruct (fold_min_is ds (inject_Z bigNum)) as [E|Hin].
    + unfold Qminl. rewrite E. discriminate.
    + apply each_distances_in in Hin. destruct Hin as (j & _ & Hj).
      unfold Qminl. rewrite Hj. change 0 with (inject_Z 0).
      rewrite <- Zle_Qle. lia.
Qed.

Lemma each_max : Qmaxl ds == inject_Z (Z.of_nat N - 1) \/ N = 0%nat.
Proof.
  destruct (Nat.eq_dec N 0) as [EN|NE]; [now right | left].
  destruct (each_distances_nth (N - 1)) as (dn & _ & Hinn & Hdn); [lia|].
  destruct (fold_max_ge ds 0) as [_ Hge].
  replace (Z.of_nat (N - 1)) with (Z.of_nat N - 1)%Z in Hdn by lia.
  apply Qle_antisym.
  - destruct (fold_max_is ds 0) as [E|Hin].
    + unfold Qmaxl. rewrite E. change 0 with (inject_Z 0).
      rewrite <- Zle_Qle. lia.
    + apply each_distances_in in Hin. destruct Hin as (j & Hlt & Hj).
      unfold Qmaxl. rewrite Hj. rewrite <- Zle_Qle. lia.
  - rewrite <- Hdn. apply Hge, Hinn.
Qed.

(** A plain number adds itself per item: item [j] starts [j * each]
    after the first. *)
Lemma each_offsets (each : Q) (j : nat) (o : Q) :
  nth_error (distribute m (stagger_each each) N) j = Some o ->
  o == inject_Z (Z.of_nat j) * each.
Proof.
  unfold distribute. fold ds.
  rewrite nth_error_map.
  destruct (nth_error ds j) as [d|] eqn:E; [|discriminate].
  intros [= <-].
  assert (Hj : (j < N)%nat).
  { apply nth_error_lt in E. unfold ds in E.
    rewrite length_map in E. unfold indices in E.
    now rewrite length_map, length_seq in E. }
  destruct (each_distances_nth j Hj) as (d' & E' & _ & Hd).
  rewrite E in E'. injection E' as <-.
  destruct each_min as [Hmn|HN]; [|lia].
  destruct each_max as [Hmx|HN]; [|lia].
  unfold wrapOf.
  destruct (Z.ltb_spec (Z.of_nat N) bigNum) as [_|Hge]; [|lia].
  rewrite Hd, Hmn, Hmx.
  destruct (Nat.eq_dec N 1) as [->|HN1].
  - assert (j = 0)%nat by lia. subst j. simpl. unfold Qdiv. ring.
  - assert (Hnz : ~ inject_Z (Z.of_nat N - 1) == 0).
    { change 0 with (inject_Z 0). rewrite inject_Z_injective. lia. }
    field. exact Hnz.
Qed.

Lemma each_length (each : Q) :
  List.length (distribute m (stagger_each each) N) = N.
Proof.
  unfold distribute, indices. now rewrite !length_map, length_seq.
Qed.

(** The spread of a plain number grows with the number of targets. *)
Lemma each_spread (each : Q) :
  0 <= each -> (1 <= N)%nat ->
  spread (distribute m (stagger_each each) N) == inject_Z (Z.of_nat N - 1) * each.
Proof.
  intros He HN.
  set (l := distribute m (stagger_each each) N).
  assert (Hall : forall o, In o l -> o <= inject_Z (Z.of_nat N - 1) * each).
  { intros o Ho. apply In_nth_error in Ho. destruct Ho as [j Hj].
    pose proof (nth_error_lt _ _ _ Hj) as Hlt.
    unfold l in Hlt. rewrite each_length in Hlt.
    rewrite (each_offsets each j o Hj).
    apply Qmult_le_compat_r; [|exact He].
    rewrite <- Zle_Qle. lia. }
  assert (Hlast : exists o, In o l /\ o == inject_Z (Z.of_nat N - 1) * each).
  { destruct (nth_error l (N - 1)) as [o|] eqn:E.
    - exists o. split; [eapply nth_error_In, E|].
      rewrite (each_offsets each _ o E).
      replace (Z.of_nat (N - 1)) with (Z.of_nat N - 1)%Z by lia. reflexivity.
    - apply nth_error_None in E. unfold l in E. rewrite each_length in E. lia. }
  destruct Hlast as (o & Hin & Ho).
  destruct (fold_max_ge l 0) as [H0 Hge].
  apply Qle_antisym.
  - destruct (fold_max_is l 0) as [E|Hin'].
    + unfold spread. rewrite E.
      apply Qmult_le_0_compat; [|exact He].
      change 0 with (inject_Z 0). rewrite <- Zle_Qle. lia.
    + apply Hall, Hin'.
  - rewrite <- Ho. apply Hge, Hin.
Qed.

End EachStagger.

(** The number a stagger value configures. *)
Definition staggerBudget (s : Stagger) : Q :=
  match s with
  | stagger_each each => each
  | stagger_amount amount _ _ _ => amount
  end.

(** The reading of C5 on one rule: however many targets, the first and
    the last start no further apart than the configured number. *)
Definition spreadWithinBudget (m : JsMath) (v : TweenVars) : Prop :=
  forall s, stagger v = Some s ->
  forall N, spread (distribute m s N) <= staggerBudget s.

(** C5, counterexample.  The service cards are staggered by the plain
    number 0.2: with the page's three cards the last one starts 0.4 s
    after the first, beyond the configured 0.2. *)
Lemma service_cards_spread_exceeds_budget :
  ~ spreadWithinBudget sampleMath serviceCardsVars.
Proof.
  intros H. specialize (H _ eq_refl 3%nat).
  vm_compute in H. apply H. reflexivity.
Qed.

(** C5, amended.  The rules staggered by a plain number (hero buttons,
    service cards, contact items, form inputs) add that number per item:
    item [j] starts [j * each] after the first, and the spread is
    [(N - 1) * each].  The rules staggered by an amount (badge entrance,
    badge wave, about icons) divide it: every start offset lies between
    0 and the amount, and so does the spread, whatever [N]. *)
Theorem stagger_spread (m : JsMath) (N : nat) :
  (Z.of_nat N < bigNum)%Z ->
  (1 <= N)%nat ->
  (forall l x, In x (shuffle m l) -> In x l) ->
  (forall v,
      In v [heroButtonsVars; serviceCardsVars; contactItemsVars; formInputsVars] ->
      exists each,
        stagger v = Some (stagger_each each)
        /\ (forall j o, nth_error (startOffsets m (stagger v) N) j = Some o ->
                        o == inject_Z (Z.of_nat j) * each)
        /\ spread (startOffsets m (stagger v) N) == inject_Z (Z.of_nat N - 1) * each)
  /\ (forall v,
        In v [badgeEntrance; badgeWaveVars; iconEntrance] ->
        exists amount from grid e,
          stagger v = Some (stagger_amount amount from grid e)
          /\ Forall (fun o => 0 <= o <= amount) (startOffsets m (stagger v) N)
          /\ spread (startOffsets m (stagger v) N) <= amount).
Proof.
  intros Hsmall HN Hsh. split.
  - intros v Hv.
    assert (Hcase : exists each, stagger v = Some (stagger_each each) /\ 0 <= each).
    { simpl in Hv.
      destruct Hv as [<-|[<-|[<-|[<-|[]]]]]; eexists; (split; [reflexivity | discriminate]). }
    destruct Hcase as (each & E & Hpos).
    exists each. split; [exact E|]. rewrite E. simpl. split.
    + intros j o. apply each_offsets, Hsmall.
    + apply each_spread; assumption.
  - intros v Hv.
    assert (Hcase : exists amount from grid e,
               stagger v = Some (stagger_amount amount from grid e)
               /\ 0 <= amount /\ boundedEase e = true).
    { simpl in Hv.
      destruct Hv as [<-|[<-|[<-|[]]]]; do 4 eexists;
        (split; [reflexivity | split; [discriminate | reflexivity]]). }
    destruct Hcase as (amount & from & grid & e & E & Hpos & He).
    exists amount, from, grid, e. split; [exact E|]. rewrite E. simpl.
    pose proof (amount_offsets_within m amount from grid e N Hpos He Hsh) as Hall.
    split; [exact Hall|].
    apply spread_le; [exact Hpos|].
    eapply Forall_impl; [|exact Hall]. intros o [_ Ho]. exact Ho.
Qed.

(** Three targets in the sample environment. *)
Lemma stagger_spread_witness :
  (forall v,
      In v [heroButtonsVars; serviceCardsVars; contactItemsVars; formInputsVars] ->
      exists each,
        stagger v = Some (stagger_each each)
        /\ (forall j o, nth_error (startOffsets sampleMath (stagger v) 3) j = Some o ->
                        o == inject_Z (Z.of_nat j) * each)
        /\ spread (startOffsets sampleMath (stagger v) 3) == inject_Z (Z.of_nat 3 - 1) * each)
  /\ (forall v,
        In v [badgeEntrance; badgeWaveVars; iconEntrance] ->
        exists amount from grid e,
          stagger v = Some (stagger_amount amount from grid e)
          /\ Forall (fun o => 0 <= o <= amount) (startOffsets sampleMath (stagger v) 3)
          /\ spread (startOffsets sampleMath (stagger v) 3) <= amount).
Proof.
  apply (stagger_spread sampleMath 3).
  - reflexivity.
  - lia.
  - intros l x H. apply in_rev. exact H.
Defined.

(* ------------------------------------------------------------------ *)
(** *** Elements that are there *)
























Lemma wf_enter_context (s : State) :
  wf s -> wf (setContext (Some (nextCtx s)) true s).
Proof.
  intros (Wa & Wo & Wc). unfold wf. cbn. repeat apply conj.
  - eapply Forall_impl; [|exact Wa]. intros tw [H1 H2].
    split; [exact H1 | eapply ctxBelow_le; eauto].
  - eapply Forall_impl; [|exact Wo]. intros t (H1 & H2 & H3).
    split; [exact H1|]. split; [eapply ctxBelow_le; eauto | exact H3].
  - lia.
Qed.

Lemma wf_leave_context (s : State) (o : option nat) :
  wf s -> ctxBelow o (nextCtx s) -> wf (setContext o false s).
Proof.
  intros (Wa & Wo & Wc) Ho. unfold wf. cbn. repeat apply conj; assumption.
Qed.

(** The effect as run by [mount]: what [initialize] adds is recorded
    under the new context. *)
Lemma mount_adds (QT : Tween -> Prop) (QO : ScrollTrigger -> Prop)
  (QL : Listener -> Prop) (m : JsMath) (r : Refs) :
  runs QT QO QL (initialize m r) ->
  exists na no ll,
    Forall QL ll
    /\ forall s, exists s' la lo,
        mount m r s = Ok (nextCtx s, s')
        /\ animations s' = animations s ++ la /\ List.length la = na /\ Forall QT la
        /\ observers s' = observers s ++ lo /\ List.length lo = no /\ Forall QO lo
        /\ listeners s' = listeners s ++ ll
        /\ context s' = context s /\ nextCtx s' = S (nextCtx s)
        /\ Forall (fun tw => tw_ctx tw = Some (nextCtx s)) la
        /\ Forall (fun t => st_ctx t = Some (nextCtx s)) lo
        /\ (wf s -> wf s').
Proof.
  intros ([] & na & no & ll & Fl & H). exists na, no, ll. split; [exact Fl|].
  intros s.
  destruct (H (setContext (Some (nextCtx s)) true s))
    as (s1 & la & lo & E & Ea & Na & Fa & Eo & No & Fo & El & Ec & En & Ca & Co & W).
  exists (setContext (context s) false s1), la, lo.
  split; [apply mount_initialize, E|].
  cbn in *. repeat apply conj; auto.
  intros Ws. apply wf_leave_context.
  - apply W, wf_enter_context, Ws.
  - rewrite En. destruct Ws as (_ & _ & Wc). eapply ctxBelow_le; eauto.
Qed.


(* ------------------------------------------------------------------ *)
(** *** Mounting, unmounting, mounting again *)

Lemma filter_all_false {A : Type} (f : A -> bool) (l : list A) :
  Forall (fun x => f x = false) l -> filter f l = [].
Proof.
  induction 1 as [|x l Hx _ IH]; simpl; [reflexivity|]. now rewrite Hx.
Qed.

Lemma filter_all_true {A : Type} (f : A -> bool) (l : list A) :
  Forall (fun x => f x = true) l -> filter f l = l.
Proof.
  induction 1 as [|x l Hx _ IH]; simpl; [reflexivity|]. now rewrite Hx, IH.
Qed.

Lemma recordedBy_below (c : nat) (o : option nat) :
  ctxBelow o c -> recordedBy c o = false.
Proof.
  destruct o as [c'|]; simpl; [|reflexivity].
  intros H. apply Nat.eqb_neq. lia.
Qed.

Lemma recordedBy_same (c : nat) : recordedBy c (Some c) = true.
Proof. simpl. apply Nat.eqb_refl. Qed.

(** Reverting the context of a mount removes the tweens and the scroll
    triggers that mount added, and nothing else; the listeners stay. *)
Lemma revert_after_mount (s s' : State) (la : list Tween) (lo : list ScrollTrigger) :
  wf s ->
  animations s' = animations s ++ la ->
  observers s' = observers s ++ lo ->
  Forall (fun tw => tw_ctx tw = Some (nextCtx s)) la ->
  Forall (fun t => st_ctx t = Some (nextCtx s)) lo ->
  animations (revert (nextCtx s) s') = animations s
  /\ observers (revert (nextCtx s) s') = observers s
  /\ listeners (revert (nextCtx s) s') = listeners s'.
Proof.
  intros (Wa & Wo & _) Ea Eo Ca Co. unfold revert. cbn.
  rewrite Ea, Eo, !filter_app. repeat apply conj; [| |reflexivity].
  - rewrite (filter_all_true _ (animations s)), (filter_all_false _ la), app_nil_r;
      [reflexivity | |].
    + eapply Forall_impl; [|exact Ca]. intros tw ->. now rewrite recordedBy_same.
    + eapply Forall_impl; [|exact Wa]. intros tw [_ H]. now rewrite recordedBy_below.
  - rewrite (filter_all_true _ (observers s)), (filter_all_false _ lo), app_nil_r;
      [reflexivity | |].
    + eapply Forall_impl; [|exact Co]. intros t ->. now rewrite recordedBy_same.
    + eapply Forall_impl; [|exact Wo]. intros t (_ & H & _). now rewrite recordedBy_below.
Qed.

Lemma wf_revert (c : nat) (s : State) : wf s -> wf (revert c s).
Proof.
  intros (Wa & Wo & Wc). unfold wf, revert. cbn. repeat apply conj.
  - apply Forall_forall. intros tw Htw. apply filter_In in Htw. destruct Htw as [Htw _].
    rewrite Forall_forall in Wa. apply Wa, Htw.
  - apply Forall_forall. intros t Ht. apply filter_In in Ht. destruct Ht as [Ht _].
    rewrite Forall_forall in Wo. destruct (Wo t Ht) as (H1 & H2 & H3).
    split; [exact H1|]. split; [exact H2|].
    intros aid Haid. destruct (H3 aid Haid) as [Hlt Hall]. cbn. split; [exact Hlt|].
    apply Forall_forall. intros tw Htw. apply filter_In in Htw. destruct Htw as [Htw _].
    rewrite Forall_forall in Hall. apply Hall, Htw.
  - exact Wc.
Qed.





(** C1, on the code.  Mount the page and unmount it: the tweens and the
    scroll triggers are gone, but the 56 listeners the effect added are
    all still on their elements, and a pointer entering the first
    technology badge still runs its handler, which starts a tween that
    no context holds. *)
Theorem listeners_survive_unmount :
  exists ctx s1 s2 s3,
    mount sampleMath pageRefs emptyState = Ok (ctx, s1)
    /\ unmount ctx s1 = Ok (tt, s2)
    /\ animations s2 = []
    /\ observers s2 = []
    /\ List.length (listeners s1) = 56%nat
    /\ listeners s2 = listeners s1
    /\ run sampleMath [Event 78%nat "mouseenter"] s2 = Ok s3
    /\ map (fun tw => (tw_targets tw, tw_ctx tw, props (tw_vars tw))) (animations s3)
       = [([78%nat], None,
           [num p_scale 1.1; num p_y (-8);
            str p_boxShadow "0 10px 25px rgba(0, 255, 255, 0.3)"])].
Proof.
  pose (s1 := match mount sampleMath pageRefs emptyState with
              | Ok (_, s) => s | Throw _ => emptyState end).
  pose (s2 := revert 0 s1).
  pose (s3 := match run sampleMath [Event 78%nat "mouseenter"] s2 with
              | Ok s => s | Throw _ => emptyState end).
  exists 0%nat, s1, s2, s3.
  repeat apply conj; vm_compute; reflexivity.
Qed.

(* ------------------------------------------------------------------ *)
(** *** A tween from its start to its end and back *)

Lemma progressAt_start (v : TweenVars) :
  0 < duration v -> progressAt v 0 == 0.
Proof.
  intros Hd. unfold progressAt.
  destruct (Qeq_bool (duration v) 0) eqn:E.
  { apply Qeq_bool_iff in E. rewrite E in Hd. discriminate. }
  set (capped := match totalLocal v with Some T => Qmin 0 T | None => 0 end).
  assert (Hc : capped == 0).
  { unfold capped, totalLocal. destruct (repeat v) as [n|]; [|reflexivity].
    apply Q.min_l. apply Qmult_le_0_compat; [apply Qlt_le_weak, Hd|].
    change 0 with (inject_Z 0). rewrite <- Zle_Qle. lia. }
  assert (Hq : capped / duration v == 0).
  { rewrite Hc. unfold Qdiv. ring. }
  assert (Hk : Qfloor (capped / duration v) = 0%Z).
  { rewrite (Qfloor_comp _ _ Hq). reflexivity. }
  rewrite Hk. change (0 <? 0)%Z with false. rewrite andb_false_r.
  change (Z.odd 0) with false. rewrite andb_false_r.
  rewrite Hq. reflexivity.
Qed.

Lemma progressAt_end (v : TweenVars) :
  0 < duration v -> repeat v = times 0 -> yoyo v = false ->
  progressAt v (duration v) == 1.
Proof.
  intros Hd Hr Hy. unfold progressAt.
  destruct (Qeq_bool (duration v) 0) eqn:E.
  { apply Qeq_bool_iff in E. rewrite E in Hd. discriminate. }
  unfold totalLocal. rewrite Hr, Hy.
  set (capped := Qmin (duration v) (duration v * inject_Z (Z.of_nat 1))).
  assert (Hc : capped == duration v).
  { unfold capped. apply Q.min_l. simpl. rewrite Qmult_1_r. apply Qle_refl. }
  assert (Hq : capped / duration v == 1).
  { rewrite Hc. field. intros H0. rewrite H0 in Hd. discriminate. }
  assert (Hk : Qfloor (capped / duration v) = 1%Z).
  { rewrite (Qfloor_comp _ _ Hq). reflexivity. }
  rewrite Hk.
  assert (Hf : Qeq_bool (capped / duration v - inject_Z 1) 0 = true).
  { apply Qeq_bool_iff. rewrite Hq. reflexivity. }
  rewrite Hf. simpl. reflexivity.
Qed.

(** The eases of the entrance tweens. *)
Definition entranceEase (e : Ease) : bool :=
  match e with
  | power2_out | power3_out | back_out _ => true
  | _ => false
  end.

Lemma entranceEase_start (m : JsMath) (e : Ease) (p : Q) :
  entranceEase e = true -> p == 0 -> easeRatio m e p == 0.
Proof.
  intros He Hp. destruct e; try discriminate; simpl.
  - rewrite Hp. ring.
  - rewrite Hp. ring.
  - assert (E : Qeq_bool p 0 = true) by (apply Qeq_bool_iff, Hp).
    rewrite E. reflexivity.
Qed.

Lemma entranceEase_end (m : JsMath) (e : Ease) (p : Q) :
  entranceEase e = true -> p == 1 -> easeRatio m e p == 1.
Proof.
  intros He Hp. destruct e; try discriminate; simpl.
  - rewrite Hp. ring.
  - rewrite Hp. ring.
  - assert (E : Qeq_bool p 0 = false).
    { destruct (Qeq_bool p 0) eqn:E; [|reflexivity].
      apply Qeq_bool_iff in E. rewrite Hp in E. discriminate. }
    rewrite E, Hp. ring.
Qed.

(** An entrance tween shows its start values at local time 0 and its end
    values at the end of its duration. *)
Definition entranceShape (v : TweenVars) : Prop :=
  entranceEase (ease v) = true /\ 0 < duration v
  /\ repeat v = times 0 /\ yoyo v = false.

Lemma entrance_from_to (m : JsMath) (v : TweenVars) (s target : Q) :
  entranceShape v ->
  interpolate m v s target 0 == s
  /\ interpolate m v s target (duration v) == target.
Proof.
  intros (He & Hd & Hr & Hy). unfold interpolate. split.
  - rewrite (entranceEase_start m _ _ He (progressAt_start v Hd)). ring.
  - rewrite (entranceEase_end m _ _ He (progressAt_end v Hd Hr Hy)). ring.
Qed.

(** Reversed, a tween is back at its start once the time it had played
    has passed again. *)
Lemma reverse_returns (tw : Tween) (dt : Q) :
  tw_time tw <= dt ->
  let tw' := applyAction a_reverse tw in
  tw_paused tw' = false /\ tw_reversed tw' = true /\ advance dt tw' == 0.
Proof.
  intros H. cbn. repeat apply conj; try reflexivity.
  unfold advance. cbn. apply Q.max_l. lra.
Qed.

(** Played, it reaches its end once its whole length has passed. *)
Lemma play_settles (tw : Tween) (dt E : Q) :
  tweenEnd tw = Some E -> E <= tw_time tw + dt ->
  let tw' := applyAction a_play tw in
  tw_paused tw' = false /\ tw_reversed tw' = false /\ advance dt tw' == E.
Proof.
  intros HE H. cbn. repeat apply conj; try reflexivity.
  unfold advance. cbn. unfold tweenEnd in *. cbn.
  destruct (totalLocal (tw_vars tw)); [|discriminate].
  injection HE as <-. apply Q.min_l. exact H.
Qed.

(* ------------------------------------------------------------------ *)
(** *** Scroll triggers *)

(** What the effect's scroll triggers are: one that controls a tween
    plays it on Enter and reverses it on LeaveBack; one without a tween
    only has its onEnter callback. *)
Definition triggerShape (t : ScrollTrigger) : Prop :=
  (st_animation t <> None ->
   actionFor (st_vars t) Enter = a_play
   /\ actionFor (st_vars t) Leave = a_none
   /\ actionFor (st_vars t) EnterBack = a_none
   /\ actionFor (st_vars t) LeaveBack = a_reverse)
  /\ (st_animation t = None ->
      onEnter (st_vars t) <> None
      /\ actionFor (st_vars t) LeaveBack = a_none).

Definition controlledShape (tw : Tween) : Prop :=
  tw_paused tw = true -> tw_from tw <> None /\ entranceShape (tw_vars tw).

Ltac shapes :=
  idtac;
  lazymatch goal with
  | |- controlledShape _ =>
      unfold controlledShape, freshTween; cbn [tw_paused tw_from tw_vars];
      first [ intros; discriminate
            | intros _; split; [discriminate | repeat split; reflexivity ] ]
  | |- triggerShape _ =>
      unfold triggerShape, freshTrigger; cbn [st_animation st_vars];
      split; [ first [ intros _; repeat split; reflexivity | intros H; now elim H ]
             | first [ intros; discriminate | intros _; split; [discriminate | reflexivity] ] ]
  | |- anyListener _ => exact I
  end.

Lemma initialize_shapes (m : JsMath) (r : Refs) :
  runs controlledShape triggerShape anyListener (initialize m r).
Proof.
  unfold initialize, heroTitle, heroSubtitle, heroButtons, servicesSection,
    projectsSection, techSection, aboutSection, contactSection, serviceHover.
  run_with shapes.
Qed.

(** The reading of C4: every scroll trigger the effect makes reverses its
    rule when the page scrolls back out past its start. *)
Definition everyTriggerReverses : Prop :=
  forall m r ctx s',
    mount m r emptyState = Ok (ctx, s') ->
    Forall (fun t => actionFor (st_vars t) LeaveBack = a_reverse) (observers s').

(** C4, counterexample.  The trigger of the badge wave, made with
    [ScrollTrigger.create] and an [onEnter] callback only, does nothing
    on the way back. *)
Lemma wave_trigger_does_not_reverse : ~ everyTriggerReverses.
Proof.
  intros H.
  pose (s1 := match mount sampleMath pageRefs emptyState with
              | Ok (_, s) => s | Throw _ => emptyState end).
  assert (E1 : mount sampleMath pageRefs emptyState = Ok (0%nat, s1))
    by (vm_compute; reflexivity).
  specialize (H _ _ _ _ E1). rewrite Forall_forall in H.
  assert (Hin : In (freshTrigger 26 (Some 0%nat)
                      {| trigger := [71%nat]; start := "top 60%"; end_ := None;
                         toggleActions := None;
                         onEnter := Some (badgeWave
                                            (matchesIn (ByClass "tech-badge") techNode)) |}
                      None)
                   (observers s1)).
  { vm_compute. do 5 right. left. reflexivity. }
  specialize (H _ Hin). clear E1 Hin. vm_compute in H. discriminate H.
Qed.

(** C4, amended.  Every scroll trigger that controls an entrance tween
    is reversible: its toggle actions are play on Enter, nothing on Leave
    and EnterBack, reverse on LeaveBack; the tween it controls is a
    fromTo that shows its from-values at local time 0 and its to-values
    at the end, and once reversed it is back at its start as soon as
    the time it had played has passed again.  The one trigger without a
    tween, that of the badge wave, only fires its callback on Enter.
    On the page: scrolled in, the service cards settle at opacity 1,
    y = 0, rotationX = 0; scrolled back out, they return to opacity 0,
    y = 80, rotationX = 45. *)
Theorem entrance_triggers_reverse (m : JsMath) (r : Refs) (s : State) :
  (exists ctx s' la lo,
      mount m r s = Ok (ctx, s')
      /\ animations s' = animations s ++ la
      /\ observers s' = observers s ++ lo
      /\ Forall triggerShape lo
      /\ Forall (fun tw =>
           tw_paused tw = true ->
           tw_from tw <> None
           /\ (forall a b, interpolate m (tw_vars tw) a b 0 == a)
           /\ (forall a b, interpolate m (tw_vars tw) a b (duration (tw_vars tw)) == b)
           /\ (forall t dt, tw_time t <= dt -> advance dt (applyAction a_reverse t) == 0))
           la)
  /\ (exists s1 s2 s3,
        mount sampleMath pageRefs emptyState = Ok (0%nat, s1)
        /\ run sampleMath [Scroll 5 Enter; Tick 2] s1 = Ok s2
        /\ run sampleMath [Scroll 5 LeaveBack; Tick 2] s2 = Ok s3
        /\ Forall (fun e => numericStyle (styles s2) e p_opacity == 1
                            /\ numericStyle (styles s2) e p_y == 0
                            /\ numericStyle (styles s2) e p_rotationX == 0)
                  [17; 24; 31]%nat
        /\ Forall (fun e => numericStyle (styles s3) e p_opacity == 0
                            /\ numericStyle (styles s3) e p_y == 80
                            /\ numericStyle (styles s3) e p_rotationX == 45)
                  [17; 24; 31]%nat).
Proof.
  split.
  - destruct (mount_adds _ _ _ m r (initialize_shapes m r)) as (na & no & ll & _ & H).
    destruct (H s) as (s' & la & lo & E & Ea & _ & Fa & Eo & _ & Fo & _).
    exists (nextCtx s), s', la, lo. repeat apply conj; try assumption.
    eapply Forall_impl; [|exact Fa]. intros tw Htw Hp.
    destruct (Htw Hp) as [Hfrom Hshape]. repeat apply conj.
    + exact Hfrom.
    + intros a b. apply (entrance_from_to m _ a b Hshape).
    + intros a b. apply (entrance_from_to m _ a b Hshape).
    + intros t dt Ht. apply (reverse_returns t dt Ht).
  - pose (s1 := match mount sampleMath pageRefs emptyState with
                | Ok (_, s) => s | Throw _ => emptyState end).
    pose (s2 := match run sampleMath [Scroll 5 Enter; Tick 2] s1 with
                | Ok s => s | Throw _ => emptyState end).
    pose (s3 := match run sampleMath [Scroll 5 LeaveBack; Tick 2] s2 with
                | Ok s => s | Throw _ => emptyState end).
    exists s1, s2, s3.
    repeat apply conj; try (vm_compute; reflexivity);
      vm_compute; repeat constructor.
Qed.

(* ------------------------------------------------------------------ *)
(** *** Frames and events on a mounted page *)

(** What a frame does to one tween: only its playhead (and the start
    values it has read) change. *)
Definition stepped (dt : Q) (tw tw' : Tween) : Prop :=
  tw_id tw' = tw_id tw /\ tw_ctx tw' = tw_ctx tw /\ tw_targets tw' = tw_targets tw
  /\ tw_from tw' = tw_from tw /\ tw_vars tw' = tw_vars tw
  /\ tw_paused tw' = tw_paused tw /\ tw_reversed tw' = tw_reversed tw
  /\ tw_time tw' = advance dt tw.

Lemma stepTween_fold (m : JsMath) (dt : Q) (l : list Tween) :
  forall acc st, exists l' st',
    fold_left (stepTween m dt) l (acc, st) = (acc ++ l', st')
    /\ Forall2 (stepped dt) l l'.
Proof.
  induction l as [|tw l IH]; intros acc st; simpl.
  - exists [], st. rewrite app_nil_r. split; [reflexivity | constructor].
  - unfold stepTween at 2. cbn [fst snd].
    destruct (tw_paused tw) eqn:Hp.
    + destruct (IH (acc ++ [tw]) st) as (l' & st' & E & F).
      exists (tw :: l'), st'. rewrite E, <- app_assoc. split; [reflexivity|].
      constructor; [|exact F].
      unfold stepped, advance. rewrite Hp. repeat split.
    + match goal with
      | |- context [fold_left (stepTween m dt) l (acc ++ [?x], ?y)] =>
          destruct (IH (acc ++ [x]) y) as (l' & st' & E & F);
          exists (x :: l'), st'
      end.
      rewrite E, <- app_assoc. split; [reflexivity|].
      constructor; [|exact F].
      unfold stepped. cbn. rewrite Hp. repeat split.
Qed.

Lemma Forall2_in_left {A B : Type} (R : A -> B -> Prop) (l : list A) (l' : list B) :
  Forall2 R l l' -> forall a, In a l -> exists b, In b l' /\ R a b.
Proof.
  induction 1 as [|x y l l' Hxy _ IH]; intros a Ha; [contradiction|].
  destruct Ha as [<-|Ha].
  - exists y. split; [now left | exact Hxy].
  - destruct (IH a Ha) as (b & Hb & Hab). exists b. split; [now right | exact Hab].
Qed.

Lemma Forall2_in_right {A B : Type} (R : A -> B -> Prop) (l : list A) (l' : list B) :
  Forall2 R l l' -> forall b, In b l' -> exists a, In a l /\ R a b.
Proof.
  induction 1 as [|x y l l' Hxy _ IH]; intros b Hb; [contradiction|].
  destruct Hb as [<-|Hb].
  - exists x. split; [now left | exact Hxy].
  - destruct (IH b Hb) as (a & Ha & Hab). exists a. split; [now right | exact Hab].
Qed.

Lemma tick_animations (m : JsMath) (dt : Q) (s : State) :
  exists l',
    Forall2 (stepped dt) (animations s) l'
    /\ animations (tick m dt s) = filter (fun tw => held tw || negb (finished tw)) l'.
Proof.
  destruct (stepTween_fold m dt (animations s) [] (styles s)) as (l' & st' & E & F).
  exists l'. split; [exact F|]. unfold tick. cbn. rewrite E. reflexivity.
Qed.

Lemma tick_keeps (m : JsMath) (dt : Q) (s : State) (tw : Tween) :
  In tw (animations s) -> held tw = true ->
  exists tw', In tw' (animations (tick m dt s)) /\ stepped dt tw tw'.
Proof.
  intros Hin Hheld.
  destruct (tick_animations m dt s) as (l' & F & E).
  destruct (Forall2_in_left _ _ _ F tw Hin) as (tw' & Hin' & Hs).
  exists tw'. split; [|exact Hs].
  rewrite E. apply filter_In. split; [exact Hin'|].
  destruct Hs as (_ & Hc & _). unfold held in *. rewrite Hc.
  destruct (tw_ctx tw); [reflexivity | discriminate].
Qed.

Lemma wf_tick (m : JsMath) (dt : Q) (s : State) : wf s -> wf (tick m dt s).
Proof.
  intros (Wa & Wo & Wc).
  destruct (tick_animations m dt s) as (l' & F & E).
  assert (Hback : forall tw', In tw' (animations (tick m dt s)) ->
                    exists tw, In tw (animations s) /\ stepped dt tw tw').
  { intros tw' H. rewrite E in H. apply filter_In in H. destruct H as [H _].
    apply (Forall2_in_right _ _ _ F tw' H). }
  rewrite Forall_forall in Wa, Wo.
  unfold wf. repeat apply conj.
  - apply Forall_forall. intros tw' H.
    destruct (Hback tw' H) as (tw & Hin & Hid & Hc & _).
    destruct (Wa tw Hin) as [H1 H2]. rewrite Hid, Hc. split; assumption.
  - apply Forall_forall. intros t Ht. destruct (Wo t Ht) as (H1 & H2 & H3).
    split; [exact H1|]. split; [exact H2|].
    intros aid Haid. destruct (H3 aid Haid) as [Hlt Hall]. split; [exact Hlt|].
    apply Forall_forall. intros tw' H.
    destruct (Hback tw' H) as (tw & Hin & Hid & _ & _ & Hf & _).
    rewrite Forall_forall in Hall. rewrite Hid, Hf. apply Hall, Hin.
  - exact Wc.
Qed.

Lemma runs_runCalls (m : JsMath) (calls : list ToCall) :
  runs anyTween anyTrigger anyListener (runCalls m calls).
Proof. unfold runCalls. run_any. Qed.

Lemma dispatchEvent_step (m : JsMath) (e : Elem) (type : string) (s : State) :
  exists s', dispatchEvent m e type s = Ok (tt, s') /\ extends s s' /\ (wf s -> wf s').
Proof.
  unfold dispatchEvent.
  assert (H : runs anyTween anyTrigger anyListener
                (forEach (filter (fun l => Nat.eqb e (l_target l) && String.eqb type (l_type l))
                                 (listeners s))
                         (fun l _ => runCalls m (l_handler l)) 0)).
  { apply runs_forEach. intros. apply runs_runCalls. }
  destruct H as ([] & n & o & l & H).
  apply (adds_wf _ _ _ _ _ _ _ _ s H).
Qed.

Lemma applyAction_static (a : Action) (tw : Tween) :
  tw_id (applyAction a tw) = tw_id tw
  /\ tw_ctx (applyAction a tw) = tw_ctx tw
  /\ tw_from (applyAction a tw) = tw_from tw.
Proof. destruct a; repeat split. Qed.

Lemma wf_controlAnimation (a : Action) (an : option nat) (s : State) :
  wf s -> wf (controlAnimation a an s).
Proof.
  intros (Wa & Wo & Wc).
  assert (Hback : forall tw', In tw' (animations (controlAnimation a an s)) ->
            exists tw, In tw (animations s)
                       /\ tw_id tw' = tw_id tw /\ tw_ctx tw' = tw_ctx tw
                       /\ tw_from tw' = tw_from tw).
  { intros tw' H. cbn in H. apply in_map_iff in H. destruct H as (tw & <- & Hin).
    exists tw. split; [exact Hin|].
    destruct (recordedBy (tw_id tw) an); [apply applyAction_static | repeat split]. }
  rewrite Forall_forall in Wa, Wo.
  unfold wf. repeat apply conj.
  - apply Forall_forall. intros tw' H.
    destruct (Hback tw' H) as (tw & Hin & Hid & Hc & _).
    destruct (Wa tw Hin) as [H1 H2]. rewrite Hid, Hc. split; assumption.
  - apply Forall_forall. intros t Ht. destruct (Wo t Ht) as (H1 & H2 & H3).
    split; [exact H1|]. split; [exact H2|].
    intros aid Haid. destruct (H3 aid Haid) as [Hlt Hall]. split; [exact Hlt|].
    apply Forall_forall. intros tw' H.
    destruct (Hback tw' H) as (tw & Hin & Hid & _ & Hf).
    rewrite Forall_forall in Hall. rewrite Hid, Hf. apply Hall, Hin.
  - exact Wc.
Qed.

(** A scroll event leaves alone every tween that was not made by a
    fromTo. *)
Lemma controlAnimation_keeps (a : Action) (t : ScrollTrigger) (s : State) (tw : Tween) :
  wf s -> In t (observers s) -> In tw (animations s) -> tw_from tw = None ->
  In tw (animations (controlAnimation a (st_animation t) s)).
Proof.
  intros (_ & Wo & _) Ht Hin Hfrom. cbn. apply in_map_iff. exists tw.
  split; [|exact Hin].
  destruct (st_animation t) as [aid|] eqn:Ean; [|reflexivity].
  rewrite Forall_forall in Wo. destruct (Wo t Ht) as (_ & _ & Hc).
  destruct (Hc aid Ean) as [_ Hall]. rewrite Forall_forall in Hall.
  simpl. destruct (Nat.eqb_spec (tw_id tw) aid) as [E|NE]; [|reflexivity].
  exfalso. apply (Hall tw Hin E Hfrom).
Qed.

Lemma scrollEvent_step (m : JsMath) (id : nat) (ev : ScrollEvent) (s : State) :
  wf s ->
  exists s', scrollEvent m id ev s = Ok (tt, s') /\ wf s'
    /\ context s' = context s
    /\ forall tw, In tw (animations s) -> tw_from tw = None -> In tw (animations s').
Proof.
  intros W. unfold scrollEvent.
  destruct (find (fun t => Nat.eqb id (st_id t)) (observers s)) as [t|] eqn:Ef.
  2:{ exists s. split; [reflexivity|]. split; [exact W|]. split; [reflexivity | auto]. }
  apply find_some in Ef. destruct Ef as [Ht _].
  set (s1 := match st_animation t with
             | Some _ => controlAnimation (actionFor (st_vars t) ev) (st_animation t) s
             | None => s
             end).
  assert (W1 : wf s1).
  { unfold s1. destruct (st_animation t); [apply wf_controlAnimation, W | exact W]. }
  assert (K1 : forall tw, In tw (animations s) -> tw_from tw = None -> In tw (animations s1)).
  { intros tw Hin Hf. unfold s1. destruct (st_animation t) eqn:Ean; [|exact Hin].
    rewrite <- Ean. apply controlAnimation_keeps; assumption. }
  assert (C1 : context s1 = context s /\ nextCtx s1 = nextCtx s
               /\ observers s1 = observers s).
  { unfold s1. destruct (st_animation t); repeat split. }
  destruct C1 as (C1 & N1 & O1).
  assert (Hdone : exists s', Ok (tt, s1) = Ok (tt, s') /\ wf s'
            /\ context s' = context s
            /\ forall tw, In tw (animations s) -> tw_from tw = None -> In tw (animations s')).
  { exists s1. split; [reflexivity|]. split; [exact W1|]. split; [exact C1 | exact K1]. }
  destruct ev; try exact Hdone.
  destruct (onEnter (st_vars t)) as [calls|]; [|exact Hdone].
  destruct (runs_runCalls m calls) as ([] & n & o & l & _ & H).
  destruct (H (setContext (st_ctx t) false s1))
    as (s2 & la & lo & E & Ea & _ & _ & Eo & _ & _ & El & Ec & En & _ & _ & W2).
  rewrite E. exists (setContext (context s1) false s2).
  split; [reflexivity|]. cbn in Ea, Ec, En.
  assert (Hbelow : ctxBelow (st_ctx t) (nextCtx s1)).
  { destruct W as (_ & Wo & _). rewrite Forall_forall in Wo.
    destruct (Wo t Ht) as (_ & Hb & _). rewrite N1. exact Hb. }
  split.
  { apply wf_leave_context.
    - apply W2, wf_leave_context; assumption.
    - rewrite En. destruct W1 as (_ & _ & Wc). exact Wc. }
  split; [exact C1|].
  intros tw Hin Hf. cbn. rewrite Ea. apply in_or_app. left. apply K1; assumption.
Qed.

(** An ambient oscillation: a to() of one element, recorded by the
    context, repeating for ever back and forth, running. *)
Definition oscillates (ctx : nat) (e : Elem) (ps : list Property) (tw : Tween) : Prop :=
  tw_ctx tw = Some ctx /\ tw_targets tw = [e] /\ tw_from tw = None
  /\ repeat (tw_vars tw) = forever /\ yoyo (tw_vars tw) = true
  /\ map fst (props (tw_vars tw)) = ps
  /\ tw_paused tw = false /\ tw_reversed tw = false.

(** The time that passes in a sequence of steps. *)
Fixpoint elapsed (steps : list Step) : Q :=
  match steps with
  | [] => 0
  | Tick dt :: rest => dt + elapsed rest
  | _ :: rest => elapsed rest
  end.

Lemma oscillates_unfinished ctx e ps tw : oscillates ctx e ps tw -> finished tw = false.
Proof.
  intros (_ & _ & _ & Hr & _ & _ & _ & Hrev).
  unfold finished, tweenEnd, totalLocal. rewrite Hr, Hrev. reflexivity.
Qed.

Lemma oscillates_stepped ctx e ps dt tw tw' :
  oscillates ctx e ps tw -> stepped dt tw tw' ->
  oscillates ctx e ps tw' /\ tw_time tw' = tw_time tw + dt.
Proof.
  intros (Hc & Ht & Hf & Hr & Hy & Hp & Hpa & Hrev)
         (Sid & Sc & St & Sf & Sv & Spa & Srev & Stime).
  split.
  - unfold oscillates. rewrite Sc, St, Sf, Sv, Spa, Srev. repeat split; assumption.
  - rewrite Stime. unfold advance, tweenEnd, totalLocal. rewrite Hpa, Hrev, Hr. reflexivity.
Qed.

(** Through frames, pointer and focus events and scroll events, an
    ambient oscillation stays: same tween, still running, its playhead
    the time that has passed. *)
Lemma oscillation_persists (m : JsMath) (ctx : nat) (e : Elem) (ps : list Property) :
  forall steps s s' tw,
    wf s -> run m steps s = Ok s' ->
    In tw (animations s) -> oscillates ctx e ps tw ->
    exists tw',
      In tw' (animations s') /\ tw_id tw' = tw_id tw /\ tw_vars tw' = tw_vars tw
      /\ oscillates ctx e ps tw'
      /\ tw_time tw' == tw_time tw + elapsed steps
      /\ finished tw' = false /\ wf s'.
Proof.
  induction steps as [|st steps IH]; intros s s' tw W Hrun Hin Hosc.
  - injection Hrun as <-. exists tw.
    split; [exact Hin|]. split; [reflexivity|]. split; [reflexivity|].
    split; [exact Hosc|]. split; [simpl; ring|].
    split; [eapply oscillates_unfinished, Hosc | exact W].
  - simpl in Hrun. destruct st as [dt|el type|id ev]; simpl in Hrun.
    + assert (Hheld : held tw = true).
      { destruct Hosc as (Hc & _). unfold held. now rewrite Hc. }
      destruct (tick_keeps m dt s tw Hin Hheld) as (tw1 & Hin1 & Hs).
      destruct (oscillates_stepped _ _ _ _ _ _ Hosc Hs) as [Hosc1 Ht1].
      destruct (IH _ _ tw1 (wf_tick m dt s W) Hrun Hin1 Hosc1)
        as (tw' & Hin' & Hid & Hv & Hosc' & Ht' & Hfin & W').
      exists tw'. destruct Hs as (Sid & _ & _ & _ & Sv & _).
      split; [exact Hin'|]. split; [congruence|]. split; [congruence|].
      split; [exact Hosc'|]. split; [rewrite Ht', Ht1; simpl; ring|].
      split; assumption.
    + destruct (dispatchEvent_step m el type s) as (s1 & E & X & W1).
      rewrite E in Hrun.
      destruct (IH _ _ tw (W1 W) Hrun (extends_animation _ _ _ X Hin) Hosc)
        as (tw' & H). exists tw'. exact H.
    + destruct (scrollEvent_step m id ev s W) as (s1 & E & W1 & _ & K).
      rewrite E in Hrun.
      assert (Hf : tw_from tw = None) by apply Hosc.
      destruct (IH _ _ tw W1 Hrun (K tw Hin Hf) Hosc) as (tw' & H).
      exists tw'. exact H.
Qed.

(** After the clean-up nothing the context recorded is left. *)
Lemma revert_stops (ctx : nat) (s : State) (tw : Tween) :
  In tw (animations (revert ctx s)) -> tw_ctx tw <> Some ctx.
Proof.
  unfold revert. cbn. intros H. apply filter_In in H. destruct H as [_ H].
  intros E. rewrite E in H. simpl in H. rewrite Nat.eqb_refl in H. discriminate.
Qed.

(** The breathing tween of badge [index], once the effect has made it. *)
Definition breathing (ctx : nat) (badge : Node) (index : nat) (s : State) : Prop :=
  context s = Some ctx ->
  exists tw,
    In tw (animations s)
    /\ oscillates ctx (uid badge) [p_scale] tw
    /\ delay (tw_vars tw) = ofIndex index * 0.1
    /\ tw_time tw = 0.

(** The rotation tween of social button [index]. *)
Definition rotating (ctx : nat) (btn : Node) (index : nat) (s : State) : Prop :=
  context s = Some ctx ->
  exists tw,
    In tw (animations s)
    /\ oscillates ctx (uid btn) [p_rotationY; p_rotationX] tw
    /\ delay (tw_vars tw) = ofIndex index * 0.2
    /\ tw_time tw = 0.

Lemma breathing_extends ctx badge index s s' :
  breathing ctx badge index s -> extends s s' -> breathing ctx badge index s'.
Proof.
  intros H X Hc. destruct X as (Xa & _ & _ & Xc). rewrite Xc in Hc.
  destruct (H Hc) as (tw & Hin & Hrest). exists tw. split; [|exact Hrest].
  destruct Xa as [la ->]. apply in_or_app. now left.
Qed.

Lemma rotating_extends ctx btn index s s' :
  rotating ctx btn index s -> extends s s' -> rotating ctx btn index s'.
Proof.
  intros H X Hc. destruct X as (Xa & _ & _ & Xc). rewrite Xc in Hc.
  destruct (H Hc) as (tw & Hin & Hrest). exists tw. split; [|exact Hrest].
  destruct Xa as [la ->]. apply in_or_app. now left.
Qed.

Ltac extends_now :=
  unfold extends; cbn; repeat apply conj;
  first [ reflexivity
        | eexists; rewrite <- ?app_assoc; reflexivity
        | exists []; rewrite app_nil_r; reflexivity ].

(** One fromTo with a scroll trigger at the head of what is left to run
    from the state reached so far; [X] tracks how far it extends. *)
Ltac step_fromTo X Y :=
  lazymatch goal with
  | |- context [bind (fromTo ?m0 ?t ?f ?v (Some ?st)) _ ?s0] =>
      let sX := fresh "s" in
      let EX := fresh "E" in
      let XX := fresh "X" in
      let HA := fresh "HA" in
      assert (HA : adds anyTween anyTrigger anyListener
                     (fromTo m0 t f v (Some st)) tt 1 1 [])
        by (apply adds_fromTo_trigger; intros; exact I);
      destruct (adds_wf _ _ _ _ _ _ _ _ s0 HA) as (sX & EX & XX & _);
      rewrite (bind_ok _ _ _ _ _ EX);
      pose proof (extends_trans _ _ _ X XX) as Y; clear X XX EX HA
  end.

Lemma techSection_breathing (m : JsMath) (r : Refs) (tech : Node) (ctx : nat) (s : State) :
  techRef r = Some tech ->
  exists s', techSection m r s = Ok (tt, s') /\ extends s s'
    /\ forall i badge,
         nth_error (matchesIn (ByClass "tech-badge") tech) i = Some badge ->
         breathing ctx badge i s'.
Proof.
  intros Href. unfold techSection. rewrite Href.
  change (if isSome (Some tech) then ?A else _) with A.
  rewrite (bind_ok _ _ s s tech eq_refl).
  rewrite (bind_ok _ _ s s (matchesIn (ByClass "tech-badge") tech) eq_refl).
  pose proof (extends_refl s) as X0.
  step_fromTo X0 XA.
  match goal with
  | |- context [bind (forEach ?l ?f 0) _ ?sA] =>
      assert (Hf : forall a i s0, exists s', f a i s0 = Ok (tt, s') /\ extends s0 s'
                                             /\ breathing ctx a i s');
        [ | destruct (forEach_each f (breathing ctx) Hf (breathing_extends ctx)
                        l 0%nat sA) as (sB & EB & XB & RB) ]
  end.
  - intros badge i sx. eexists. split; [reflexivity|]. split; [extends_now|].
    unfold breathing. intros Hc. eexists.
    split; [cbn; apply in_or_app; right; left; reflexivity|].
    cbn in Hc. cbn. rewrite Hc. repeat split.
  - rewrite (bind_ok _ _ _ _ _ EB).
    match goal with
    | |- exists s', ?c sB = _ /\ _ =>
        assert (Hrest : runs anyTween anyTrigger anyListener c) by run_any
    end.
    destruct (runs_extends _ _ _ _ Hrest) as [[] H].
    destruct (H sB) as (sC & EC & XC & _).
    exists sC. split; [exact EC|].
    split; [eapply extends_trans; [exact XA|]; eapply extends_trans; eauto|].
    intros i badge Hi. eapply breathing_extends; [apply RB, Hi | exact XC].
Qed.

Lemma contactSection_rotating (m : JsMath) (r : Refs) (contact : Node) (ctx : nat)
  (s : State) :
  contactRef r = Some contact ->
  exists s', contactSection m r s = Ok (tt, s') /\ extends s s'
    /\ forall i btn,
         nth_error (matchesIn (ByClass "social-btn") contact) i = Some btn ->
         rotating ctx btn i s'.
Proof.
  intros Href. unfold contactSection. rewrite Href.
  change (if isSome (Some contact) then ?A else _) with A.
  rewrite (bind_ok _ _ s s contact eq_refl).
  rewrite (bind_ok _ _ s s (hd_error (matchesIn (ByClass "contact-info") contact)) eq_refl).
  rewrite (bind_ok _ _ s s (hd_error (matchesIn (ByClass "contact-form") contact)) eq_refl).
  rewrite (bind_ok _ _ s s (matchesIn (ByClass "contact-item") contact) eq_refl).
  rewrite (bind_ok _ _ s s (matchesIn (ByClass "form-input") contact) eq_refl).
  rewrite (bind_ok _ _ s s (matchesIn (ByClass "social-btn") contact) eq_refl).
  pose proof (extends_refl s) as X0.
  step_fromTo X0 X1. step_fromTo X1 X2. step_fromTo X2 X3. step_fromTo X3 X4.
  match goal with
  | |- context [bind (forEach ?l ?f 0) _ ?s0] =>
      assert (Hf : forall a i s1, exists s', f a i s1 = Ok (tt, s') /\ extends s1 s'
                                             /\ rotating ctx a i s');
        [ | destruct (forEach_each f (rotating ctx) Hf (rotating_extends ctx)
                        l 0%nat s0) as (sB & EB & XB & RB) ]
  end.
  - intros btn i sx. eexists. split; [reflexivity|]. split; [extends_now|].
    unfold rotating. intros Hc. eexists.
    split; [cbn; apply in_or_app; right; left; reflexivity|].
    cbn in Hc. cbn. rewrite Hc. repeat split.
  - rewrite (bind_ok _ _ _ _ _ EB).
    match goal with
    | |- exists s', ?c sB = _ /\ _ =>
        assert (Hrest : runs anyTween anyTrigger anyListener c) by run_any
    end.
    destruct (runs_extends _ _ _ _ Hrest) as [[] Hr].
    destruct (Hr sB) as (sC & EC & XC & _).
    exists sC. split; [exact EC|].
    split; [eapply extends_trans; [exact X4|]; eapply extends_trans; eauto|].
    intros i btn Hi. eapply rotating_extends; [apply RB, Hi | exact XC].
Qed.

(** The effect, section by section. *)
Lemma initialize_chain (m : JsMath) (r : Refs) (s : State) :
  exists tl1 s1 tl2 s2 tl3 s3 s4 s5 s6 s7 s8 s9,
    heroTitle m r s = Ok (tl1, s1)
    /\ heroSubtitle m r tl1 s1 = Ok (tl2, s2)
    /\ heroButtons m r tl2 s2 = Ok (tl3, s3)
    /\ servicesSection m r s3 = Ok (tt, s4)
    /\ projectsSection m r s4 = Ok (tt, s5)
    /\ techSection m r s5 = Ok (tt, s6)
    /\ aboutSection m r s6 = Ok (tt, s7)
    /\ contactSection m r s7 = Ok (tt, s8)
    /\ serviceHover r s8 = Ok (tt, s9)
    /\ initialize m r s = Ok (tt, s9)
    /\ extends s s5 /\ extends s5 s6 /\ extends s6 s7 /\ extends s7 s8
    /\ extends s8 s9.
Proof.
  destruct (runs_extends _ _ _ _ (runs_heroTitle m r)) as [tl1 H1].
  destruct (H1 s) as (s1 & E1 & X1 & _).
  destruct (runs_extends _ _ _ _ (runs_heroSubtitle m r tl1)) as [tl2 H2].
  destruct (H2 s1) as (s2 & E2 & X2 & _).
  destruct (runs_extends _ _ _ _ (runs_heroButtons m r tl2)) as [tl3 H3].
  destruct (H3 s2) as (s3 & E3 & X3 & _).
  destruct (runs_extends _ _ _ _ (runs_servicesSection m r)) as [[] H4].
  destruct (H4 s3) as (s4 & E4 & X4 & _).
  destruct (runs_extends _ _ _ _ (runs_projectsSection m r)) as [[] H5].
  destruct (H5 s4) as (s5 & E5 & X5 & _).
  destruct (runs_extends _ _ _ _ (runs_techSection m r)) as [[] H6].
  destruct (H6 s5) as (s6 & E6 & X6 & _).
  destruct (runs_extends _ _ _ _ (runs_aboutSection m r)) as [[] H7].
  destruct (H7 s6) as (s7 & E7 & X7 & _).
  destruct (runs_extends _ _ _ _ (runs_contactSection m r)) as [[] H8].
  destruct (H8 s7) as (s8 & E8 & X8 & _).
  destruct (runs_extends _ _ _ _ (runs_serviceHover r)) as [[] H9].
  destruct (H9 s8) as (s9 & E9 & X9 & _).
  assert (Xa : extends s s5).
  { apply (extends_trans _ _ _ X1), (extends_trans _ _ _ X2),
      (extends_trans _ _ _ X3), (extends_trans _ _ _ X4), X5. }
  assert (Ei : initialize m r s = Ok (tt, s9)).
  { unfold initialize.
    rewrite (bind_ok _ _ _ _ _ E1), (bind_ok _ _ _ _ _ E2), (bind_ok _ _ _ _ _ E3),
      (bind_ok _ _ _ _ _ E4), (bind_ok _ _ _ _ _ E5), (bind_ok _ _ _ _ _ E6),
      (bind_ok _ _ _ _ _ E7), (bind_ok _ _ _ _ _ E8).
    exact E9. }
  exists tl1, s1, tl2, s2, tl3, s3, s4, s5, s6, s7, s8, s9.
  repeat (split; [assumption|]). assumption.
Qed.

(** [runsUntilTeardown m ctx s e ps dl]: in the mounted state [s] the
    element [e] has an oscillation on the properties [ps], due to start
    [dl] seconds after mount; whatever frames and events follow, it is
    still there, running, its playhead the time that has passed; and
    the clean-up of the mount removes it. *)
Definition runsUntilTeardown (m : JsMath) (ctx : nat) (s : State) (e : Elem)
  (ps : list Property) (dl : Q) : Prop :=
  exists tw,
    In tw (animations s) /\ oscillates ctx e ps tw
    /\ delay (tw_vars tw) = dl /\ tw_time tw = 0
    /\ forall steps s',
         run m steps s = Ok s' ->
         (exists tw',
             In tw' (animations s') /\ tw_id tw' = tw_id tw
             /\ oscillates ctx e ps tw'
             /\ tw_time tw' == elapsed steps
             /\ finished tw' = false)
         /\ (forall tw', In tw' (animations (revert ctx s')) -> tw_ctx tw' <> Some ctx).

Lemma persists_until_teardown (m : JsMath) (ctx : nat) (s : State) (e : Elem)
  (ps : list Property) (dl : Q) :
  wf s ->
  (exists tw, In tw (animations s) /\ oscillates ctx e ps tw
              /\ delay (tw_vars tw) = dl /\ tw_time tw = 0) ->
  runsUntilTeardown m ctx s e ps dl.
Proof.
  intros W (tw & Hin & Hosc & Hd & Ht). exists tw.
  split; [exact Hin|]. split; [exact Hosc|]. split; [exact Hd|]. split; [exact Ht|].
  intros steps s' Hrun. split.
  - destruct (oscillation_persists m ctx e ps steps s s' tw W Hrun Hin Hosc)
      as (tw' & Hin' & Hid & _ & Hosc' & Htime & Hfin & _).
    exists tw'. split; [exact Hin'|]. split; [exact Hid|]. split; [exact Hosc'|].
    split; [|exact Hfin]. rewrite Htime, Ht. ring.
  - intros tw'. apply revert_stops.
Qed.

(** C8. Mounting gives every technology badge an oscillation of its
    scale and every social button an oscillation of its rotation, each
    an endless yoyo that starts with the mount (after its own delay).
    Whatever frames, pointer, focus and scroll events follow, the
    oscillation is still there, neither paused nor reversed nor
    finished, its playhead being the time that has passed; the clean-up
    of the mount removes it. *)
Theorem ambient_motion_runs_until_teardown (m : JsMath) (r : Refs) (s0 : State) :
  wf s0 ->
  exists ctx s1,
    mount m r s0 = Ok (ctx, s1)
    /\ (forall tech i badge,
          techRef r = Some tech ->
          nth_error (matchesIn (ByClass "tech-badge") tech) i = Some badge ->
          runsUntilTeardown m ctx s1 (uid badge) [p_scale] (ofIndex i * 0.1))
    /\ (forall contact i btn,
          contactRef r = Some contact ->
          nth_error (matchesIn (ByClass "social-btn") contact) i = Some btn ->
          runsUntilTeardown m ctx s1 (uid btn) [p_rotationY; p_rotationX]
            (ofIndex i * 0.2)).
Proof.
  intros W.
  set (ctx := nextCtx s0).
  set (sI := setContext (Some ctx) true s0).
  destruct (initialize_chain m r sI)
    as (tl1 & s1 & tl2 & s2 & tl3 & s3 & s4 & s5 & s6 & s7 & s8 & s9
        & _ & _ & _ & _ & _ & E6 & _ & E8 & _ & Ei & X05 & X56 & X67 & X78 & X89).
  pose proof (mount_initialize m r s0 s9 Ei) as Em. fold ctx in Em.
  destruct (mount_adds _ _ _ m r (initialize_runs m r)) as (na & no & ll & _ & Hm).
  destruct (Hm s0) as (sF & la & lo & Em' & _ & _ & _ & _ & _ & _ & _ & _ & _ & _ & _ & WF).
  rewrite Em in Em'. injection Em' as <-.
  exists ctx, (setContext (context s0) false s9).
  split; [exact Em|].
  assert (X09 : extends sI s9).
  { apply (extends_trans _ _ _ X05), (extends_trans _ _ _ X56),
      (extends_trans _ _ _ X67), (extends_trans _ _ _ X78), X89. }
  assert (C9 : context s9 = Some ctx) by (destruct X09 as (_ & _ & _ & ->); reflexivity).
  split.
  - intros tech i badge Href Hi.
    apply persists_until_teardown; [apply WF, W|].
    destruct (techSection_breathing m r tech ctx s5 Href) as (s6' & E6' & _ & R).
    rewrite E6 in E6'. injection E6' as <-.
    apply (breathing_extends _ _ _ _ _ (R i badge Hi)
             (extends_trans _ _ _ X67 (extends_trans _ _ _ X78 X89)) C9).
  - intros contact i btn Href Hi.
    apply persists_until_teardown; [apply WF, W|].
    destruct (contactSection_rotating m r contact ctx s7 Href) as (s8' & E8' & _ & R).
    rewrite E8 in E8'. injection E8' as <-.
    apply (rotating_extends _ _ _ _ _ (R i btn Hi) X89 C9).
Qed.

(** The first badge and the first social button of the page. *)
Lemma ambient_motion_witness :
  exists ctx s1,
    mount sampleMath pageRefs emptyState = Ok (ctx, s1)
    /\ runsUntilTeardown sampleMath ctx s1
         (uid (hd pageDocument (matchesIn (ByClass "tech-badge") techNode)))
         [p_scale] (ofIndex 0 * 0.1)
    /\ runsUntilTeardown sampleMath ctx s1
         (uid (hd pageDocument (matchesIn (ByClass "social-btn") contactNode)))
         [p_rotationY; p_rotationX] (ofIndex 0 * 0.2).
Proof.
  destruct (ambient_motion_runs_until_teardown sampleMath pageRefs emptyState)
    as (ctx & s1 & E & Hb & Hs).
  - repeat split; constructor.
  - exists ctx, s1. split; [exact E|]. split.
    + apply (Hb techNode 0%nat); reflexivity.
    + apply (Hs contactNode 0%nat); reflexivity.
Defined.

(* ------------------------------------------------------------------ *)
(** *** Pointer and focus handlers *)

(** What a handler adds: to() tweens, which prescribe no start state and
    have not rendered yet; nothing else changes. *)
Definition startsFromCurrent (tw : Tween) : Prop :=
  tw_from tw = None /\ tw_starts tw = [] /\ tw_time tw = 0 /\ tw_paused tw = false.

Definition onlyAdds (s s' : State) : Prop :=
  (exists la, animations s' = animations s ++ la /\ Forall startsFromCurrent la)
  /\ styles s' = styles s /\ observers s' = observers s /\ listeners s' = listeners s.

Lemma onlyAdds_refl (s : State) : onlyAdds s s.
Proof.
  split; [exists []; rewrite app_nil_r; split; [reflexivity | constructor]|].
  repeat split.
Qed.

Lemma onlyAdds_trans (s1 s2 s3 : State) :
  onlyAdds s1 s2 -> onlyAdds s2 s3 -> onlyAdds s1 s3.
Proof.
  intros ([la [Ea Fa]] & Es & Eo & El) ([la' [Ea' Fa']] & Es' & Eo' & El').
  split.
  - exists (la ++ la'). rewrite Ea', Ea, app_assoc. split; [reflexivity|].
    apply Forall_app. split; assumption.
  - repeat split; congruence.
Qed.

Lemma forEach_onlyAdds {A : Type} (f : A -> nat -> M unit) :
  (forall a i s, exists s', f a i s = Ok (tt, s') /\ onlyAdds s s') ->
  forall l i s, exists s', forEach l f i s = Ok (tt, s') /\ onlyAdds s s'.
Proof.
  intros Hf. induction l as [|a l IH]; intros i s; simpl.
  - exists s. split; [reflexivity | apply onlyAdds_refl].
  - destruct (Hf a i s) as (s1 & E1 & X1).
    destruct (IH (S i) s1) as (s2 & E2 & X2).
    exists s2. unfold bind. rewrite E1. split; [exact E2|].
    eapply onlyAdds_trans; eauto.
Qed.

Lemma runCalls_onlyAdds (m : JsMath) (calls : list ToCall) (s : State) :
  exists s', runCalls m calls s = Ok (tt, s') /\ onlyAdds s s'.
Proof.
  unfold runCalls. apply forEach_onlyAdds. intros c i s0.
  eexists. split; [reflexivity|]. split.
  - eexists. split; [reflexivity|]. constructor; [|constructor]. repeat split.
  - repeat split.
Qed.

Lemma dispatchEvent_onlyAdds (m : JsMath) (e : Elem) (type : string) (s : State) :
  exists s', dispatchEvent m e type s = Ok (tt, s') /\ onlyAdds s s'.
Proof.
  unfold dispatchEvent. apply forEach_onlyAdds. intros l i s0.
  apply runCalls_onlyAdds.
Qed.

(** The pointer transitions in flight on an element: the tweens on it
    that no context holds. *)
Definition inFlight (e : Elem) (s : State) : list Tween :=
  filter (fun tw => negb (held tw) && existsb (Nat.eqb e) (tw_targets tw)) (animations s).

(** The reading of C3: an element never has two pointer transitions in
    flight, the earlier one being cancelled when the later one starts. *)
Definition inFlightIsCancelled : Prop :=
  forall m r ctx s1 steps s2 e,
    mount m r emptyState = Ok (ctx, s1) ->
    run m steps s1 = Ok s2 ->
    (List.length (inFlight e s2) <= 1)%nat.

(** C3, counterexample.  The pointer leaves the first social button a
    tenth of a second after entering: the enter transition is still in
    flight next to the leave transition. *)
Lemma enter_transition_is_not_cancelled : ~ inFlightIsCancelled.
Proof.
  intros H.
  pose (s1 := match mount sampleMath pageRefs emptyState with
              | Ok (_, s) => s | Throw _ => emptyState end).
  pose (steps := [Event 211%nat "mouseenter"; Tick 0.1; Event 211%nat "mouseleave"]).
  pose (s2 := match run sampleMath steps s1 with
              | Ok s => s | Throw _ => emptyState end).
  assert (E1 : mount sampleMath pageRefs emptyState = Ok (0%nat, s1))
    by (vm_compute; reflexivity).
  assert (E2 : run sampleMath steps s1 = Ok s2) by (vm_compute; reflexivity).
  specialize (H _ _ _ _ _ _ 211%nat E1 E2). clear E1 E2.
  vm_compute in H. lia.
Qed.


(* ================================================================== *)
(** ** The rendered page *)

Import View.

#[local] Close Scope Q_scope.

(** *** Class attributes *)

Definition tagOf (e : ReactElement) : string :=
  match e with Host t _ _ _ _ => t end.

Definition classOf (e : ReactElement) : string :=
  match e with Host _ _ c _ _ => c end.

Definition kidsOf (e : ReactElement) : list ReactElement :=
  match e with Host _ _ _ _ k => k end.

Fixpoint endsWithSpace (s : string) : bool :=
  match s with
  | EmptyString => false
  | String c EmptyString => isSpace c
  | String _ rest => endsWithSpace rest
  end.

Lemma splitClass_after_space (a b w : string) :
  endsWithSpace a = true ->
  splitClass (a ++ b) w = splitClass a w ++ classNames b.
Proof.
  revert w. induction a as [|c a IH]; intros w H; [discriminate|].
  destruct a as [|c' a].
  - simpl in H. simpl. rewrite H. now rewrite app_nil_r.
  - change (endsWithSpace (String c' a) = true) in H.
    change (splitClass (String c (String c' a ++ b)) w
            = splitClass (String c (String c' a)) w ++ classNames b).
    cbn [splitClass]. destruct (isSpace c).
    + rewrite (IH "" H). now rewrite <- app_assoc.
    + apply IH, H.
Qed.

Lemma classNames_after_space (a b : string) :
  endsWithSpace a = true -> classNames (a ++ b) = classNames a ++ classNames b.
Proof. apply splitClass_after_space. Qed.

Lemma splitClass_space (a b w : string) :
  splitClass (a ++ " " ++ b) w = splitClass a w ++ classNames b.
Proof.
  revert w. induction a as [|c a IH]; intros w.
  - reflexivity.
  - change (splitClass (String c (a ++ " " ++ b)) w
            = splitClass (String c a) w ++ classNames b).
    cbn [splitClass]. destruct (isSpace c).
    + rewrite IH. now rewrite <- app_assoc.
    + apply IH.
Qed.

Lemma classNames_space (a b : string) :
  classNames (a ++ " " ++ b) = classNames a ++ classNames b.
Proof. apply splitClass_space. Qed.

(** The class names the effect selects on. *)
Definition selectorClasses : list string :=
  ["service-card"; "service-icon"; "project-card"; "tech-badge"; "tech-stat";
   "icon-grid"; "tech-icon"; "stat-item"; "stat-number"; "stat-label";
   "contact-info"; "contact-form"; "contact-item"; "form-input"; "social-btn"].

Definition ownClasses (component : option string -> ReactElement) : list string :=
  classNames (classOf (component None)).

(** The seven components, each with its other props fixed. *)
Inductive isComponent : (option string -> ReactElement) -> Prop :=
| is_CustomButton variant size text children :
    isComponent (fun className => CustomButton variant size className text children)
| is_CustomCard children :
    isComponent (fun className => CustomCard className children)
| is_CustomCardHeader children :
    isComponent (fun className => CustomCardHeader className children)
| is_CustomCardContent children :
    isComponent (fun className => CustomCardContent className children)
| is_CustomCardTitle text :
    isComponent (fun className => CustomCardTitle className text)
| is_CustomCardDescription text :
    isComponent (fun className => CustomCardDescription className text)
| is_CustomBadge variant text :
    isComponent (fun className => CustomBadge variant className text).

Lemma component_classNames (component : option string -> ReactElement) (className : string) :
  isComponent component ->
  classNames (classOf (component (Some className)))
  = ownClasses component ++ classNames className.
Proof.
  intros [variant size text children|children|children|children|text|text|variant text];
    unfold ownClasses.
  - destruct variant as [[|]|], size as [[| |]|];
      cbn [CustomButton orDefault classOf];
      rewrite !classNames_space; change (classNames "") with (@nil string);
      now rewrite app_nil_r.
  - cbn [CustomCard orDefault classOf el].
    rewrite !classNames_after_space by reflexivity.
    change (classNames "") with (@nil string). now rewrite app_nil_r.
  - cbn [CustomCardHeader orDefault classOf el].
    rewrite !classNames_after_space by reflexivity.
    change (classNames "") with (@nil string). now rewrite app_nil_r.
  - cbn [CustomCardContent orDefault classOf el].
    rewrite !classNames_after_space by reflexivity.
    change (classNames "") with (@nil string). now rewrite app_nil_r.
  - cbn [CustomCardTitle orDefault classOf txt].
    rewrite !classNames_after_space by reflexivity.
    change (classNames "") with (@nil string). now rewrite app_nil_r.
  - cbn [CustomCardDescription orDefault classOf txt].
    rewrite !classNames_after_space by reflexivity.
    change (classNames "") with (@nil string). now rewrite app_nil_r.
  - destruct variant as [[|]|];
      cbn [CustomBadge orDefault classOf txt];
      rewrite !classNames_space; change (classNames "") with (@nil string);
      now rewrite app_nil_r.
Qed.

Lemma ownClasses_apart (component : option string -> ReactElement) (c : string) :
  isComponent component -> In c selectorClasses -> ~ In c (ownClasses component).
Proof.
  intros H Hc Hin.
  assert (E : existsb (fun x => existsb (String.eqb x) selectorClasses)
                (ownClasses component) = true).
  { apply existsb_exists. exists c. split; [exact Hin|].
    apply existsb_exists. exists c. split; [exact Hc | apply String.eqb_refl]. }
  clear Hc Hin. revert E.
  destruct H as [variant size text children|children|children|children|text|text|variant text].
  - destruct variant as [[|]|], size as [[| |]|]; vm_compute; discriminate.
  - vm_compute; discriminate.
  - vm_compute; discriminate.
  - vm_compute; discriminate.
  - vm_compute; discriminate.
  - vm_compute; discriminate.
  - destruct variant as [[|]|]; vm_compute; discriminate.
Qed.

(** X1. Each of the seven presentational components gives its element
    the classes of the component itself, which do not depend on the
    caller, followed by the classes the caller passes in [className]:
    the caller's classes are never dropped and always come last. *)
Theorem component_class_list (component : option string -> ReactElement)
  (className : string) :
  isComponent component ->
  classNames (classOf (component (Some className)))
  = ownClasses component ++ classNames className.
Proof. apply component_classNames. Qed.

Lemma component_class_list_witness :
  isComponent (fun className => CustomCard className [])
  /\ classNames (classOf (CustomCard (Some "service-card cursor-pointer") []))
     = ownClasses (fun className => CustomCard className [])
       ++ classNames "service-card cursor-pointer".
Proof.
  split; [constructor|].
  exact (component_class_list (fun className => CustomCard className [])
           "service-card cursor-pointer" (is_CustomCard [])).
Defined.

(** X2. None of the class names the effect selects on is among the
    classes a component adds by itself, whatever its variant and size:
    an element made by a component is matched by a selector of the
    effect exactly when the caller passed that class. *)
Theorem component_selected_by_caller_class (component : option string -> ReactElement)
  (c className : string) :
  isComponent component ->
  In c selectorClasses ->
  In c (classNames (classOf (component (Some className)))) <-> In c (classNames className).
Proof.
  intros H Hc. rewrite (component_classNames component className H). split.
  - intros Hin. apply in_app_or in Hin. destruct Hin as [Hin|Hin]; [|exact Hin].
    now apply (ownClasses_apart component c H Hc) in Hin.
  - intros Hin. apply in_or_app. now right.
Qed.

Lemma component_selected_by_caller_class_witness :
  isComponent (fun className => CustomBadge (Some badge_secondary) className "Python")
  /\ In "tech-badge" selectorClasses
  /\ (In "tech-badge"
        (classNames (classOf (CustomBadge (Some badge_secondary)
                                (Some "bg-white/10 text-white/80 border-white/20")
                                "Python")))
      <-> In "tech-badge" (classNames "bg-white/10 text-white/80 border-white/20")).
Proof.
  assert (H : isComponent
                (fun className => CustomBadge (Some badge_secondary) className "Python"))
    by constructor.
  assert (Hc : In "tech-badge" selectorClasses) by (cbn; tauto).
  split; [exact H|]. split; [exact Hc|].
  exact (component_selected_by_caller_class _ "tech-badge"
           "bg-white/10 text-white/80 border-white/20" H Hc).
Defined.

(** *** Elements and their nodes *)

Lemma ReactElement_induction (P : ReactElement -> Prop) :
  (forall t r c x k, Forall P k -> P (Host t r c x k)) ->
  forall e, P e.
Proof.
  intros H. fix IH 1. intros [t r c x k]. apply H.
  induction k as [|a k IHk]; constructor; [apply IH | exact IHk].
Qed.

(** [domOf e n]: [n] is a DOM tree of the element tree [e], whatever its
    handles. *)
Inductive domOf : ReactElement -> Node -> Prop :=
| domOf_Host tag r cn text kids u nodes :
    Forall2 domOf kids nodes ->
    domOf (Host tag r cn text kids) (Element u tag (classNames cn) text nodes).

Definition createNodes : nat -> list ReactElement -> list Node * nat :=
  fix appendAll (next : nat) (l : list ReactElement) : list Node * nat :=
    match l with
    | [] => ([], next)
    | k :: l' =>
        let '(node, next1) := createNode next k in
        let '(nodes, next2) := appendAll next1 l' in
        (node :: nodes, next2)
    end.

Lemma createNode_Host tag r cn text kids next :
  createNode next (Host tag r cn text kids)
  = let '(nodes, next') := createNodes (S next) kids in
    (Element next tag (classNames cn) text nodes, next').
Proof. reflexivity. Qed.

Lemma createNode_domOf (e : ReactElement) : forall next, domOf e (fst (createNode next e)).
Proof.
  induction e as [t r c x k IH] using ReactElement_induction. intros next.
  rewrite createNode_Host.
  assert (H : forall n, Forall2 domOf k (fst (createNodes n k))).
  { clear next. induction IH as [|a k Ha _ IHk]; intros n; simpl.
    - constructor.
    - specialize (Ha n). destruct (createNode n a) as [node n1].
      specialize (IHk n1). destruct (createNodes n1 k) as [nodes n2].
      constructor; assumption. }
  specialize (H (S next)). destruct (createNodes (S next) k) as [nodes n'].
  constructor. exact H.
Qed.

(** The selection of the DOM, read on the element tree. *)
Definition chosen (sel : Selector) (isFirst : bool) (e : ReactElement) : bool :=
  match sel with
  | ByClass c => existsb (String.eqb c) (classNames (classOf e))
  | DivFirstChild => isFirst && String.eqb (tagOf e) "div"
  end.

Definition amongWith (below : ReactElement -> list ReactElement) (sel : Selector) :=
  fix walk (isFirst : bool) (l : list ReactElement) : list ReactElement :=
    match l with
    | [] => []
    | c :: l' => (if chosen sel isFirst c then [c] else []) ++ below c ++ walk false l'
    end.

Fixpoint matchedIn (sel : Selector) (e : ReactElement) : list ReactElement :=
  match e with
  | Host _ _ _ _ kids => amongWith (matchedIn sel) sel true kids
  end.

Lemma chosen_selects sel isFirst e n :
  domOf e n -> selects sel isFirst n = chosen sel isFirst e.
Proof. intros H. destruct H. reflexivity. Qed.

Lemma matchesIn_domOf (sel : Selector) (e : ReactElement) :
  forall n, domOf e n -> Forall2 domOf (matchedIn sel e) (matchesIn sel n).
Proof.
  induction e as [t r c x k IH] using ReactElement_induction.
  intros n H. inversion H as [? ? ? ? ? u nodes Hk]; subst. simpl.
  generalize true as isFirst. clear H.
  induction Hk as [|a node k nodes Ha Hk IHk]; intros isFirst; simpl.
  - constructor.
  - inversion IH as [|? ? Pa Pk]; subst.
    apply Forall2_app.
    + rewrite (chosen_selects sel isFirst a node Ha).
      destruct (chosen sel isFirst a); constructor; [exact Ha | constructor].
    + apply Forall2_app; [apply Pa, Ha | apply IHk, Pk].
Qed.

(** The first element, in document order, that is handed the ref. *)
Definition firstWith (below : ReactElement -> option ReactElement) :=
  fix first (l : list ReactElement) : option ReactElement :=
    match l with
    | [] => None
    | k :: l' => match below k with Some x => Some x | None => first l' end
    end.

Definition holds (r : Ref) (e : ReactElement) : bool :=
  match e with
  | Host _ (Some x) _ _ _ => Ref_eqb r x
  | _ => false
  end.

Fixpoint handed (r : Ref) (e : ReactElement) : option ReactElement :=
  match e with
  | Host _ _ _ _ kids => if holds r e then Some e else firstWith (handed r) kids
  end.

Lemma attached_domOf (r : Ref) (e : ReactElement) :
  forall n, domOf e n ->
    match handed r e with
    | Some e' => exists n', attached r e n = Some n' /\ domOf e' n'
    | None => attached r e n = None
    end.
Proof.
  induction e as [t r' c x k IH] using ReactElement_induction.
  intros n H. inversion H as [? ? ? ? ? u nodes Hk]; subst.
  cbn [handed attached holds].
  destruct r' as [x'|]; [destruct (Ref_eqb r x')|].
  - eexists. split; [reflexivity | exact H].
  - clear H. induction Hk as [|a node k nodes Ha Hk IHk]; simpl; [reflexivity|].
    inversion IH as [|? ? Pa Pk]; subst. specialize (Pa node Ha).
    destruct (handed r a) as [e'|].
    + destruct Pa as (n' & E & D). rewrite E. eauto.
    + rewrite Pa. apply IHk, Pk.
  - clear H. induction Hk as [|a node k nodes Ha Hk IHk]; simpl; [reflexivity|].
    inversion IH as [|? ? Pa Pk]; subst. specialize (Pa node Ha).
    destruct (handed r a) as [e'|].
    + destruct Pa as (n' & E & D). rewrite E. eauto.
    + rewrite Pa. apply IHk, Pk.
Qed.

Lemma children_domOf e n : domOf e n -> Forall2 domOf (kidsOf e) (children n).
Proof. intros H. destruct H. assumption. Qed.



(** *** What the selectors find, whatever the content arrays hold *)

Lemma amongWith_map_none (below : ReactElement -> list ReactElement) (sel : Selector)
  {A : Type} (f : A -> ReactElement) (l : list A) :
  (forall x isFirst, chosen sel isFirst (f x) = false) ->
  (forall x, below (f x) = []) ->
  forall isFirst, amongWith below sel isFirst (map f l) = [].
Proof.
  intros Hc Hb. induction l as [|a l IH]; intros isFirst; [reflexivity|].
  cbn [map amongWith]. now rewrite Hc, Hb, IH.
Qed.

Lemma amongWith_map_each (below : ReactElement -> list ReactElement) (c : string)
  {A : Type} (f : A -> ReactElement) (l : list A) :
  (forall x, chosen (ByClass c) true (f x) = true) ->
  (forall x, below (f x) = []) ->
  forall isFirst, amongWith below (ByClass c) isFirst (map f l) = map f l.
Proof.
  intros Hc Hb. induction l as [|a l IH]; intros isFirst; [reflexivity|].
  cbn [map amongWith].
  change (chosen (ByClass c) isFirst (f a)) with (chosen (ByClass c) true (f a)).
  now rewrite Hc, Hb, IH.
Qed.

Lemma firstWith_map_none (below : ReactElement -> option ReactElement)
  {A : Type} (f : A -> ReactElement) (l : list A) :
  (forall x, below (f x) = None) -> firstWith below (map f l) = None.
Proof.
  intros Hb. induction l as [|a l IH]; [reflexivity|].
  cbn [map firstWith]. now rewrite Hb, IH.
Qed.

(** The classes of the three mapped items do not occur inside an item. *)
Definition itemClasses : list string := ["service-card"; "project-card"; "tech-badge"].

Ltac each_class H :=
  cbn [In itemClasses] in H;
  repeat (destruct H as [<-|H]; [|]); try contradiction.

Lemma serviceCard_inside (c : string) (service : Service) :
  In c ("tech-stat" :: itemClasses) -> matchedIn (ByClass c) (serviceCard service) = [].
Proof.
  intros H. each_class H; cbn.
  all: rewrite amongWith_map_none; [reflexivity | intros; reflexivity | intros; reflexivity].
Qed.

Lemma projectCard_inside (c : string) (project : Project) :
  In c ("tech-stat" :: itemClasses) -> matchedIn (ByClass c) (projectCard project) = [].
Proof.
  intros H. each_class H; cbn.
  all: rewrite amongWith_map_none; [reflexivity | intros; reflexivity | intros; reflexivity].
Qed.

Lemma techBadge_inside (c : string) (tech : string) :
  In c ("tech-stat" :: itemClasses) -> matchedIn (ByClass c) (techBadge tech) = [].
Proof. intros H. each_class H; reflexivity. Qed.

Lemma serviceCard_icon (service : Service) :
  matchedIn (ByClass "service-icon") (serviceCard service) = [serviceIcon service].
Proof.
  cbn. rewrite amongWith_map_none; [reflexivity | intros; reflexivity | intros; reflexivity].
Qed.

Ltac map_part Hin :=
  first [ rewrite amongWith_map_each; [ | reflexivity | exact Hin ]
        | rewrite amongWith_map_none; [ | reflexivity | exact Hin ] ];
  rewrite ?app_nil_r; reflexivity.

Lemma servicesView_cards (c : string) (services : list Service) :
  In c ("tech-stat" :: itemClasses) ->
  matchedIn (ByClass c) (servicesView services)
  = if String.eqb c "service-card" then map serviceCard services else [].
Proof.
  intros H. pose proof (serviceCard_inside c) as Hin. specialize (fun s => Hin s H).
  each_class H; cbn -[serviceCard]; map_part Hin.
Qed.

Lemma projectsView_cards (c : string) (projects : list Project) :
  In c ("tech-stat" :: itemClasses) ->
  matchedIn (ByClass c) (projectsView projects)
  = if String.eqb c "project-card" then map projectCard projects else [].
Proof.
  intros H. pose proof (projectCard_inside c) as Hin. specialize (fun s => Hin s H).
  each_class H; cbn -[projectCard]; map_part Hin.
Qed.

Lemma techView_cards (c : string) (technologies : list string) :
  In c itemClasses ->
  matchedIn (ByClass c) (techView technologies)
  = if String.eqb c "tech-badge" then map techBadge technologies else [].
Proof.
  intros H.
  assert (Hin : forall t, matchedIn (ByClass c) (techBadge t) = []).
  { intros t. apply techBadge_inside. now right. }
  each_class H; cbn -[techBadge]; map_part Hin.
Qed.

Lemma techView_stats (technologies : list string) :
  matchedIn (ByClass "tech-stat") (techView technologies)
  = [techStat "text-cyan-400" "12+" "Technologies";
     techStat "text-purple-400" "5+" "Years Experience";
     techStat "text-green-400" "100%" "Up to Date"].
Proof.
  assert (Hin : forall t, matchedIn (ByClass "tech-stat") (techBadge t) = []).
  { intros t. apply techBadge_inside. now left. }
  cbn -[techBadge techStat]. map_part Hin.
Qed.

(** No ref is handed to an element inside a mapped item. *)
Lemma serviceCard_handed (r : Ref) (service : Service) : handed r (serviceCard service) = None.
Proof. cbn. now rewrite firstWith_map_none. Qed.

Lemma projectCard_handed (r : Ref) (project : Project) : handed r (projectCard project) = None.
Proof. cbn. now rewrite firstWith_map_none. Qed.

Lemma techBadge_handed (r : Ref) (tech : string) : handed r (techBadge tech) = None.
Proof. reflexivity. Qed.

Lemma servicesView_handed (r : Ref) (services : list Service) :
  handed r (servicesView services)
  = if Ref_eqb r ref_services then Some (servicesView services) else None.
Proof.
  cbn -[serviceCard]. destruct (Ref_eqb r ref_services); [reflexivity|].
  rewrite firstWith_map_none; [reflexivity | apply serviceCard_handed].
Qed.

Lemma projectsView_handed (r : Ref) (projects : list Project) :
  handed r (projectsView projects)
  = if Ref_eqb r ref_projects then Some (projectsView projects) else None.
Proof.
  cbn -[projectCard]. destruct (Ref_eqb r ref_projects); [reflexivity|].
  rewrite firstWith_map_none; [reflexivity | apply projectCard_handed].
Qed.

Lemma techView_handed (r : Ref) (technologies : list string) :
  handed r (techView technologies)
  = if Ref_eqb r ref_tech then Some (techView technologies) else None.
Proof.
  cbn -[techBadge]. destruct (Ref_eqb r ref_tech); [reflexivity|].
  rewrite firstWith_map_none; [reflexivity | apply techBadge_handed].
Qed.

(** *** The mounted page *)

Lemma attached_none (r : Ref) (e : ReactElement) (n : Node) :
  domOf e n -> handed r e = None -> attached r e n = None.
Proof. intros D H. pose proof (attached_domOf r e n D) as A. now rewrite H in A. Qed.

Lemma attached_some (r : Ref) (e e' : ReactElement) (n : Node) :
  domOf e n -> handed r e = Some e' ->
  exists n', attached r e n = Some n' /\ domOf e' n'.
Proof. intros D H. pose proof (attached_domOf r e n D) as A. now rewrite H in A. Qed.

Lemma attached_self (r : Ref) (e : ReactElement) (n : Node) :
  domOf e n -> holds r e = true -> attached r e n = Some n.
Proof.
  intros D H. destruct D as [tag r' cn text kids u nodes Hk].
  cbn [attached]. cbn [holds] in H. destruct r' as [x|]; [|discriminate].
  now rewrite H.
Qed.

(** [pageOf services projects technologies r]: [r] holds the refs and the
    document of the page mounted for these content arrays. *)
Definition pageOf (services : list Service) (projects : list Project)
  (technologies : list string) (r : Refs) : Prop :=
  exists u cl nav hero sv pj tc ab ct ft title subtitle buttons,
    r = {| heroRef := Some (Element u "div" cl "" [nav; hero; sv; pj; tc; ab; ct; ft]);
           titleRef := Some title;
           subtitleRef := Some subtitle;
           buttonsRef := Some buttons;
           servicesRef := Some sv;
           projectsRef := Some pj;
           techRef := Some tc;
           aboutRef := Some ab;
           contactRef := Some ct;
           document := Element u "div" cl "" [nav; hero; sv; pj; tc; ab; ct; ft] |}
    /\ domOf navigationView nav
    /\ domOf heroView hero
    /\ domOf (servicesView services) sv
    /\ domOf (projectsView projects) pj
    /\ domOf (techView technologies) tc
    /\ domOf aboutView ab
    /\ domOf contactView ct
    /\ domOf footerView ft
    /\ domOf heroTitleView title
    /\ domOf heroSubtitleView subtitle
    /\ domOf heroButtonsView buttons.

Lemma mounted_pageOf (services : list Service) (projects : list Project)
  (technologies : list string) :
  pageOf services projects technologies (mounted (markup services projects technologies)).
Proof.
  unfold mounted.
  pose proof (createNode_domOf (markup services projects technologies) 0) as D.
  destruct (fst (createNode 0 (markup services projects technologies))) as [u t cl x nodes].
  unfold markup in D |- *.
  inversion D as [? ? ? ? ? ? ? Hk]; subst.
  repeat match goal with
         | H : Forall2 domOf (_ :: _) _ |- _ => inversion H; subst; clear H
         | H : Forall2 domOf [] _ |- _ => inversion H; subst; clear H
         end.
  match goal with
  | |- context [Element u "div" ?cl "" [?nav; ?hero; ?sv; ?pj; ?tc; ?ab; ?ct; ?ft]] =>
      assert (Dnav : domOf navigationView nav) by assumption;
      assert (Dhero : domOf heroView hero) by assumption;
      assert (Dsv : domOf (servicesView services) sv) by assumption;
      assert (Dpj : domOf (projectsView projects) pj) by assumption;
      assert (Dtc : domOf (techView technologies) tc) by assumption;
      assert (Dab : domOf aboutView ab) by assumption;
      assert (Dct : domOf contactView ct) by assumption;
      assert (Dft : domOf footerView ft) by assumption;
      destruct (attached_some ref_title heroView heroTitleView hero Dhero eq_refl)
        as (title & Etitle & Dtitle);
      destruct (attached_some ref_subtitle heroView heroSubtitleView hero Dhero eq_refl)
        as (subtitle & Esubtitle & Dsubtitle);
      destruct (attached_some ref_buttons heroView heroButtonsView hero Dhero eq_refl)
        as (buttons & Ebuttons & Dbuttons);
      exists u, cl, nav, hero, sv, pj, tc, ab, ct, ft, title, subtitle, buttons
  end.
  split; [|repeat apply conj; assumption].
  cbn [attached holds Ref_eqb].
  rewrite !(fun r H => attached_none r navigationView _ Dnav H) by reflexivity.
  rewrite Etitle, Esubtitle, Ebuttons.
  rewrite !(fun r H => attached_none r heroView _ Dhero H) by reflexivity.
  rewrite (attached_self ref_services _ _ Dsv eq_refl).
  rewrite !(fun r H => attached_none r (servicesView services) _ Dsv H)
    by (rewrite servicesView_handed; reflexivity).
  rewrite (attached_self ref_projects _ _ Dpj eq_refl).
  rewrite !(fun r H => attached_none r (projectsView projects) _ Dpj H)
    by (rewrite projectsView_handed; reflexivity).
  rewrite (attached_self ref_tech _ _ Dtc eq_refl).
  rewrite !(fun r H => attached_none r (techView technologies) _ Dtc H)
    by (rewrite techView_handed; reflexivity).
  rewrite (attached_self ref_about _ _ Dab eq_refl).
  rewrite !(fun r H => attached_none r aboutView _ Dab H) by reflexivity.
  rewrite (attached_self ref_contact _ _ Dct eq_refl).
  reflexivity.
Qed.

Lemma matchesIn_none (sel : Selector) (e : ReactElement) (n : Node) :
  domOf e n -> matchedIn sel e = [] -> matchesIn sel n = [].
Proof.
  intros D E. pose proof (matchesIn_domOf sel e n D) as F. rewrite E in F.
  now inversion F.
Qed.

Lemma Forall2_domOf_length (l : list ReactElement) (ns : list Node) :
  Forall2 domOf l ns -> List.length ns = List.length l.
Proof. intros H. symmetry. eapply Forall2_length, H. Qed.

(** The service cards of the document are those of the services section. *)
Lemma pageOf_document_cards services projects technologies r sv :
  pageOf services projects technologies r ->
  servicesRef r = Some sv ->
  matchesIn (ByClass "service-card") (document r) = matchesIn (ByClass "service-card") sv.
Proof.
  intros (u & cl & nav & hero & sv' & pj & tc & ab & ct & ft & title & subtitle & buttons
          & -> & Dnav & Dhero & Dsv & Dpj & Dtc & Dab & Dct & Dft & _) [= <-].
  cbn [document matchesIn].
  rewrite !(chosen_selects _ _ _ _ Dnav), !(chosen_selects _ _ _ _ Dhero),
    !(chosen_selects _ _ _ _ Dsv), !(chosen_selects _ _ _ _ Dpj),
    !(chosen_selects _ _ _ _ Dtc), !(chosen_selects _ _ _ _ Dab),
    !(chosen_selects _ _ _ _ Dct), !(chosen_selects _ _ _ _ Dft).
  rewrite (matchesIn_none (ByClass "service-card") _ _ Dnav eq_refl),
    (matchesIn_none (ByClass "service-card") _ _ Dhero eq_refl),
    (matchesIn_none (ByClass "service-card") _ _ Dab eq_refl),
    (matchesIn_none (ByClass "service-card") _ _ Dct eq_refl),
    (matchesIn_none (ByClass "service-card") _ _ Dft eq_refl).
  rewrite (matchesIn_none (ByClass "service-card") _ _ Dpj)
    by (rewrite projectsView_cards; [reflexivity | cbn; tauto]).
  rewrite (matchesIn_none (ByClass "service-card") _ _ Dtc)
    by (rewrite techView_cards; [reflexivity | cbn; tauto]).
  cbn. now rewrite app_nil_r.
Qed.

(** X3. Whatever the three content arrays hold, the selectors of the
    effect find in the mounted page exactly one service card per service,
    one project card per project and one badge per technology, in the
    order of the arrays; the labels inside a project card are not taken
    for badges, and the service cards the hover handlers go to are the
    cards of the services section. *)
Theorem selectors_find_the_content (services : list Service) (projects : list Project)
  (technologies : list string) :
  let r := mounted (markup services projects technologies) in
  exists sv pj tc,
    servicesRef r = Some sv /\ projectsRef r = Some pj /\ techRef r = Some tc
    /\ Forall2 domOf (map serviceCard services) (matchesIn (ByClass "service-card") sv)
    /\ matchesIn (ByClass "service-card") (document r)
       = matchesIn (ByClass "service-card") sv
    /\ Forall2 domOf (map projectCard projects) (matchesIn (ByClass "project-card") pj)
    /\ Forall2 domOf (map techBadge technologies) (matchesIn (ByClass "tech-badge") tc).
Proof.
  intros r. pose proof (mounted_pageOf services projects technologies) as Hp.
  fold r in Hp. pose proof Hp as Hp'.
  destruct Hp' as (u & cl & nav & hero & sv & pj & tc & ab & ct & ft & title & subtitle
                  & buttons & E & Dnav & Dhero & Dsv & Dpj & Dtc & _).
  exists sv, pj, tc. rewrite E. cbn [servicesRef projectsRef techRef].
  repeat apply conj; try reflexivity.
  - pose proof (matchesIn_domOf (ByClass "service-card") _ _ Dsv) as F.
    rewrite servicesView_cards in F by (cbn; tauto). exact F.
  - rewrite <- E. apply (pageOf_document_cards services projects technologies); [exact Hp|].
    rewrite E. reflexivity.
  - pose proof (matchesIn_domOf (ByClass "project-card") _ _ Dpj) as F.
    rewrite projectsView_cards in F by (cbn; tauto). exact F.
  - pose proof (matchesIn_domOf (ByClass "tech-badge") _ _ Dtc) as F.
    rewrite techView_cards in F by (cbn; tauto). exact F.
Qed.

(* ================================================================== *)
(** ** What the effect registers, item by item *)

#[local] Open Scope Q_scope.

Section Counting.

Variable QT : Tween -> Prop.
Variable QO : ScrollTrigger -> Prop.
Variable QL : Listener -> Prop.

Lemma adds_as {A : Type} (c : M A) a n o l n' o' l' :
  adds QT QO QL c a n o l -> n = n' -> o = o' -> l = l' ->
  adds QT QO QL c a n' o' l'.
Proof. intros H <- <- <-. exact H. Qed.

Lemma adds_bind_value {A B : Type} (a : A) (k : A -> M B) b n o l :
  adds QT QO QL (k a) b n o l -> adds QT QO QL (bind (lift (Ok a)) k) b n o l.
Proof. intros [Fl H]. split; [exact Fl|]. intros s. exact (H s). Qed.

Lemma adds_bind_querySelectorAll {B : Type} (n : Node) (sel : string) (x : Selector)
  (k : list Node -> M B) b na no l :
  parseSelector sel = Some x ->
  adds QT QO QL (k (matchesIn x n)) b na no l ->
  adds QT QO QL (bind (lift (querySelectorAll n sel)) k) b na no l.
Proof. intros E H. unfold querySelectorAll. rewrite E. apply adds_bind_value, H. Qed.

Lemma adds_bind_querySelector {B : Type} (n : Node) (sel : string) (x : Selector)
  (k : option Node -> M B) b na no l :
  parseSelector sel = Some x ->
  adds QT QO QL (k (hd_error (matchesIn x n))) b na no l ->
  adds QT QO QL (bind (lift (querySelector n sel)) k) b na no l.
Proof. intros E H. unfold querySelector. rewrite E. apply adds_bind_value, H. Qed.

Lemma adds_bind_deref {A B : Type} (a : A) (what : string) (k : A -> M B) b n o l :
  adds QT QO QL (k a) b n o l -> adds QT QO QL (bind (deref (Some a) what) k) b n o l.
Proof. intros [Fl H]. split; [exact Fl|]. intros s. exact (H s). Qed.

Lemma adds_timeline_fromTo (m : JsMath) (tl : Q) (targets : list Elem) (from : Vars)
  (v : TweenVars) (pos : Position) :
  (forall id ctx p, QT (freshTween m id ctx targets (Some from) v p false)) ->
  exists tl', adds QT QO QL (timeline_fromTo m tl targets from v pos) tl' 1 0 [].
Proof.
  intros H. eexists. split; [constructor|].
  intros s. eexists _, [_], [].
  split; [unfold timeline_fromTo, bind, newTween, ret; reflexivity|].
  apply one_tween, H.
Qed.

Lemma adds_forEach {A : Type} (l : list A) (f : A -> nat -> M unit)
  (na no : A -> nat) (ll : A -> list Listener) :
  (forall a i, In a l -> adds QT QO QL (f a i) tt (na a) (no a) (ll a)) ->
  forall i, adds QT QO QL (forEach l f i) tt
              (list_sum (map na l)) (list_sum (map no l)) (flat_map ll l).
Proof.
  induction l as [|a l IH]; intros Hf i; cbn [forEach map list_sum flat_map].
  - apply adds_ret.
  - apply adds_bind with (a := tt).
    + apply Hf. now left.
    + apply IH. intros b j Hb. apply Hf. now right.
Qed.

End Counting.

Definition listen (n : Node) (type : string) (handler : list ToCall) : Listener :=
  {| l_target := uid n; l_type := type; l_handler := handler |}.

Definition badgeListeners (badge : Node) : list Listener :=
  [listen badge "mouseenter" (badgeEnter badge);
   listen badge "mouseleave" (badgeLeave badge)].

Definition iconListeners (icon : Node) : list Listener :=
  [listen icon "mouseenter" (iconEnter icon);
   listen icon "mouseleave" (iconLeave icon)].

Definition socialListeners (btn : Node) : list Listener :=
  [listen btn "mouseenter" (socialEnter btn);
   listen btn "mouseleave" (socialLeave btn)].

Definition inputListeners (input : Node) : list Listener :=
  [listen input "focus" (inputFocus input);
   listen input "blur" (inputBlur input)].

Definition cardListeners (card : Node) : list Listener :=
  let icon := hd_error (matchesIn (ByClass "service-icon") card) in
  [listen card "mouseenter" (cardEnter card icon);
   listen card "mouseleave" (cardLeave card icon)].

(** What a selector finds below a ref; nothing when the ref is null. *)
Definition found (o : option Node) (c : string) : list Node :=
  match o with
  | Some n => matchesIn (ByClass c) n
  | None => []
  end.

(** A stat makes one tween, and a second one when its number is there. *)
Definition statTweens (sel : Selector) (stat : Node) : nat :=
  if isSome (hd_error (matchesIn sel stat)) then 2 else 1.

Definition given (o : option Node) (n : nat) : nat :=
  if isSome o then n else 0.

Definition heroTweens (r : Refs) : nat :=
  given (titleRef r) 2 + given (subtitleRef r) 1 + given (buttonsRef r) 1.

Definition techTweens (r : Refs) : nat :=
  given (techRef r)
    (1 + List.length (found (techRef r) "tech-badge")
     + list_sum (map (statTweens DivFirstChild) (found (techRef r) "tech-stat"))).

Definition aboutTweens (r : Refs) : nat :=
  given (aboutRef r)
    (1 + list_sum (map (statTweens (ByClass "stat-number"))
                       (found (aboutRef r) "stat-item"))).

Definition contactTweens (r : Refs) : nat :=
  given (contactRef r) (4 + 2 * List.length (found (contactRef r) "social-btn")).

Definition plannedTweens (r : Refs) : nat :=
  heroTweens r + given (servicesRef r) 1
  + List.length (found (projectsRef r) "project-card")
  + techTweens r + aboutTweens r + contactTweens r.

Definition plannedTriggers (r : Refs) : nat :=
  given (servicesRef r) 1
  + List.length (found (projectsRef r) "project-card")
  + given (techRef r)
      (2 + list_sum (map (statTweens DivFirstChild) (found (techRef r) "tech-stat")))
  + given (aboutRef r)
      (1 + list_sum (map (statTweens (ByClass "stat-number"))
                         (found (aboutRef r) "stat-item")))
  + given (contactRef r) 4.

Definition plannedListeners (r : Refs) : list Listener :=
  flat_map badgeListeners (found (techRef r) "tech-badge")
  ++ flat_map iconListeners (found (aboutRef r) "tech-icon")
  ++ flat_map socialListeners (found (contactRef r) "social-btn")
  ++ flat_map inputListeners (found (contactRef r) "form-input")
  ++ flat_map cardListeners (matchesIn (ByClass "service-card") (document r)).

Ltac count_step :=
  lazymatch goal with
  | |- adds _ _ _ (bind (Math_random _) _) _ _ _ _ => eapply adds_random; intros
  | |- adds _ _ _ (bind (lift (querySelectorAll _ _)) _) _ _ _ _ =>
      eapply adds_bind_querySelectorAll; [reflexivity | cbv beta]
  | |- adds _ _ _ (bind (lift (querySelector _ _)) _) _ _ _ _ =>
      eapply adds_bind_querySelector; [reflexivity | cbv beta]
  | |- adds _ _ _ (bind (deref (Some _) _) _) _ _ _ _ =>
      eapply adds_bind_deref; cbv beta
  | |- adds _ _ _ (bind _ _) _ _ _ _ => eapply adds_bind
  | |- adds _ _ _ (to _ _ _) _ _ _ _ => eapply adds_to; intros; exact I
  | |- adds _ _ _ (set _ _ _) _ _ _ _ => eapply adds_set; intros; exact I
  | |- adds _ _ _ (fromTo _ _ _ _ None) _ _ _ _ => eapply adds_fromTo; intros; exact I
  | |- adds _ _ _ (fromTo _ _ _ _ (Some _)) _ _ _ _ =>
      eapply adds_fromTo_trigger; intros; exact I
  | |- adds _ _ _ (ScrollTrigger_create _) _ _ _ _ =>
      eapply adds_ScrollTrigger_create; intros; exact I
  | |- adds _ _ _ (addEventListener _ _ _) _ _ _ _ =>
      eapply adds_addEventListener; exact I
  | |- adds _ _ _ (ret _) _ _ _ _ => eapply adds_ret
  end.

Ltac count := repeat count_step.

Lemma counts_stat (m : JsMath) (sel : Selector) (stat : Node) (from : Vars)
  (v : TweenVars) (st : ScrollTriggerVars) (k : Node -> M unit) :
  (forall number, adds anyTween anyTrigger anyListener (k number) tt 1 1 []) ->
  adds anyTween anyTrigger anyListener
    (bind (fromTo m (element stat) from v (Some st)) (fun _ =>
       if isSome (hd_error (matchesIn sel stat))
       then bind (deref (hd_error (matchesIn sel stat)) "number") k
       else ret tt))
    tt (statTweens sel stat) (statTweens sel stat) [].
Proof.
  intros Hk. unfold statTweens.
  destruct (hd_error (matchesIn sel stat)) as [number|]; cbn [isSome].
  - eapply adds_as; [count; apply Hk | reflexivity | reflexivity | reflexivity].
  - eapply adds_as; [count | reflexivity | reflexivity | reflexivity].
Qed.

Lemma list_sum_ones {A : Type} (l : list A) : list_sum (map (fun _ => 1%nat) l) = List.length l.
Proof. induction l as [|a l IH]; simpl; [reflexivity | now rewrite IH]. Qed.

Lemma list_sum_zeros {A : Type} (l : list A) : list_sum (map (fun _ => 0%nat) l) = 0%nat.
Proof. induction l as [|a l IH]; simpl; [reflexivity | exact IH]. Qed.

Lemma list_sum_twos {A : Type} (l : list A) :
  list_sum (map (fun _ => 2%nat) l) = (2 * List.length l)%nat.
Proof. induction l as [|a l IH]; simpl; [reflexivity | rewrite IH; lia]. Qed.

Lemma flat_map_nothing {A B : Type} (l : list A) : flat_map (fun _ => @nil B) l = [].
Proof. induction l as [|a l IH]; simpl; [reflexivity | exact IH]. Qed.

Lemma heroTitle_counts m r :
  exists tl, adds anyTween anyTrigger anyListener (heroTitle m r) tl
               (given (titleRef r) 2) 0 [].
Proof.
  unfold heroTitle, given. destruct (titleRef r) as [title|]; cbn [isSome].
  - edestruct (adds_timeline_fromTo anyTween anyTrigger anyListener m) as [tl H];
      [intros; exact I|].
    exists tl. eapply adds_as; [count; exact H | reflexivity | reflexivity | reflexivity].
  - exists 0. apply adds_ret.
Qed.

Lemma heroSubtitle_counts m r tl :
  exists tl', adds anyTween anyTrigger anyListener (heroSubtitle m r tl) tl'
                (given (subtitleRef r) 1) 0 [].
Proof.
  unfold heroSubtitle, given. destruct (subtitleRef r) as [subtitle|]; cbn [isSome].
  - edestruct (adds_timeline_fromTo anyTween anyTrigger anyListener m) as [tl' H];
      [intros; exact I|].
    exists tl'. eapply adds_as; [count; exact H | reflexivity | reflexivity | reflexivity].
  - exists tl. apply adds_ret.
Qed.

Lemma heroButtons_counts m r tl :
  exists tl', adds anyTween anyTrigger anyListener (heroButtons m r tl) tl'
                (given (buttonsRef r) 1) 0 [].
Proof.
  unfold heroButtons, given. destruct (buttonsRef r) as [buttons|]; cbn [isSome].
  - edestruct (adds_timeline_fromTo anyTween anyTrigger anyListener m) as [tl' H];
      [intros; exact I|].
    exists tl'. eapply adds_as; [count; exact H | reflexivity | reflexivity | reflexivity].
  - exists tl. apply adds_ret.
Qed.

Lemma servicesSection_counts m r :
  adds anyTween anyTrigger anyListener (servicesSection m r) tt
    (given (servicesRef r) 1) (given (servicesRef r) 1) [].
Proof.
  unfold servicesSection, given. destruct (servicesRef r) as [services|]; cbn [isSome].
  - eapply adds_as; [count | reflexivity | reflexivity | reflexivity].
  - apply adds_ret.
Qed.

Lemma projectsSection_counts m r :
  adds anyTween anyTrigger anyListener (projectsSection m r) tt
    (List.length (found (projectsRef r) "project-card"))
    (List.length (found (projectsRef r) "project-card")) [].
Proof.
  unfold projectsSection, found. destruct (projectsRef r) as [projects|]; cbn [isSome].
  - eapply adds_as.
    + count. apply adds_forEach with (na := fun _ => 1%nat) (no := fun _ => 1%nat)
                                     (ll := fun _ => []).
      intros card i _. count.
    + apply list_sum_ones.
    + apply list_sum_ones.
    + apply flat_map_nothing.
  - apply adds_ret.
Qed.

Lemma techSection_counts m r :
  adds anyTween anyTrigger anyListener (techSection m r) tt
    (techTweens r)
    (given (techRef r)
       (2 + list_sum (map (statTweens DivFirstChild) (found (techRef r) "tech-stat"))))
    (flat_map badgeListeners (found (techRef r) "tech-badge")).
Proof.
  unfold techSection, techTweens, given, found.
  destruct (techRef r) as [tech|]; cbn [isSome]; [|apply adds_ret].
  eapply adds_as.
  - count_step. count_step. eapply adds_bind; [count_step|].
    eapply adds_bind.
    { apply adds_forEach with (na := fun _ => 1%nat) (no := fun _ => 0%nat)
                              (ll := badgeListeners).
      intros badge i _.
      eapply adds_as; [count | reflexivity | reflexivity | reflexivity]. }
    eapply adds_bind; [count_step|].
    count_step.
    apply adds_forEach with (na := statTweens DivFirstChild)
                            (no := statTweens DivFirstChild) (ll := fun _ => []).
    intros stat i _. count_step. apply counts_stat. intros number. cbv beta zeta. count.
  - rewrite list_sum_ones. cbn. lia.
  - rewrite list_sum_zeros. cbn. lia.
  - rewrite flat_map_nothing. cbn. now rewrite app_nil_r.
Qed.

Lemma aboutSection_counts m r :
  adds anyTween anyTrigger anyListener (aboutSection m r) tt
    (aboutTweens r) (aboutTweens r)
    (flat_map iconListeners (found (aboutRef r) "tech-icon")).
Proof.
  unfold aboutSection, aboutTweens, given, found.
  destruct (aboutRef r) as [about|]; cbn [isSome]; [|apply adds_ret].
  eapply adds_as.
  - count_step. count_step. count_step. count_step. eapply adds_bind; [count_step|].
    eapply adds_bind.
    { apply adds_forEach with (na := fun _ => 0%nat) (no := fun _ => 0%nat)
                              (ll := iconListeners).
      intros icon i _.
      eapply adds_as; [count | reflexivity | reflexivity | reflexivity]. }
    apply adds_forEach with (na := statTweens (ByClass "stat-number"))
                            (no := statTweens (ByClass "stat-number")) (ll := fun _ => []).
    intros stat i _. count_step. count_step. apply counts_stat.
    intros number. cbv beta zeta. count.
  - rewrite list_sum_zeros. cbn. lia.
  - rewrite list_sum_zeros. cbn. lia.
  - rewrite flat_map_nothing. cbn. now rewrite app_nil_r.
Qed.

Lemma contactSection_counts m r :
  adds anyTween anyTrigger anyListener (contactSection m r) tt
    (contactTweens r) (given (contactRef r) 4)
    (flat_map socialListeners (found (contactRef r) "social-btn")
     ++ flat_map inputListeners (found (contactRef r) "form-input")).
Proof.
  unfold contactSection, contactTweens, given, found.
  destruct (contactRef r) as [contact|]; cbn [isSome]; [|apply adds_ret].
  eapply adds_as.
  - do 6 count_step.
    do 4 (eapply adds_bind; [count_step|]).
    eapply adds_bind.
    { apply adds_forEach with (na := fun _ => 2%nat) (no := fun _ => 0%nat)
                              (ll := socialListeners).
      intros btn i _.
      eapply adds_as; [count | reflexivity | reflexivity | reflexivity]. }
    apply adds_forEach with (na := fun _ => 0%nat) (no := fun _ => 0%nat)
                            (ll := inputListeners).
    intros input i _.
    eapply adds_as; [count | reflexivity | reflexivity | reflexivity].
  - rewrite list_sum_twos, list_sum_zeros. cbn. lia.
  - rewrite !list_sum_zeros. cbn. lia.
  - reflexivity.
Qed.

Lemma serviceHover_counts r :
  adds anyTween anyTrigger anyListener (serviceHover r) tt 0 0
    (flat_map cardListeners (matchesIn (ByClass "service-card") (document r))).
Proof.
  unfold serviceHover.
  eapply adds_as.
  - count_step.
    apply adds_forEach with (na := fun _ => 0%nat) (no := fun _ => 0%nat)
                            (ll := cardListeners).
    intros card i _.
    eapply adds_as; [count | reflexivity | reflexivity | reflexivity].
  - apply list_sum_zeros.
  - apply list_sum_zeros.
  - reflexivity.
Qed.

Lemma initialize_counts m r :
  adds anyTween anyTrigger anyListener (initialize m r) tt
    (plannedTweens r) (plannedTriggers r) (plannedListeners r).
Proof.
  unfold initialize.
  destruct (heroTitle_counts m r) as [tl1 H1].
  destruct (heroSubtitle_counts m r tl1) as [tl2 H2].
  destruct (heroButtons_counts m r tl2) as [tl3 H3].
  eapply adds_as.
  - eapply adds_bind; [exact H1|].
    eapply adds_bind; [exact H2|].
    eapply adds_bind; [exact H3|].
    eapply adds_bind; [apply servicesSection_counts|].
    eapply adds_bind; [apply projectsSection_counts|].
    eapply adds_bind; [apply techSection_counts|].
    eapply adds_bind; [apply aboutSection_counts|].
    eapply adds_bind; [apply contactSection_counts|].
    apply serviceHover_counts.
  - unfold plannedTweens, heroTweens. lia.
  - unfold plannedTriggers, aboutTweens. lia.
  - unfold plannedListeners. cbn [app]. now rewrite <- !app_assoc.
Qed.

Lemma mount_counts (m : JsMath) (r : Refs) (s : State) :
  exists s',
    mount m r s = Ok (nextCtx s, s')
    /\ List.length (animations s') = (List.length (animations s) + plannedTweens r)%nat
    /\ List.length (observers s') = (List.length (observers s) + plannedTriggers r)%nat
    /\ listeners s' = listeners s ++ plannedListeners r.
Proof.
  destruct (initialize_counts m r) as [_ H].
  destruct (H (setContext (Some (nextCtx s)) true s))
    as (s1 & la & lo & E & Ea & Na & _ & Eo & No & _ & El & _).
  exists (setContext (context s) false s1).
  split; [apply mount_initialize, E|].
  cbn [setContext animations observers listeners] in *.
  rewrite Ea, Eo, El, !length_app, Na, No. repeat split.
Qed.

(** *** Listeners come in pairs *)

Definition opposite (a b : string) : Prop :=
  (a = "mouseenter" /\ b = "mouseleave") \/ (a = "focus" /\ b = "blur").

(** The second handler goes to the targets and properties of the first
    and sends every number to the value of the property at rest. *)
Definition restores (enter leave : list ToCall) : Prop :=
  Forall2 (fun ce cl =>
             call_targets ce = call_targets cl
             /\ map fst (props (call_vars ce)) = map fst (props (call_vars cl))
             /\ Forall (fun pv => match snd pv with
                                  | VNum q => q == restValue (fst pv)
                                  | VStr _ => True
                                  end) (props (call_vars cl)))
          enter leave.

Inductive paired : list Listener -> Prop :=
| paired_nil : paired []
| paired_cons e a b enter leave rest :
    opposite a b -> restores enter leave -> paired rest ->
    paired ({| l_target := e; l_type := a; l_handler := enter |}
            :: {| l_target := e; l_type := b; l_handler := leave |} :: rest).

Lemma paired_app (l l' : list Listener) : paired l -> paired l' -> paired (l ++ l').
Proof.
  intros H H'. induction H as [|e a b enter leave rest Ho Hr Hp IH]; [exact H'|].
  cbn [app]. now constructor.
Qed.

Lemma paired_flat_map {A : Type} (f : A -> list Listener) (l : list A) :
  (forall a, paired (f a)) -> paired (flat_map f l).
Proof.
  intros Hf. induction l as [|a l IH]; cbn [flat_map]; [constructor|].
  apply paired_app; [apply Hf | exact IH].
Qed.

Ltac pair_up :=
  constructor;
  [ first [ left; split; reflexivity | right; split; reflexivity ]
  | repeat (constructor;
            [ split; [reflexivity | split; [reflexivity |
                repeat (constructor; [first [exact I | reflexivity]|]); constructor ]] | ]);
    constructor
  | constructor ].

Lemma plannedListeners_paired (r : Refs) : paired (plannedListeners r).
Proof.
  unfold plannedListeners.
  repeat apply paired_app; apply paired_flat_map; intros a.
  - unfold badgeListeners, listen. pair_up.
  - unfold iconListeners, listen. pair_up.
  - unfold socialListeners, listen. pair_up.
  - unfold inputListeners, listen. pair_up.
  - unfold cardListeners, listen. cbv zeta. pair_up.
Qed.

(** X5. Every listener the effect registers is one half of a pair on one
    element, registered back to back: mouseenter with mouseleave, or focus
    with blur.  The second handler of a pair goes to the same targets and
    the same properties as the first and sends every numeric property to
    its value at rest (scale 1, the others 0). *)
Theorem listeners_are_registered_in_pairs (m : JsMath) (r : Refs) (s : State) :
  exists ctx s' ll,
    mount m r s = Ok (ctx, s')
    /\ listeners s' = listeners s ++ ll
    /\ paired ll.
Proof.
  destruct (mount_counts m r s) as (s' & E & _ & _ & El).
  exists (nextCtx s), s', (plannedListeners r).
  split; [exact E|]. split; [exact El | apply plannedListeners_paired].
Qed.

(** *** The mounted page, counted *)

Lemma statTweens_there (sel : Selector) (es : list ReactElement) (ns : list Node) :
  Forall2 domOf es ns ->
  Forall (fun e => matchedIn sel e <> []) es ->
  list_sum (map (statTweens sel) ns) = (2 * List.length es)%nat.
Proof.
  intros H. induction H as [|e n es ns D _ IH]; intros F; [reflexivity|].
  inversion F as [|? ? He Hes]; subst.
  change (list_sum (map (statTweens sel) (n :: ns)))
    with (statTweens sel n + list_sum (map (statTweens sel) ns))%nat.
  cbn [List.length]. rewrite (IH Hes). unfold statTweens.
  pose proof (matchesIn_domOf sel e n D) as M.
  destruct (matchedIn sel e) as [|x xs]; [contradiction|].
  inversion M; subst. cbn. lia.
Qed.

Lemma pairs_length {A : Type} (f : A -> list Listener) (l : list A) :
  (forall a, List.length (f a) = 2%nat) ->
  List.length (flat_map f l) = (2 * List.length l)%nat.
Proof.
  intros Hf. induction l as [|a l IH]; [reflexivity|].
  cbn [flat_map List.length]. rewrite length_app, Hf, IH. lia.
Qed.

Lemma pageOf_counts (services : list Service) (projects : list Project)
  (technologies : list string) (r : Refs) :
  pageOf services projects technologies r ->
  plannedTweens r = (29 + List.length projects + List.length technologies)%nat
  /\ plannedTriggers r = (20 + List.length projects)%nat
  /\ List.length (plannedListeners r)
     = (26 + 2 * List.length technologies + 2 * List.length services)%nat.
Proof.
  intros Hp.
  pose proof (fun sv => pageOf_document_cards services projects technologies r sv Hp) as Hdoc.
  destruct Hp as (u & cl & nav & hero & sv & pj & tc & ab & ct & ft & title & subtitle
                  & buttons & -> & Dnav & Dhero & Dsv & Dpj & Dtc & Dab & Dct & Dft & _).
  specialize (Hdoc sv eq_refl).
  unfold plannedTweens, plannedTriggers, plannedListeners, heroTweens, techTweens,
    aboutTweens, contactTweens, given, found.
  rewrite Hdoc.
  cbn [titleRef subtitleRef buttonsRef servicesRef projectsRef techRef aboutRef
       contactRef isSome].
  pose proof (matchesIn_domOf (ByClass "service-card") _ _ Dsv) as Fsv.
  rewrite servicesView_cards in Fsv by (cbn; tauto). cbn [String.eqb Ascii.eqb Bool.eqb] in Fsv.
  pose proof (matchesIn_domOf (ByClass "project-card") _ _ Dpj) as Fpj.
  rewrite projectsView_cards in Fpj by (cbn; tauto). cbn [String.eqb Ascii.eqb Bool.eqb] in Fpj.
  pose proof (matchesIn_domOf (ByClass "tech-badge") _ _ Dtc) as Ftb.
  rewrite techView_cards in Ftb by (cbn; tauto). cbn [String.eqb Ascii.eqb Bool.eqb] in Ftb.
  pose proof (matchesIn_domOf (ByClass "tech-stat") _ _ Dtc) as Fts.
  rewrite techView_stats in Fts.
  pose proof (matchesIn_domOf (ByClass "stat-item") _ _ Dab) as Fsi.
  pose proof (matchesIn_domOf (ByClass "tech-icon") _ _ Dab) as Fti.
  pose proof (matchesIn_domOf (ByClass "social-btn") _ _ Dct) as Fsb.
  pose proof (matchesIn_domOf (ByClass "form-input") _ _ Dct) as Ffi.
  rewrite (statTweens_there _ _ _ Fts)
    by (repeat (constructor; [discriminate|]); constructor).
  rewrite (statTweens_there _ _ _ Fsi)
    by (repeat (constructor; [discriminate|]); constructor).
  rewrite !length_app, !pairs_length by reflexivity.
  rewrite (Forall2_domOf_length _ _ Fsv), (Forall2_domOf_length _ _ Fpj),
    (Forall2_domOf_length _ _ Ftb), (Forall2_domOf_length _ _ Fti),
    (Forall2_domOf_length _ _ Fsb), (Forall2_domOf_length _ _ Ffi).
  rewrite !length_map.
  change (List.length (matchedIn (ByClass "tech-icon") aboutView)) with 6%nat.
  change (List.length (matchedIn (ByClass "social-btn") contactView)) with 3%nat.
  change (List.length (matchedIn (ByClass "form-input") contactView)) with 4%nat.
  change (List.length (matchedIn (ByClass "stat-item") aboutView)) with 3%nat.
  cbn [List.length]. lia.
Qed.

(** X4. Mounted on the page rendered from any three content arrays, the
    effect creates 29 tweens plus one per project and one per technology,
    20 scroll triggers plus one per project, and 26 listeners plus two
    per technology and two per service. *)
Theorem mount_registers_by_content (m : JsMath) (services : list Service)
  (projects : list Project) (technologies : list string) (s : State) :
  exists ctx s',
    mount m (mounted (markup services projects technologies)) s = Ok (ctx, s')
    /\ List.length (animations s')
       = (List.length (animations s)
          + 29 + List.length projects + List.length technologies)%nat
    /\ List.length (observers s')
       = (List.length (observers s) + 20 + List.length projects)%nat
    /\ List.length (listeners s')
       = (List.length (listeners s)
          + 26 + 2 * List.length technologies + 2 * List.length services)%nat.
Proof.
  destruct (mount_counts m (mounted (markup services projects technologies)) s)
    as (s' & E & Na & No & El).
  destruct (pageOf_counts _ _ _ _ (mounted_pageOf services projects technologies))
    as (Ht & Ho & Hl).
  exists (nextCtx s), s'. split; [exact E|].
  rewrite Na, No, El, length_app, Ht, Ho, Hl. repeat split; lia.
Qed.

(** *** No call without a target *)

Definition targeted (c : ToCall) : Prop := call_targets c <> [].

Definition tweenTargeted (tw : Tween) : Prop := tw_targets tw <> [].

Definition triggerTargeted (t : ScrollTrigger) : Prop :=
  trigger (st_vars t) <> []
  /\ match onEnter (st_vars t) with
     | Some handler => Forall targeted handler
     | None => True
     end.

Definition listenerTargeted (l : Listener) : Prop := Forall targeted (l_handler l).

Lemma matchesIn_some (sel : Selector) (e : ReactElement) (n : Node) :
  domOf e n -> matchedIn sel e <> [] ->
  exists x, hd_error (matchesIn sel n) = Some x.
Proof.
  intros D H. pose proof (matchesIn_domOf sel e n D) as F.
  destruct (matchedIn sel e) as [|x xs]; [contradiction|].
  inversion F; subst. eexists. reflexivity.
Qed.

Lemma matchesIn_any (sel : Selector) (e : ReactElement) (n : Node) :
  domOf e n -> matchedIn sel e <> [] -> matchesIn sel n <> [].
Proof.
  intros D H. destruct (matchesIn_some sel e n D H) as [x E].
  intros E'. rewrite E' in E. discriminate.
Qed.

Lemma Forall2_domOf_In (es : list ReactElement) (ns : list Node) (n : Node) :
  Forall2 domOf es ns -> In n ns -> exists e, In e es /\ domOf e n.
Proof.
  intros H. induction H as [|e n' es ns D _ IH]; intros Hin; [contradiction|].
  destruct Hin as [<-|Hin].
  - exists e. split; [now left | exact D].
  - destruct (IH Hin) as (e' & He' & D'). exists e'. split; [now right | exact D'].
Qed.

Lemma collection_any (l : list Node) : l <> [] -> collection l <> [].
Proof. destruct l; [contradiction | discriminate]. Qed.

Ltac targets_there :=
  lazymatch goal with
  | |- tweenTargeted _ => unfold tweenTargeted, freshTween; cbn [tw_targets]
  | |- triggerTargeted _ =>
      unfold triggerTargeted, freshTrigger, scrollTriggerVars;
      cbn [st_vars trigger onEnter]
  | |- listenerTargeted _ => unfold listenerTargeted; cbn [l_handler]
  end;
  repeat match goal with
         | H : hd_error ?l = Some _ |- context [hd_error ?l] => rewrite H
         | Hin : In ?card ?l,
           H : forall card, In card ?l -> exists icon, hd_error _ = Some icon
           |- context [hd_error _] =>
             let icon := fresh "icon" in
             let E := fresh "E" in
             destruct (H card Hin) as [icon E]; rewrite E
         end;
  unfold badgeEnter, badgeLeave, badgeWave, iconEnter, iconLeave, socialEnter,
    socialLeave, inputFocus, inputBlur, cardEnter, cardLeave, targeted;
  cbn [nullable element call_targets];
  repeat first [ split | constructor ];
  first [ exact I | discriminate | apply collection_any; assumption ].

Lemma initialize_targeted (m : JsMath) (services : list Service)
  (projects : list Project) (technologies : list string) (r : Refs) :
  pageOf services projects technologies r ->
  services <> [] -> technologies <> [] ->
  runs tweenTargeted triggerTargeted listenerTargeted (initialize m r).
Proof.
  intros Hp Hs Ht.
  pose proof (fun sv => pageOf_document_cards services projects technologies r sv Hp) as Hdoc.
  destruct Hp as (u & cl & nav & hero & sv & pj & tc & ab & ct & ft & title & subtitle
                  & buttons & -> & Dnav & Dhero & Dsv & Dpj & Dtc & Dab & Dct & Dft
                  & Dtitle & Dsubtitle & Dbuttons).
  specialize (Hdoc sv eq_refl). cbn [document] in Hdoc.
  assert (Hkids : children buttons <> []).
  { pose proof (children_domOf _ _ Dbuttons) as F. intros E. rewrite E in F. inversion F. }
  pose proof (matchesIn_domOf (ByClass "service-card") _ _ Dsv) as Fsv.
  rewrite servicesView_cards in Fsv by (cbn; tauto). cbn [String.eqb Ascii.eqb Bool.eqb] in Fsv.
  assert (Hcards : matchesIn (ByClass "service-card") sv <> []).
  { intros E. rewrite E in Fsv. destruct services; [contradiction | inversion Fsv]. }
  assert (Hicons : forall card, In card (matchesIn (ByClass "service-card") sv) ->
                     exists icon,
                       hd_error (matchesIn (ByClass "service-icon") card) = Some icon).
  { intros card Hin. destruct (Forall2_domOf_In _ _ _ Fsv Hin) as (e & He & D).
    apply in_map_iff in He. destruct He as (service & <- & _).
    apply (matchesIn_some _ _ _ D). rewrite serviceCard_icon. discriminate. }
  rewrite <- Hdoc in Hicons.
  pose proof (matchesIn_domOf (ByClass "tech-badge") _ _ Dtc) as Ftb.
  rewrite techView_cards in Ftb by (cbn; tauto). cbn [String.eqb Ascii.eqb Bool.eqb] in Ftb.
  assert (Hbadges : matchesIn (ByClass "tech-badge") tc <> []).
  { intros E. rewrite E in Ftb. destruct technologies; [contradiction | inversion Ftb]. }
  assert (Hti : matchesIn (ByClass "tech-icon") ab <> [])
    by (apply (matchesIn_any _ _ _ Dab); discriminate).
  assert (Hci : matchesIn (ByClass "contact-item") ct <> [])
    by (apply (matchesIn_any _ _ _ Dct); discriminate).
  assert (Hfi : matchesIn (ByClass "form-input") ct <> [])
    by (apply (matchesIn_any _ _ _ Dct); discriminate).
  destruct (matchesIn_some (ByClass "contact-info") _ _ Dct ltac:(discriminate))
    as [contactInfo Einfo].
  destruct (matchesIn_some (ByClass "contact-form") _ _ Dct ltac:(discriminate))
    as [contactForm Eform].
  unfold initialize, heroTitle, heroSubtitle, heroButtons, servicesSection,
    projectsSection, techSection, aboutSection, contactSection, serviceHover.
  cbn [titleRef subtitleRef buttonsRef servicesRef projectsRef techRef aboutRef
       contactRef document isSome].
  run_with targets_there.
Qed.

(** X6. On the page rendered from content arrays that list at least one
    service and one technology, no call of the effect is without a
    target: every tween the effect creates has at least one target, every
    scroll trigger has its trigger element and its onEnter handler has
    targets, and every call a pointer or focus handler will make has a
    target (the icon a service card's handler looks up is there). *)
Theorem every_call_has_a_target (m : JsMath) (services : list Service)
  (projects : list Project) (technologies : list string) (s : State) :
  services <> [] -> technologies <> [] ->
  exists ctx s' la lo ll,
    mount m (mounted (markup services projects technologies)) s = Ok (ctx, s')
    /\ animations s' = animations s ++ la /\ Forall tweenTargeted la
    /\ observers s' = observers s ++ lo /\ Forall triggerTargeted lo
    /\ listeners s' = listeners s ++ ll /\ Forall listenerTargeted ll.
Proof.
  intros Hs Ht.
  destruct (mount_adds _ _ _ m _
              (initialize_targeted m _ _ _ _
                 (mounted_pageOf services projects technologies) Hs Ht))
    as (na & no & ll & Fl & H).
  destruct (H s) as (s' & la & lo & E & Ea & _ & Fa & Eo & _ & Fo & El & _).
  exists (nextCtx s), s', la, lo, ll. repeat split; assumption.
Qed.

Lemma every_call_has_a_target_witness :
  View.services <> [] /\ View.technologies <> []
  /\ exists ctx s' la lo ll,
       mount sampleMath (mounted Portfolio) emptyState = Ok (ctx, s')
       /\ animations s' = animations emptyState ++ la /\ Forall tweenTargeted la
       /\ observers s' = observers emptyState ++ lo /\ Forall triggerTargeted lo
       /\ listeners s' = listeners emptyState ++ ll /\ Forall listenerTargeted ll.
Proof.
  assert (Hs : View.services <> []) by discriminate.
  assert (Ht : View.technologies <> []) by discriminate.
  split; [exact Hs|]. split; [exact Ht|].
  exact (every_call_has_a_target sampleMath View.services View.projects View.technologies
           emptyState Hs Ht).
Defined.

(* ================================================================== *)
(** ** Nothing waits without a trigger *)

(** [linked s]: every tween that waits, paused, is the animation of a
    scroll trigger that plays it when its range is entered. *)
Definition linked (s : State) : Prop :=
  Forall (fun tw => tw_paused tw = true ->
            exists t, In t (observers s)
                      /\ st_animation t = Some (tw_id tw)
                      /\ actionFor (st_vars t) Enter = a_play)
         (animations s).

Definition keeps {A : Type} (c : M A) : Prop :=
  forall s, linked s -> exists a s', c s = Ok (a, s') /\ linked s'.

Lemma linked_more (s s' : State) (la : list Tween) (lo : list ScrollTrigger) :
  linked s ->
  animations s' = animations s ++ la ->
  observers s' = observers s ++ lo ->
  Forall (fun tw => tw_paused tw = true ->
            exists t, In t lo /\ st_animation t = Some (tw_id tw)
                      /\ actionFor (st_vars t) Enter = a_play) la ->
  linked s'.
Proof.
  unfold linked. intros L Ea Eo Hla. rewrite Ea, Eo. apply Forall_app. split.
  - eapply Forall_impl; [|exact L]. intros tw H Hp.
    destruct (H Hp) as (t & Hin & Ht). exists t. split; [|exact Ht].
    apply in_or_app. now left.
  - eapply Forall_impl; [|exact Hla]. intros tw H Hp.
    destruct (H Hp) as (t & Hin & Ht). exists t. split; [|exact Ht].
    apply in_or_app. now right.
Qed.

Lemma keeps_ret {A : Type} (a : A) : keeps (ret a).
Proof. intros s L. now exists a, s. Qed.

Lemma keeps_bind {A B : Type} (c : M A) (k : A -> M B) :
  keeps c -> (forall a, keeps (k a)) -> keeps (bind c k).
Proof.
  intros Hc Hk s L. destruct (Hc s L) as (a & s1 & E & L1).
  destruct (Hk a s1 L1) as (b & s2 & E' & L2).
  exists b, s2. unfold bind. now rewrite E.
Qed.

Lemma keeps_lift {A : Type} (res : Result A) : (exists a, res = Ok a) -> keeps (lift res).
Proof. intros [a ->] s L. now exists a, s. Qed.

Lemma keeps_deref {A : Type} (a : A) (what : string) : keeps (deref (Some a) what).
Proof. intros s L. now exists a, s. Qed.

Lemma keeps_forEach {A : Type} (l : list A) (f : A -> nat -> M unit) :
  (forall a i, keeps (f a i)) -> forall i, keeps (forEach l f i).
Proof.
  intros Hf. induction l as [|a l IH]; intros i; cbn [forEach].
  - apply keeps_ret.
  - apply keeps_bind; [apply Hf | intros _; apply IH].
Qed.

Lemma keeps_random (m : JsMath) : keeps (Math_random m).
Proof.
  intros s L. eexists _, _. split; [reflexivity|].
  eapply linked_more with (la := []) (lo := []); [exact L | | | constructor];
    cbn; now rewrite app_nil_r.
Qed.

Lemma keeps_addEventListener (n : Node) (type : string) (h : list ToCall) :
  keeps (addEventListener n type h).
Proof.
  intros s L. eexists _, _. split; [reflexivity|].
  eapply linked_more with (la := []) (lo := []); [exact L | | | constructor];
    cbn; now rewrite app_nil_r.
Qed.

Lemma keeps_newTween (m : JsMath) (targets : list Elem) (from : option Vars)
  (v : TweenVars) (p : Q) : keeps (newTween m targets from v p false).
Proof.
  intros s L. eexists _, _. split; [reflexivity|].
  eapply linked_more with (lo := []); [exact L | reflexivity | cbn; now rewrite app_nil_r |].
  constructor; [|constructor]. cbn. discriminate.
Qed.

Lemma keeps_to (m : JsMath) (targets : list Elem) (v : TweenVars) : keeps (to m targets v).
Proof. apply keeps_bind; [apply keeps_newTween | intros; apply keeps_ret]. Qed.

Lemma keeps_set (m : JsMath) (targets : list Elem) (vs : Vars) : keeps (set m targets vs).
Proof. apply keeps_bind; [apply keeps_newTween | intros; apply keeps_ret]. Qed.

Lemma keeps_timeline_fromTo (m : JsMath) (tl : Q) (targets : list Elem) (from : Vars)
  (v : TweenVars) (pos : Position) : keeps (timeline_fromTo m tl targets from v pos).
Proof. apply keeps_bind; [apply keeps_newTween | intros; apply keeps_ret]. Qed.

Lemma keeps_ScrollTrigger_create (v : ScrollTriggerVars) : keeps (ScrollTrigger_create v).
Proof.
  intros s L. eexists _, _. split; [reflexivity|].
  eapply linked_more with (la := []); [exact L | cbn; now rewrite app_nil_r | reflexivity |].
  constructor.
Qed.

Lemma keeps_fromTo (m : JsMath) (targets : list Elem) (from : Vars) (v : TweenVars)
  (st : ScrollTriggerVars) :
  actionFor st Enter = a_play -> keeps (fromTo m targets from v (Some st)).
Proof.
  intros Hplay s L. eexists _, _. split; [reflexivity|].
  eapply linked_more; [exact L | reflexivity | reflexivity |].
  constructor; [|constructor]. intros _.
  eexists. split; [now left|]. split; [reflexivity | exact Hplay].
Qed.

Ltac keep_step :=
  lazymatch goal with
  | |- keeps (if isSome ?o then _ else _) => destruct o; cbn [isSome]
  | |- keeps (bind _ _) => apply keeps_bind; [ | intros; cbv zeta ]
  | |- keeps (forEach _ _ _) => apply keeps_forEach; intros
  | |- keeps (ret _) => apply keeps_ret
  | |- keeps (lift _) => apply keeps_lift; eexists; reflexivity
  | |- keeps (deref (Some _) _) => apply keeps_deref
  | |- keeps (Math_random _) => apply keeps_random
  | |- keeps (to _ _ _) => apply keeps_to
  | |- keeps (set _ _ _) => apply keeps_set
  | |- keeps (timeline_fromTo _ _ _ _ _ _) => apply keeps_timeline_fromTo
  | |- keeps (fromTo _ _ _ _ (Some _)) => apply keeps_fromTo; reflexivity
  | |- keeps (ScrollTrigger_create _) => apply keeps_ScrollTrigger_create
  | |- keeps (addEventListener _ _ _) => apply keeps_addEventListener
  end.

Lemma initialize_keeps (m : JsMath) (r : Refs) : keeps (initialize m r).
Proof.
  unfold initialize, heroTitle, heroSubtitle, heroButtons, servicesSection,
    projectsSection, techSection, aboutSection, contactSection, serviceHover.
  repeat keep_step.
Qed.

(** X7. When the effect has run, no tween waits without a trigger:
    every tween the effect leaves paused is the animation of a scroll
    trigger whose action on entering its range is [play].  What the
    from-values hid at mount can therefore always be brought in by
    scrolling. *)
Theorem paused_tweens_have_a_trigger (m : JsMath) (r : Refs) (s : State) :
  linked s ->
  exists ctx s', mount m r s = Ok (ctx, s') /\ linked s'.
Proof.
  intros L.
  destruct (initialize_keeps m r (setContext (Some (nextCtx s)) true s) L)
    as ([] & s1 & E & L1).
  exists (nextCtx s), (setContext (context s) false s1).
  split; [apply mount_initialize, E | exact L1].
Qed.

Lemma paused_tweens_have_a_trigger_witness :
  linked emptyState
  /\ exists ctx s', mount sampleMath pageRefs emptyState = Ok (ctx, s') /\ linked s'.
Proof.
  assert (L : linked emptyState) by constructor.
  split; [exact L | exact (paused_tweens_have_a_trigger sampleMath pageRefs emptyState L)].
Defined.

(* ================================================================== *)
(** ** The pace of the endless tweens *)









(* ================================================================== *)
(** ** Mounting and unmounting, once more *)

Lemma filter_again {A : Type} (f : A -> bool) (l : list A) :
  filter f (filter f l) = filter f l.
Proof.
  induction l as [|a l IH]; [reflexivity|]. cbn [filter].
  destruct (f a) eqn:E; [cbn [filter]; rewrite E; now rewrite IH | exact IH].
Qed.

Lemma filter_apart {A : Type} (f : A -> bool) (l : list A) :
  filter f (filter (fun x => negb (f x)) l) = [].
Proof.
  induction l as [|a l IH]; [reflexivity|]. cbn [filter].
  destruct (f a) eqn:E; cbn [negb filter]; [exact IH | rewrite E; exact IH].
Qed.

Lemma revert_again (c : nat) (s : State) : revert c (revert c s) = revert c s.
Proof.
  unfold revert. cbn [animations observers listeners styles context nextId nextCtx
                      randomCalls].
  rewrite (filter_again (fun tw => negb (recordedBy c (tw_ctx tw)))).
  rewrite (filter_again (fun t => negb (recordedBy c (st_ctx t)))).
  rewrite (filter_apart (fun tw => recordedBy c (tw_ctx tw))).
  cbn [existsb negb]. f_equal.
  apply filter_all_true, Forall_forall. reflexivity.
Qed.

(** X9. From a well-formed state, mounting and then running the clean-up
    leaves the library with the tweens and the scroll triggers it had
    before the mount; the listeners of the mount are all still on their
    elements; and running the clean-up a second time changes nothing. *)
Theorem mount_unmount_round_trip (m : JsMath) (r : Refs) (s : State) :
  wf s ->
  exists ctx s1 s2,
    mount m r s = Ok (ctx, s1)
    /\ unmount ctx s1 = Ok (tt, s2)
    /\ animations s2 = animations s
    /\ observers s2 = observers s
    /\ listeners s2 = listeners s ++ plannedListeners r
    /\ unmount ctx s2 = Ok (tt, s2).
Proof.
  intros W.
  destruct (mount_adds _ _ _ m r (initialize_runs m r)) as (na & no & ll & _ & H).
  destruct (H s) as (s1 & la & lo & E & Ea & _ & _ & Eo & _ & _ & El & _ & _ & Ca & Co & _).
  destruct (mount_counts m r s) as (s1' & E' & _ & _ & El').
  rewrite E in E'. injection E' as <-.
  destruct (revert_after_mount s s1 la lo W Ea Eo Ca Co) as (Ra & Ro & Rl).
  exists (nextCtx s), s1, (revert (nextCtx s) s1).
  split; [exact E|]. split; [reflexivity|]. split; [exact Ra|]. split; [exact Ro|].
  split; [rewrite Rl; exact El'|].
  unfold unmount, modify. now rewrite revert_again.
Qed.

Lemma mount_unmount_round_trip_witness :
  wf emptyState
  /\ exists ctx s1 s2,
       mount sampleMath pageRefs emptyState = Ok (ctx, s1)
       /\ unmount ctx s1 = Ok (tt, s2)
       /\ animations s2 = animations emptyState
       /\ observers s2 = observers emptyState
       /\ listeners s2 = listeners emptyState ++ plannedListeners pageRefs
       /\ unmount ctx s2 = Ok (tt, s2).
Proof.
  split; [exact wf_empty|].
  exact (mount_unmount_round_trip sampleMath pageRefs emptyState wf_empty).
Defined.

(* ================================================================== *)
(** ** The hero timeline *)

(** X10. With the three hero refs attached, the effect puts on the
    timeline, in this order and all running: the title at 0 for 1.2 s,
    the subtitle at 0.6 (0.6 s before the title ends) for 0.8 s, and the
    buttons at 1.0 (0.4 s before the subtitle ends); before them it sets
    the title's opacity to 1, which the from-values of the title tween
    at once override with 0. *)
Theorem hero_timeline (m : JsMath) (r : Refs) (s : State) (title subtitle buttons : Node) :
  titleRef r = Some title ->
  subtitleRef r = Some subtitle ->
  buttonsRef r = Some buttons ->
  exists ctx s' t0 t1 t2 t3 rest,
    mount m r s = Ok (ctx, s')
    /\ animations s' = animations s ++ t0 :: t1 :: t2 :: t3 :: rest
    /\ (tw_targets t0 = [uid title] /\ tw_from t0 = Some [num p_opacity 1]
        /\ duration (tw_vars t0) == 0)
    /\ (tw_targets t1 = [uid title] /\ tw_position t1 == 0
        /\ duration (tw_vars t1) == 1.2
        /\ option_map (fun f => lookupVar f p_opacity) (tw_from t1) = Some (Some (VNum 0)))
    /\ (tw_targets t2 = [uid subtitle] /\ tw_position t2 == 0.6
        /\ duration (tw_vars t2) == 0.8)
    /\ (tw_targets t3 = map uid (children buttons) /\ tw_position t3 == 1
        /\ duration (tw_vars t3) == 0.6)
    /\ Forall (fun tw => tw_paused tw = false) [t0; t1; t2; t3].
Proof.
  intros Ht Hs Hb.
  set (s0 := setContext (Some (nextCtx s)) true s).
  assert (H : exists s3 tl t0 t1 t2 t3,
             bind (heroTitle m r) (fun tl =>
               bind (heroSubtitle m r tl) (fun tl => heroButtons m r tl)) s0
             = Ok (tl, s3)
             /\ animations s3 = animations s0 ++ [t0; t1; t2; t3]
             /\ (tw_targets t0 = [uid title] /\ tw_from t0 = Some [num p_opacity 1]
                 /\ duration (tw_vars t0) == 0)
             /\ (tw_targets t1 = [uid title] /\ tw_position t1 == 0
                 /\ duration (tw_vars t1) == 1.2
                 /\ option_map (fun f => lookupVar f p_opacity) (tw_from t1)
                    = Some (Some (VNum 0)))
             /\ (tw_targets t2 = [uid subtitle] /\ tw_position t2 == 0.6
                 /\ duration (tw_vars t2) == 0.8)
             /\ (tw_targets t3 = map uid (children buttons) /\ tw_position t3 == 1
                 /\ duration (tw_vars t3) == 0.6)
             /\ Forall (fun tw => tw_paused tw = false) [t0; t1; t2; t3]).
  { unfold heroTitle, heroSubtitle, heroButtons. rewrite Ht, Hs, Hb. cbn [isSome deref].
    generalize s0. intros sa.
    unfold set, timeline_fromTo, bind, newTween, ret.
    eexists _, _, _, _, _, _. split; [reflexivity|].
    cbn [animations withAnimations]. split; [rewrite <- !app_assoc; reflexivity|].
    cbn [freshTween tw_targets tw_from tw_vars tw_position tw_paused element collection
         duration vars heroButtonsVars withStagger option_map].
    repeat apply conj;
      lazymatch goal with
      | |- _ == _ => vm_compute; reflexivity
      | |- Forall _ _ => repeat constructor
      | |- _ => reflexivity
      end. }
  destruct H as (s3 & tl & t0 & t1 & t2 & t3 & E3 & Ea & P0 & P1 & P2 & P3 & Pp).
  assert (Hrest : runs anyTween anyTrigger anyListener
                    (bind (servicesSection m r) (fun _ =>
                     bind (projectsSection m r) (fun _ =>
                     bind (techSection m r) (fun _ =>
                     bind (aboutSection m r) (fun _ =>
                     bind (contactSection m r) (fun _ => serviceHover r))))))).
  { apply runs_bind; [apply runs_servicesSection | intros _].
    apply runs_bind; [apply runs_projectsSection | intros _].
    apply runs_bind; [apply runs_techSection | intros _].
    apply runs_bind; [apply runs_aboutSection | intros _].
    apply runs_bind; [apply runs_contactSection | intros _].
    apply runs_serviceHover. }
  destruct (runs_extends _ _ _ _ Hrest) as [[] Hr].
  destruct (Hr s3) as (s4 & E4 & X4 & _).
  destruct X4 as ([la Ela] & _).
  exists (nextCtx s), (setContext (context s) false s4), t0, t1, t2, t3, la.
  split.
  - apply mount_initialize. fold s0. unfold initialize.
    unfold bind in E3 |- *.
    destruct (heroTitle m r s0) as [[tl1 s1]|]; [|discriminate].
    destruct (heroSubtitle m r tl1 s1) as [[tl2 s2]|]; [|discriminate].
    destruct (heroButtons m r tl2 s2) as [[tl3 s3']|]; [|discriminate].
    injection E3 as -> ->. exact E4.
  - cbn [setContext animations]. rewrite Ela, Ea. cbn [s0 setContext animations].
    rewrite <- app_assoc. split; [reflexivity|].
    repeat split; first [apply P0 | apply P1 | apply P2 | apply P3 | exact Pp].
Qed.

Lemma hero_timeline_witness :
  exists ctx s' t0 t1 t2 t3 rest,
    mount sampleMath pageRefs emptyState = Ok (ctx, s')
    /\ animations s' = animations emptyState ++ t0 :: t1 :: t2 :: t3 :: rest
    /\ (tw_targets t0 = [uid titleNode] /\ tw_from t0 = Some [num p_opacity 1]
        /\ duration (tw_vars t0) == 0)
    /\ (tw_targets t1 = [uid titleNode] /\ tw_position t1 == 0
        /\ duration (tw_vars t1) == 1.2
        /\ option_map (fun f => lookupVar f p_opacity) (tw_from t1) = Some (Some (VNum 0)))
    /\ (tw_targets t2 = [uid subtitleNode] /\ tw_position t2 == 0.6
        /\ duration (tw_vars t2) == 0.8)
    /\ (tw_targets t3 = map uid (children buttonsNode) /\ tw_position t3 == 1
        /\ duration (tw_vars t3) == 0.6)
    /\ Forall (fun tw => tw_paused tw = false) [t0; t1; t2; t3].
Proof.
  exact (hero_timeline sampleMath pageRefs emptyState titleNode subtitleNode buttonsNode
           eq_refl eq_refl eq_refl).
Defined.

(* ================================================================== *)
(** ** The counters of the mounted page *)

#[local] Open Scope Q_scope.







